(** * Selective-sync folder tree and URL joining of the desktop sync client

    A shallow embedding of [FolderStatusModel] (the tree of sync folders
    with tri-state check boxes, lazy listing and the projection of the
    tree to the selective-sync black list) and of
    [Account::concatUrlPath].

    Conventions of the embedding:
    - a [QString] is a [string]; the null/empty distinction of Qt is not
      modelled (every string is non-null);
    - a [QVector]/[QList] is a [list], read with [!!]; an element access
      out of range, a failed [Q_ASSERT] and a null dereference end the
      run with [Undefined];
    - a [SubFolderInfo*] is the address of the node inside [_folders]:
      the row of the root folder followed by the rows of the children;
    - rows and counters are natural numbers (the model only builds
      indexes with non-negative rows). *)

From Stdlib Require Import ZArith Ascii.
From Stdlib Require String.
From stdpp Require Import base list strings gmap.

Set Warnings "-register-all".
Local Open Scope string_scope.
Local Open Scope list_scope.
Local Open Scope nat_scope.

(** ** Results of partial operations *)

Inductive result (A : Type) : Type :=
| Ok (a : A)
| Undefined
| OutOfFuel.
Arguments Ok {A} a.
Arguments Undefined {A}.
Arguments OutOfFuel {A}.

Global Instance result_ret : MRet result := fun A a => Ok a.

Global Instance result_bind : MBind result := fun A B k r =>
  match r with
  | Ok a => k a
  | Undefined => Undefined
  | OutOfFuel => OutOfFuel
  end.

(** [at], [operator[]] and [first] of a Qt container. *)
Definition at_ {A : Type} (l : list A) (i : nat) : result A :=
  match l !! i with
  | Some a => Ok a
  | None => Undefined
  end.

(** ** QString *)

Module QString.

Definition isEmpty (s : string) : bool :=
  match s with
  | EmptyString => true
  | String _ _ => false
  end.

Fixpoint startsWith (s pre : string) {struct pre} : bool :=
  match pre with
  | EmptyString => true
  | String c pre' =>
      match s with
      | EmptyString => false
      | String d s' => if Ascii.eqb d c then startsWith s' pre' else false
      end
  end.

Definition startsWithChar (s : string) (c : ascii) : bool :=
  match s with
  | EmptyString => false
  | String d _ => Ascii.eqb d c
  end.

Fixpoint endsWithChar (s : string) (c : ascii) : bool :=
  match s with
  | EmptyString => false
  | String d EmptyString => Ascii.eqb d c
  | String _ s' => endsWithChar s' c
  end.

(** [chop(1)]: drop the last character. *)
Fixpoint chop1 (s : string) : string :=
  match s with
  | EmptyString => EmptyString
  | String _ EmptyString => EmptyString
  | String d s' => String d (chop1 s')
  end.

(** [remove(const QString &str)]: every occurrence of [str] is taken
    out, scanning from the left and resuming at the place of the last
    removal; an empty [str] removes nothing.  [skip] counts the
    characters of the occurrence being removed that are still ahead. *)
Fixpoint remove_from (str : string) (skip : nat) (s : string) : string :=
  match s with
  | EmptyString => EmptyString
  | String c s' =>
      match skip with
      | S k => remove_from str k s'
      | O =>
          if startsWith s str
          then remove_from str (String.length str - 1) s'
          else String c (remove_from str 0 s')
      end
  end.

Definition remove (s str : string) : string :=
  if isEmpty str then s else remove_from str 0 s.

(** [split(sep, QString::SkipEmptyParts)]. [cur] is the part being
    read. *)
Fixpoint split_from (sep : ascii) (cur : string) (s : string) : list string :=
  match s with
  | EmptyString => if isEmpty cur then [] else [cur]
  | String c s' =>
      if Ascii.eqb c sep
      then (if isEmpty cur then split_from sep EmptyString s'
            else cur :: split_from sep EmptyString s')
      else split_from sep (cur +:+ String c EmptyString) s'
  end.

Definition splitSkipEmpty (s : string) (sep : ascii) : list string :=
  split_from sep EmptyString s.

End QString.

(** [QList::last]: asserts that the list is not empty. *)
Definition last_ {A : Type} (l : list A) : result A :=
  match reverse l with
  | a :: _ => Ok a
  | [] => Undefined
  end.

(** ** Data model *)

(** [Qt::CheckState]. *)
Inductive CheckState : Type :=
| Unchecked
| PartiallyChecked
| Checked.

Global Instance CheckState_eq_dec : EqDecision CheckState.
Proof. solve_decision. Defined.

(** [FolderStatusModel::SubFolderInfo].  [_folder] is the [Folder*]: the
    position of the folder in [FolderMan::instance()->map().values()],
    or the null pointer. *)
Inductive SubFolderInfo : Type :=
  mkSubFolderInfo {
      _name : string;
      _path : string;
      _pathIdx : list nat;
      _size : Z;
      _subs : list SubFolderInfo;
      _fetched : bool;
      _fetching : bool;
      _checked : CheckState;
      _folder : option nat
    }.

(** Modelled from the spec: the declaration of [SubFolderInfo] (header
    [folderstatusmodel.h]) is not part of the sources; a freshly
    constructed node is not fetched, not fetching, has no children and
    starts at the inherited default state [Checked]. *)
Definition newSubFolderInfo : SubFolderInfo :=
  {| _name := ""; _path := ""; _pathIdx := []; _size := 0%Z; _subs := [];
     _fetched := false; _fetching := false; _checked := Checked;
     _folder := None |}.

Definition set_checked (c : CheckState) (n : SubFolderInfo) : SubFolderInfo :=
  {| _name := _name n; _path := _path n; _pathIdx := _pathIdx n;
     _size := _size n; _subs := _subs n; _fetched := _fetched n;
     _fetching := _fetching n; _checked := c; _folder := _folder n |}.

Definition set_fetching (b : bool) (n : SubFolderInfo) : SubFolderInfo :=
  {| _name := _name n; _path := _path n; _pathIdx := _pathIdx n;
     _size := _size n; _subs := _subs n; _fetched := _fetched n;
     _fetching := b; _checked := _checked n; _folder := _folder n |}.

Definition set_subs (l : list SubFolderInfo) (n : SubFolderInfo) : SubFolderInfo :=
  {| _name := _name n; _path := _path n; _pathIdx := _pathIdx n;
     _size := _size n; _subs := l; _fetched := _fetched n;
     _fetching := _fetching n; _checked := _checked n; _folder := _folder n |}.

(** ** BlackList projection: [FolderStatusModel::createBlackList] *)

Fixpoint createBlackList_node (root : SubFolderInfo) (oldBlackList : list string)
  : list string :=
  match root with
  | mkSubFolderInfo _ path _ _ subs fetched _ checked _ =>
      match checked with
      | Unchecked => [path]
      | Checked => []
      | PartiallyChecked =>
          if fetched then
            (fix loop (rest : list SubFolderInfo) (result : list string) :=
               match rest with
               | [] => result
               | sub :: rest' =>
                   loop rest' (result ++ createBlackList_node sub oldBlackList)
               end) subs []
          else
            fold_left
              (fun result it =>
                 if QString.startsWith it path then result ++ [it] else result)
              oldBlackList []
      end
  end.

(** The entry point takes a pointer; the null pointer projects to the
    empty list. *)
Definition createBlackList (root : option SubFolderInfo) (oldBlackList : list string)
  : list string :=
  match root with
  | None => []
  | Some r => createBlackList_node r oldBlackList
  end.

(** ** Collaborators *)

(** What the model reads from and writes to a [Folder].
    [remoteUrlPath] is [remoteUrl().path()]. *)
Record Folder : Type :=
  mkFolder {
      alias : string;
      remotePath : string;
      remoteUrlPath : string;
      selectiveSyncBlackList : list string;
      isBusy : bool
    }.

Definition setSelectiveSyncBlackList (l : list string) (f : Folder) : Folder :=
  {| alias := alias f; remotePath := remotePath f;
     remoteUrlPath := remoteUrlPath f; selectiveSyncBlackList := l;
     isBusy := isBusy f |}.

(** A [QModelIndex] of the model: the row and the internal pointer (the
    address of the node that holds the row in its [_subs], null for the
    top-level rows).  The model has a single column.  [Index] stands
    for a valid index, whose row is not negative, [InvalidIndex] for
    the index [QModelIndex()]; an index with a negative row, which
    [isValid] rejects whatever its pointer is, has no counterpart. *)
Inductive QModelIndex : Type :=
| InvalidIndex
| Index (row : nat) (internalPointer : option (list nat)).

Global Instance QModelIndex_eq_dec : EqDecision QModelIndex.
Proof. solve_decision. Defined.

Inductive ItemType : Type := RootFolder | SubFolder | AddButton.

(** Signals of a listing job and the slots of the model. *)
Inductive SignalName : Type := directoryListingSubfolders | finishedWithError.
Inductive SlotName : Type := slotUpdateDirectoriesSlot.

Global Instance SignalName_eq_dec : EqDecision SignalName.
Proof. solve_decision. Defined.

(** An [LsColJob] started by [fetchMore]: the listed path, the requested
    properties, the connections made on it and the dynamic property
    [oc_parentIndex] (a [QPersistentModelIndex]). *)
Record LsColJob : Type :=
  mkLsColJob {
      job_path : string;
      job_properties : list string;
      job_connections : list (SignalName * SlotName);
      job_parentIndex : QModelIndex
    }.

(** Calls and signals that leave the model, in the order they happen. *)
Inductive Effect : Type :=
| DirtyChanged
| DataChanged (index : QModelIndex)
| BeginInsertRows (parent : QModelIndex) (first last : nat)
| EndInsertRows
| ModelReset
| TerminateSync (folder : nat)
| AvoidReadFromDbOnNextSync (folder : nat) (path : string)
| ScheduleSync (folderAlias : string).

(** The model together with the collaborators it talks to:
    [folderMap] is [FolderMan::instance()->map().values()], [jobs] the
    listing jobs whose reply is outstanding, [effects] the log of
    outgoing calls. *)
Record World : Type :=
  mkWorld {
      _folders : list SubFolderInfo;
      _dirty : bool;
      folderMap : list Folder;
      jobs : list LsColJob;
      effects : list Effect
    }.

Definition with_folders (fs : list SubFolderInfo) (w : World) : World :=
  {| _folders := fs; _dirty := _dirty w; folderMap := folderMap w;
     jobs := jobs w; effects := effects w |}.

Definition with_dirty (b : bool) (w : World) : World :=
  {| _folders := _folders w; _dirty := b; folderMap := folderMap w;
     jobs := jobs w; effects := effects w |}.

Definition with_folderMap (fm : list Folder) (w : World) : World :=
  {| _folders := _folders w; _dirty := _dirty w; folderMap := fm;
     jobs := jobs w; effects := effects w |}.

Definition with_jobs (js : list LsColJob) (w : World) : World :=
  {| _folders := _folders w; _dirty := _dirty w; folderMap := folderMap w;
     jobs := js; effects := effects w |}.

Definition emit (es : list Effect) (w : World) : World :=
  {| _folders := _folders w; _dirty := _dirty w; folderMap := folderMap w;
     jobs := jobs w; effects := effects w ++ es |}.

(** ** Pointers into the tree *)

(** The node at address [p] below the vector [fs]. *)
Fixpoint node_at (fs : list SubFolderInfo) (p : list nat) : option SubFolderInfo :=
  match p with
  | [] => None
  | i :: q =>
      match fs !! i with
      | None => None
      | Some n =>
          match q with
          | [] => Some n
          | _ :: _ => node_at (_subs n) q
          end
      end
  end.

(** Assignment through a pointer: [f] is applied to the node at [p]. *)
Fixpoint modify_at (f : SubFolderInfo -> SubFolderInfo) (fs : list SubFolderInfo)
  (p : list nat) : list SubFolderInfo :=
  match p with
  | [] => fs
  | i :: q =>
      match q with
      | [] => alter f i fs
      | _ :: _ => alter (fun n => set_subs (modify_at f (_subs n) q) n) i fs
      end
  end.

Definition deref (p : list nat) (w : World) : result SubFolderInfo :=
  match node_at (_folders w) p with
  | Some n => Ok n
  | None => Undefined
  end.

Definition store (p : list nat) (f : SubFolderInfo -> SubFolderInfo) (w : World) : World :=
  with_folders (modify_at f (_folders w) p) w.

Definition folderOf (n : SubFolderInfo) (w : World) : result Folder :=
  match _folder n with
  | Some k => at_ (folderMap w) k
  | None => Undefined
  end.

(** A loop over the elements of [l], threading the state. *)
Fixpoint for_each {A S : Type} (l : list A) (body : A -> S -> result S) (s : S)
  : result S :=
  match l with
  | [] => Ok s
  | a :: l' => s' ← body a s; for_each l' body s'
  end.

(** ** Navigation: [classify], [infoForIndex], [index], [parent] *)

Definition classify (index : QModelIndex) (w : World) : ItemType :=
  match index with
  | Index _ (Some _) => SubFolder
  | Index row None =>
      if decide (row < length (folderMap w)) then RootFolder else AddButton
  | InvalidIndex => RootFolder
  end.

(** The first visit of a top-level row fills in the root node. *)
Definition initRoot (row : nat) (f : Folder) (info : SubFolderInfo) : SubFolderInfo :=
  {| _name := alias f; _path := "/"; _pathIdx := _pathIdx info ++ [row];
     _size := _size info; _subs := _subs info; _fetched := _fetched info;
     _fetching := _fetching info; _checked := _checked info;
     _folder := Some row |}.

(** [infoForIndex] returns the pointer to the node of [index] (null for
    an invalid index and for the add-button row).  [_folders] is
    [mutable]: a top-level row seen for the first time grows the vector
    and initialises the root. *)
Definition infoForIndex (index : QModelIndex) (w : World)
  : result (option (list nat) * World) :=
  match index with
  | InvalidIndex => Ok (None, w)
  | Index row (Some parentInfo) =>
      p ← deref parentInfo w;
      _ ← at_ (_subs p) row;
      Ok (Some (parentInfo ++ [row]), w)
  | Index row None =>
      let folders := folderMap w in
      if decide (length folders ≤ row) then Ok (None, w)
      else
        let fs := if decide (length (_folders w) ≤ row)
                  then resize (S row) newSubFolderInfo (_folders w)
                  else _folders w in
        info ← at_ fs row;
        f ← at_ folders row;
        let fs' := match _pathIdx info with
                   | [] => <[row := initRoot row f info]> fs
                   | _ :: _ => fs
                   end in
        Ok (Some [row], with_folders fs' w)
  end.

(** [index(row, column, parent)]. *)
Definition index (row : nat) (parent : QModelIndex) (w : World) : result QModelIndex :=
  match parent with
  | InvalidIndex => Ok (Index row None)
  | Index prow pptr =>
      match classify parent w, pptr with
      | AddButton, _ => Ok InvalidIndex
      | RootFolder, _ =>
          if decide (length (_folders w) ≤ prow) then Ok InvalidIndex
          else Ok (Index row (Some [prow]))
      | SubFolder, Some p =>
          pinfo ← deref p w;
          if decide (length (_subs pinfo) ≤ prow) then Ok InvalidIndex
          else
            sub ← at_ (_subs pinfo) prow;
            if decide (length (_subs sub) ≤ row) then Ok InvalidIndex
            else Ok (Index row (Some (p ++ [prow])))
      | SubFolder, None => Ok InvalidIndex
      end
  end.

(** [QModelIndex::child(row, 0)]. *)
Definition child (idx : QModelIndex) (row : nat) (w : World) : result QModelIndex :=
  match idx with
  | InvalidIndex => Ok InvalidIndex
  | Index _ _ => index row idx w
  end.

(** The [while] loop of [parent]: [k] iterations are left, [info] is
    the pointer reached so far and [i] the position in [pathIdx]. *)
Fixpoint parent_walk (w : World) (pathIdx : list nat) (k : nat)
  (info : list nat) (i : nat) : result (list nat * nat) :=
  match k with
  | O => Ok (info, i)
  | S k' =>
      n ← deref info w;
      pi ← at_ pathIdx i;
      _ ← at_ (_subs n) pi;
      parent_walk w pathIdx k' (info ++ [pi]) (S i)
  end.

(** [parent(child)]: rebuilt from the [_pathIdx] stored in the node. *)
Definition parent (child : QModelIndex) (w : World) : result QModelIndex :=
  match child with
  | InvalidIndex => Ok InvalidIndex
  | Index row ptr =>
      match classify child w, ptr with
      | SubFolder, Some p =>
          pinfo ← deref p w;
          sub ← at_ (_subs pinfo) row;
          let pathIdx := _pathIdx sub in
          r0 ← at_ pathIdx 0;
          if decide (length (_folders w) ≤ r0) then Undefined
          else if decide (length pathIdx = 2) then Ok (Index r0 None)
          else
            '(info, i) ← parent_walk w pathIdx (length pathIdx - 2 - 1) [r0] 1;
            ri ← at_ pathIdx i;
            Ok (Index ri (Some info))
      | _, _ => Ok InvalidIndex
      end
  end.

Definition rowCount (parent : QModelIndex) (w : World) : result (nat * World) :=
  match parent with
  | InvalidIndex => Ok (length (folderMap w) + 1, w)
  | Index _ _ =>
      '(info, w) ← infoForIndex parent w;
      match info with
      | None => Ok (0, w)
      | Some p => n ← deref p w; Ok (length (_subs n), w)
      end
  end.

(** ** The check boxes: [FolderStatusModel::setData] for
    [Qt::CheckStateRole]

    [fuel] bounds the depth of the recursive calls.  The two loops over
    [info->_subs] run over the rows [0 .. count-1] with the count read
    when the loop starts; every iteration reads the node again through
    the pointer. *)

Definition hasUnchecked (subs : list SubFolderInfo) : bool :=
  existsb (fun sub => bool_decide (_checked sub ≠ Checked)) subs.

Fixpoint setData (fuel : nat) (idx : QModelIndex) (checked : CheckState) (w : World)
  : result World :=
  match fuel with
  | O => OutOfFuel
  | S fuel' =>
      '(info, w) ← infoForIndex idx w;
      w ← match info with
          | None => Ok w
          | Some p =>
              n ← deref p w;
              if decide (_checked n ≠ checked) then
                let w := store p (set_checked checked) w in
                w ← (if decide (checked = Checked) then
                       w ← (par ← parent idx w;
                            '(parentInfo, w) ← infoForIndex par w;
                            match parentInfo with
                            | None => Ok w
                            | Some pp =>
                                pn ← deref pp w;
                                if decide (_checked pn ≠ Checked) then
                                  if negb (hasUnchecked (_subs pn))
                                  then setData fuel' par Checked w
                                  else if decide (_checked pn = Unchecked)
                                       then setData fuel' par PartiallyChecked w
                                       else Ok w
                                else Ok w
                            end);
                       n ← deref p w;
                       for_each (seq 0 (length (_subs n)))
                         (fun i w =>
                            n ← deref p w;
                            sub ← at_ (_subs n) i;
                            if decide (_checked sub ≠ Checked) then
                              c ← child idx i w;
                              setData fuel' c Checked w
                            else Ok w) w
                     else Ok w);
                w ← (if decide (checked = Unchecked) then
                       w ← (par ← parent idx w;
                            '(parentInfo, w) ← infoForIndex par w;
                            match parentInfo with
                            | None => Ok w
                            | Some pp =>
                                pn ← deref pp w;
                                if decide (_checked pn = Checked)
                                then setData fuel' par PartiallyChecked w
                                else Ok w
                            end);
                       n ← deref p w;
                       for_each (seq 0 (length (_subs n)))
                         (fun i w =>
                            n ← deref p w;
                            sub ← at_ (_subs n) i;
                            if decide (_checked sub ≠ Unchecked) then
                              c ← child idx i w;
                              setData fuel' c Unchecked w
                            else Ok w) w
                     else Ok w);
                (if decide (checked = PartiallyChecked) then
                   par ← parent idx w;
                   '(parentInfo, w) ← infoForIndex par w;
                   match parentInfo with
                   | None => Ok w
                   | Some pp =>
                       pn ← deref pp w;
                       if decide (_checked pn ≠ PartiallyChecked)
                       then setData fuel' par PartiallyChecked w
                       else Ok w
                   end
                 else Ok w)
              else Ok w
          end;
      Ok (emit [DirtyChanged; DataChanged idx] (with_dirty true w))
  end.

(** The blocks of [setData], with the recursive call as a parameter. *)
Section setData_blocks.
Variable rec : QModelIndex -> CheckState -> World -> result World.

(** The parent of a node that became [Checked]. *)
Definition parentOfChecked (idx : QModelIndex) (w : World) : result World :=
  par ← parent idx w;
  '(parentInfo, w) ← infoForIndex par w;
  match parentInfo with
  | None => Ok w
  | Some pp =>
      pn ← deref pp w;
      if decide (_checked pn ≠ Checked) then
        if negb (hasUnchecked (_subs pn))
        then rec par Checked w
        else if decide (_checked pn = Unchecked)
             then rec par PartiallyChecked w
             else Ok w
      else Ok w
  end.

(** The parent of a node that became [Unchecked]. *)
Definition parentOfUnchecked (idx : QModelIndex) (w : World) : result World :=
  par ← parent idx w;
  '(parentInfo, w) ← infoForIndex par w;
  match parentInfo with
  | None => Ok w
  | Some pp =>
      pn ← deref pp w;
      if decide (_checked pn = Checked)
      then rec par PartiallyChecked w
      else Ok w
  end.

(** The parent of a node that became [PartiallyChecked]. *)
Definition parentOfPartial (idx : QModelIndex) (w : World) : result World :=
  par ← parent idx w;
  '(parentInfo, w) ← infoForIndex par w;
  match parentInfo with
  | None => Ok w
  | Some pp =>
      pn ← deref pp w;
      if decide (_checked pn ≠ PartiallyChecked)
      then rec par PartiallyChecked w
      else Ok w
  end.

(** One round of the loop over the children. *)
Definition childRound (idx : QModelIndex) (p : list nat) (v : CheckState)
  (i : nat) (w : World) : result World :=
  n ← deref p w;
  sub ← at_ (_subs n) i;
  if decide (_checked sub ≠ v) then
    c ← child idx i w;
    rec c v w
  else Ok w.

Definition children (idx : QModelIndex) (p : list nat) (v : CheckState) (w : World)
  : result World :=
  n ← deref p w;
  for_each (seq 0 (length (_subs n))) (childRound idx p v) w.

Definition setData_body (idx : QModelIndex) (checked : CheckState) (w : World)
  : result World :=
  '(info, w) ← infoForIndex idx w;
  w ← match info with
      | None => Ok w
      | Some p =>
          n ← deref p w;
          if decide (_checked n ≠ checked) then
            let w := store p (set_checked checked) w in
            w ← (if decide (checked = Checked) then
                   w ← parentOfChecked idx w;
                   children idx p Checked w
                 else Ok w);
            w ← (if decide (checked = Unchecked) then
                   w ← parentOfUnchecked idx w;
                   children idx p Unchecked w
                 else Ok w);
            (if decide (checked = PartiallyChecked) then parentOfPartial idx w
             else Ok w)
          else Ok w
      end;
  Ok (emit [DirtyChanged; DataChanged idx] (with_dirty true w)).
End setData_blocks.

(** The block of [setData] that looks at the parent, for the value [v]. *)
Definition parentBlock (v : CheckState)
  : (QModelIndex -> CheckState -> World -> result World) ->
    QModelIndex -> World -> result World :=
  match v with
  | Checked => parentOfChecked
  | Unchecked => parentOfUnchecked
  | PartiallyChecked => parentOfPartial
  end.

(** ** Lazy listing: [canFetchMore], [fetchMore], [slotUpdateDirectories] *)

Definition set_fetched_fetching (fetched fetching : bool) (n : SubFolderInfo)
  : SubFolderInfo :=
  {| _name := _name n; _path := _path n; _pathIdx := _pathIdx n;
     _size := _size n; _subs := _subs n; _fetched := fetched;
     _fetching := fetching; _checked := _checked n; _folder := _folder n |}.

Definition canFetchMore (parent : QModelIndex) (w : World) : result (bool * World) :=
  '(info, w) ← infoForIndex parent w;
  match info with
  | None => Ok (false, w)
  | Some p =>
      n ← deref p w;
      if _fetched n || _fetching n then Ok (false, w) else Ok (true, w)
  end.

(** [fetchMore] marks the node as fetching and starts a job whose only
    connection is the listing signal. *)
Definition fetchMore (parent : QModelIndex) (w : World) : result World :=
  '(info, w) ← infoForIndex parent w;
  match info with
  | None => Ok w
  | Some p =>
      n ← deref p w;
      if _fetched n || _fetching n then Ok w
      else
        let w := store p (set_fetching true) w in
        f ← folderOf n w;
        let job := {| job_path := remotePath f +:+ "/" +:+ _path n;
                      job_properties := ["resourcetype"; "quota-used-bytes"];
                      job_connections :=
                        [(directoryListingSubfolders, slotUpdateDirectoriesSlot)];
                      job_parentIndex := parent |} in
        Ok (with_jobs (jobs w ++ [job]) w)
  end.

(** The loop over the black list that gives a new child its state: an
    exact entry or the marker ["/"] unchecks the child and leaves the
    loop, an entry that starts with the child's path makes it partially
    checked. *)
Fixpoint blackListState (path : string) (blackList : list string) (checked : CheckState)
  : CheckState :=
  match blackList with
  | [] => checked
  | str :: rest =>
      if bool_decide (str = path) || bool_decide (str = "/") then Unchecked
      else if QString.startsWith str path
           then blackListState path rest PartiallyChecked
           else blackListState path rest checked
  end.

(** One round of the [foreach] of [slotUpdateDirectories]; the state of
    the loop is the counter [i] and the world. *)
Definition addSubFolder (parentInfo : list nat) (sizes : gmap string Z)
  (pathToRemove : string) (path : string) (st : nat * World) : result (nat * World) :=
  let '(i, w) := st in
  pn ← deref parentInfo w;
  let pathIdx := _pathIdx pn ++ [i] in
  let i := S i in
  let size := default 0%Z (sizes !! path) in
  let path := QString.remove path pathToRemove in
  name ← last_ (QString.splitSkipEmpty path "/");
  if QString.isEmpty path then Ok (i, w)
  else
    checked ← (if decide (_checked pn = Unchecked) then Ok Unchecked
               else
                 r ← at_ (_pathIdx pn) 0;
                 f ← at_ (folderMap w) r;
                 Ok (blackListState path (selectiveSyncBlackList f)
                       (_checked newSubFolderInfo)));
    let newInfo :=
      {| _name := name; _path := path; _pathIdx := pathIdx; _size := size;
         _subs := _subs newSubFolderInfo; _fetched := _fetched newSubFolderInfo;
         _fetching := _fetching newSubFolderInfo; _checked := checked;
         _folder := _folder pn |} in
    Ok (i, store parentInfo (fun n => set_subs (_subs n ++ [newInfo]) n) w).

Definition slotUpdateDirectories (job : LsColJob) (sizes : gmap string Z)
  (list_ : list string) (w : World) : result World :=
  match job_parentIndex job with
  | InvalidIndex => Ok w
  | Index _ _ as idx =>
      '(parentInfo, w) ← infoForIndex idx w;
      match list_ with
      | [] => Undefined
      | _ :: list =>
          let w := emit [BeginInsertRows idx 0 (length list)] w in
          match parentInfo with
          | None => Undefined
          | Some pp =>
              pn ← deref pp w;
              f ← folderOf pn w;
              let pathToRemove :=
                if QString.endsWithChar (remoteUrlPath f) "/"
                then remoteUrlPath f
                else remoteUrlPath f +:+ "/" in
              let w := store pp (set_fetched_fetching true false) w in
              '(_, w) ← for_each list (addSubFolder pp sizes pathToRemove) (0, w);
              Ok (emit [EndInsertRows] w)
          end
      end
  end.

(** The reply of the server to a listing job. *)
Inductive Reply : Type :=
| Listing (list_ : list string) (sizes : gmap string Z)
| NetworkError (notFound : bool).

Definition signalOf (r : Reply) : SignalName :=
  match r with
  | Listing _ _ => directoryListingSubfolders
  | NetworkError _ => finishedWithError
  end.

(** The job at position [k] of the outstanding jobs finishes with [r]:
    the job emits the matching signal and every slot connected to that
    signal runs. *)
Definition jobFinished (k : nat) (r : Reply) (w : World) : result World :=
  job ← at_ (jobs w) k;
  let w := with_jobs (delete k (jobs w)) w in
  for_each
    (filter (fun c => c.1 = signalOf r) (job_connections job))
    (fun c w =>
       match c.2, r with
       | slotUpdateDirectoriesSlot, Listing list_ sizes =>
           slotUpdateDirectories job sizes list_ w
       | slotUpdateDirectoriesSlot, NetworkError _ => Ok w
       end) w.

(** ** Reset and apply: [setAccount], [resetFolders],
    [slotApplySelectiveSync] *)

Definition invalidate (job : LsColJob) : LsColJob :=
  {| job_path := job_path job; job_properties := job_properties job;
     job_connections := job_connections job; job_parentIndex := InvalidIndex |}.

(** [setAccount] resets the model; a model reset invalidates every
    persistent index. *)
Definition setAccount (w : World) : World :=
  {| _folders := []; _dirty := false; folderMap := folderMap w;
     jobs := invalidate <$> jobs w; effects := effects w ++ [ModelReset] |}.

Definition resetFolders (w : World) : World := setAccount w.

(** The set of changed paths: [(old - new) + (new - old)] on [QSet]s. *)
Definition changedPaths (oldBlackList blackList : list string) : gset string :=
  let blackListSet : gset string := list_to_set blackList in
  let oldBlackListSet : gset string := list_to_set oldBlackList in
  (oldBlackListSet ∖ blackListSet) ∪ (blackListSet ∖ oldBlackListSet).

(** The body of the [for] loop of [slotApplySelectiveSync] for the rows
    in [rows]; [break] leaves the loop, [continue] goes to the next
    row. *)
Fixpoint applyRows (rows : list nat) (w : World) : result World :=
  match rows with
  | [] => Ok w
  | i :: rest =>
      if decide (length (_folders w) ≤ i) then Ok w
      else
        root ← at_ (_folders w) i;
        if negb (_fetched root) then applyRows rest w
        else
          folder ← at_ (folderMap w) i;
          let oldBlackList := selectiveSyncBlackList folder in
          let blackList := createBlackList (Some root) oldBlackList in
          let w := with_folderMap
                     (<[i := setSelectiveSyncBlackList blackList folder]> (folderMap w)) w in
          let changes := changedPaths oldBlackList blackList in
          let w :=
            if decide (changes = ∅) then w
            else
              emit ((if isBusy folder then [TerminateSync i] else [])
                      ++ (AvoidReadFromDbOnNextSync i <$> elements changes)
                      ++ [ScheduleSync (alias folder)]) w in
          applyRows rest w
  end.

Definition slotApplySelectiveSync (w : World) : result World :=
  if negb (_dirty w) then Ok w
  else
    w ← applyRows (seq 0 (length (folderMap w))) w;
    Ok (resetFolders w).

(** ** [Account::concatUrlPath] *)

(** The parts of a [QUrl] that the function reads or writes. *)
Record QUrl : Type :=
  mkQUrl {
      scheme : string;
      host : string;
      port : Z;
      path : string;
      queryItems : list (string * string)
    }.

Definition setPath (p : string) (u : QUrl) : QUrl :=
  {| scheme := scheme u; host := host u; port := port u; path := p;
     queryItems := queryItems u |}.

Definition setQueryItems (q : list (string * string)) (u : QUrl) : QUrl :=
  {| scheme := scheme u; host := host u; port := port u; path := path u;
     queryItems := q |}.

Definition concatUrlPath (url : QUrl) (concatPath : string)
  (items : list (string * string)) : QUrl :=
  let path0 := path url in
  let path1 :=
    if negb (QString.isEmpty concatPath) then
      let path2 :=
        if QString.endsWithChar path0 "/" && QString.startsWithChar concatPath "/"
        then QString.chop1 path0
        else if negb (QString.endsWithChar path0 "/")
                && negb (QString.startsWithChar concatPath "/")
             then path0 +:+ "/"
             else path0 in
      path2 +:+ concatPath
    else path0 in
  let tmpUrl := setPath path1 url in
  if decide (0 < length items) then setQueryItems items tmpUrl else tmpUrl.

(** ** Vocabulary of the statements *)

(** The address of the node an index stands for. *)
Definition addressOf (idx : QModelIndex) : list nat :=
  match idx with
  | InvalidIndex => []
  | Index row None => [row]
  | Index row (Some parentInfo) => parentInfo ++ [row]
  end.

(** The index of the node at an address. *)
Definition indexOfAddress (p : list nat) : QModelIndex :=
  match reverse p with
  | [] => InvalidIndex
  | [row] => Index row None
  | row :: q => Index row (Some (reverse q))
  end.

(** An index is materialized when [infoForIndex] finds its node
    without having to create it. *)
Definition materialized (idx : QModelIndex) (w : World) : Prop :=
  infoForIndex idx w = Ok (Some (addressOf idx), w).

(** The check state of the node at an address, if there is one. *)
Definition checkedAt (w : World) (p : list nat) : option CheckState :=
  _checked <$> node_at (_folders w) p.

(** The address invariant: the [_pathIdx] of every node is the address
    of the node.  A slot of [_folders] that was created by [resize] and
    not visited yet has an empty [_pathIdx] and no children. *)
Definition address_invariant (fs : list SubFolderInfo) : Prop :=
  forall p n, node_at fs p = Some n ->
    _pathIdx n = p \/ (length p = 1 /\ _pathIdx n = [] /\ _subs n = []).

Definition tree_invariant (w : World) : Prop :=
  length (_folders w) <= length (folderMap w) /\ address_invariant (_folders w).

(** Two nodes agree on everything but the content of their children. *)
Definition same_fields (m0 m : SubFolderInfo) : Prop :=
  set_subs [] m = set_subs [] m0 /\ length (_subs m) = length (_subs m0).

(** The same invariant as a test that can be run. *)
Fixpoint addresses_ok (p : list nat) (n : SubFolderInfo) : bool :=
  match n with
  | mkSubFolderInfo _ _ pathIdx _ subs _ _ _ _ =>
      bool_decide (pathIdx = p)
      && (fix go (i : nat) (l : list SubFolderInfo) : bool :=
            match l with
            | [] => true
            | c :: l' => addresses_ok (p ++ [i]) c && go (S i) l'
            end) 0 subs
  end.

Fixpoint roots_ok (r : nat) (fs : list SubFolderInfo) : bool :=
  match fs with
  | [] => true
  | n :: fs' =>
      (match _pathIdx n, _subs n with
       | [], [] => true
       | _, _ => addresses_ok [r] n
       end) && roots_ok (S r) fs'
  end.

Definition tree_ok (w : World) : bool :=
  bool_decide (length (_folders w) <= length (folderMap w)) && roots_ok 0 (_folders w).

(** A path without one trailing, respectively one leading, ['/']. *)
Definition withoutTrailingSlash (s : string) : string :=
  if QString.endsWithChar s "/" then QString.chop1 s else s.

Definition withoutLeadingSlash (s : string) : string :=
  match s with
  | EmptyString => s
  | String c s' => if Ascii.eqb c "/" then s' else s
  end.

(** "Joined with exactly one ['/'] at the junction", in the words of the
    description of [concatUrlPath]: [result] is a part [b] of the base
    path, one ['/'] and a part [r] of the relative path, where [b] is
    the base path, or the base path with one ['/'] chopped, [r] is the
    relative path, or the relative path behind its leading ['/'], and
    no further ['/'] touches the one in the middle. *)
Definition joinedWithOneSlash (base rel result : string) : Prop :=
  exists b r,
    result = b +:+ "/" +:+ r /\
    (b = base \/ b +:+ "/" = base) /\
    (r = rel \/ "/" +:+ r = rel) /\
    QString.endsWithChar b "/" = false /\
    QString.startsWithChar r "/" = false.

(** ** The effect of [setData] on the tree, by address

    The functions below describe, on addresses, what the recursive
    calls of [setData] do to the tree and which nodes they notify; the
    refinement lemmas relate them to [setData]. *)

Definition parentAddress (p : list nat) : list nat := removelast p.

(** The way down: the node takes the state [v]; every child that is not
    in state [v] yet is treated in the same way, a child that is
    already in state [v] is left alone together with everything below
    it. *)
Fixpoint cascade (v : CheckState) (n : SubFolderInfo) : SubFolderInfo :=
  match n with
  | mkSubFolderInfo name path pathIdx size subs fetched fetching _ folder =>
      mkSubFolderInfo name path pathIdx size
        ((fun c => if decide (_checked c ≠ v) then cascade v c else c) <$> subs)
        fetched fetching v folder
  end.

Definition cascadeChild (v : CheckState) (c : SubFolderInfo) : SubFolderInfo :=
  if decide (_checked c ≠ v) then cascade v c else c.

Definition cascadeChildren (v : CheckState) (n : SubFolderInfo) : SubFolderInfo :=
  set_subs (cascadeChild v <$> _subs n) n.

(** The addresses notified on the way down, in the order of the
    notifications. *)
Fixpoint cascadeTouched (v : CheckState) (p : list nat) (n : SubFolderInfo)
  : list (list nat) :=
  match n with
  | mkSubFolderInfo _ _ _ _ subs _ _ _ _ =>
      (fix go (i : nat) (l : list SubFolderInfo) : list (list nat) :=
         match l with
         | [] => []
         | c :: l' =>
             (if decide (_checked c ≠ v) then cascadeTouched v (p ++ [i]) c else [])
               ++ go (S i) l'
         end) 0 subs ++ [p]
  end.

Fixpoint childrenTouched (v : CheckState) (p : list nat) (i : nat)
  (l : list SubFolderInfo) : list (list nat) :=
  match l with
  | [] => []
  | c :: l' =>
      (if decide (_checked c ≠ v) then cascadeTouched v (p ++ [i]) c else [])
        ++ childrenTouched v p (S i) l'
  end.

Fixpoint height (n : SubFolderInfo) : nat :=
  match n with
  | mkSubFolderInfo _ _ _ _ subs _ _ _ _ => S (foldr max 0 (height <$> subs))
  end.

(** The way up with [PartiallyChecked]: the node at [p], which is not
    partially checked, becomes partially checked, and so does its
    parent unless it is partially checked already, and so on.  [k]
    bounds the number of levels. *)
Fixpoint partialCall (k : nat) (p : list nat) (fs : list SubFolderInfo)
  : list SubFolderInfo * list (list nat) :=
  let fs1 := modify_at (set_checked PartiallyChecked) fs p in
  let up :=
    match k with
    | O => (fs1, [])
    | S k' =>
        match node_at fs1 (parentAddress p) with
        | Some pn =>
            if decide (_checked pn ≠ PartiallyChecked)
            then partialCall k' (parentAddress p) fs1
            else (fs1, [])
        | None => (fs1, [])
        end
    end in
  (up.1, up.2 ++ [p]).

(** The way up with [Checked]: the node at [p], which is not checked
    and whose children are all checked, becomes checked; its parent is
    looked at in the same way as the parent of any node that became
    checked. *)
Fixpoint checkedCall (k : nat) (p : list nat) (fs : list SubFolderInfo)
  : list SubFolderInfo * list (list nat) :=
  let fs1 := modify_at (set_checked Checked) fs p in
  let up :=
    match k with
    | O => (fs1, [])
    | S k' =>
        match node_at fs1 (parentAddress p) with
        | Some pn =>
            if decide (_checked pn ≠ Checked) then
              if negb (hasUnchecked (_subs pn))
              then checkedCall k' (parentAddress p) fs1
              else if decide (_checked pn = Unchecked)
                   then partialCall k' (parentAddress p) fs1
                   else (fs1, [])
            else (fs1, [])
        | None => (fs1, [])
        end
    end in
  (up.1, up.2 ++ [p]).

(** What happens above a node at [p] that has just taken the state
    [v]; [fs] already holds the new state of the node. *)
Definition above (v : CheckState) (p : list nat) (fs : list SubFolderInfo)
  : list SubFolderInfo * list (list nat) :=
  match node_at fs (parentAddress p) with
  | None => (fs, [])
  | Some pn =>
      match v with
      | Checked =>
          if decide (_checked pn ≠ Checked) then
            if negb (hasUnchecked (_subs pn))
            then checkedCall (length p) (parentAddress p) fs
            else if decide (_checked pn = Unchecked)
                 then partialCall (length p) (parentAddress p) fs
                 else (fs, [])
          else (fs, [])
      | Unchecked =>
          if decide (_checked pn = Checked)
          then partialCall (length p) (parentAddress p) fs
          else (fs, [])
      | PartiallyChecked =>
          if decide (_checked pn ≠ PartiallyChecked)
          then partialCall (length p) (parentAddress p) fs
          else (fs, [])
      end
  end.

(** The whole call [setData(idx, v)] on a materialized node: the new
    tree and the addresses notified, in order. *)
Definition setDataTree (p : list nat) (v : CheckState) (fs : list SubFolderInfo)
  : list SubFolderInfo * list (list nat) :=
  match node_at fs p with
  | None => (fs, [])
  | Some n =>
      if decide (_checked n ≠ v) then
        let fs1 := modify_at (set_checked v) fs p in
        let up := above v p fs1 in
        match v with
        | PartiallyChecked => (up.1, up.2 ++ [p])
        | _ =>
            (modify_at (cascadeChildren v) up.1 p,
             up.2 ++ childrenTouched v p 0 (_subs n) ++ [p])
        end
      else (fs, [p])
  end.

Definition notifications (touched : list (list nat)) : list Effect :=
  touched ≫= fun a => [DirtyChanged; DataChanged (indexOfAddress a)].

(** The world after a call that left the tree [fs] and notified the
    addresses [touched]. *)
Definition updated (w : World) (fs : list SubFolderInfo) (d : bool)
  (touched : list (list nat)) : World :=
  {| _folders := fs; _dirty := d; folderMap := folderMap w; jobs := jobs w;
     effects := effects w ++ notifications touched |}.

(** A result [r] of a way up that started at [q] in the tree [fs]: the
    notified addresses are ancestors of [q] or [q] itself, none is
    notified twice, and such an address is notified exactly when the
    state of its node has changed. *)
Definition touched_ok (q : list nat) (fs : list SubFolderInfo)
  (r : list SubFolderInfo * list (list nat)) : Prop :=
  (forall a, a ∈ r.2 -> a <> [] /\ a `prefix_of` q) /\
  NoDup r.2 /\
  (forall a, a <> [] -> a `prefix_of` q ->
     (a ∈ r.2 <-> _checked <$> node_at r.1 a <> _checked <$> node_at fs a)).

(** The initial state of a new child in the words of the
    specification: forced [Unchecked] below an unchecked parent;
    otherwise [Unchecked] when the black list holds the exact path or
    the marker ["/"], [PartiallyChecked] when some black-list entry is a
    prefix of the path, and the default [Checked] in all other cases. *)
Definition claimedInitialState (parentState : CheckState) (blackList : list string)
  (path : string) : CheckState :=
  if decide (parentState = Unchecked) then Unchecked
  else if bool_decide (path ∈ blackList) || bool_decide ("/" ∈ blackList) then Unchecked
  else if existsb (fun entry => QString.startsWith path entry) blackList
       then PartiallyChecked
       else Checked.

(** What [slotApplySelectiveSync] sends out for the row [i]. *)
Definition applyEffects (w : World) (i : nat) : list Effect :=
  match _folders w !! i, folderMap w !! i with
  | Some root, Some folder =>
      if _fetched root then
        let changes :=
          changedPaths (selectiveSyncBlackList folder)
            (createBlackList (Some root) (selectiveSyncBlackList folder)) in
        if decide (changes = ∅) then []
        else (if isBusy folder then [TerminateSync i] else [])
               ++ (AvoidReadFromDbOnNextSync i <$> elements changes)
               ++ [ScheduleSync (alias folder)]
      else []
  | _, _ => []
  end.

(** The folder of row [i] after [slotApplySelectiveSync] ran in [w]. *)
Definition applyFolder (w : World) (i : nat) (folder : Folder) : Folder :=
  match _folders w !! i with
  | Some root =>
      if _fetched root
      then setSelectiveSyncBlackList
             (createBlackList (Some root) (selectiveSyncBlackList folder)) folder
      else folder
  | None => folder
  end.

(** ** The model as a state machine *)

(** The model right after construction, for the configured folders. *)
Definition newModel (fm : list Folder) : World :=
  {| _folders := []; _dirty := false; folderMap := fm; jobs := []; effects := [] |}.

(** The calls that reach the model: from the view, from a finished
    listing job, and from the dialog. *)
Inductive Operation : Type :=
| OpRowCount (parent : QModelIndex)
| OpCanFetchMore (parent : QModelIndex)
| OpFetchMore (parent : QModelIndex)
| OpSetData (fuel : nat) (idx : QModelIndex) (checked : CheckState)
| OpJobFinished (k : nat) (r : Reply)
| OpSetAccount
| OpResetFolders
| OpApplySelectiveSync.

Definition run (op : Operation) (w : World) : result World :=
  match op with
  | OpRowCount parent => '(_, w) ← rowCount parent w; Ok w
  | OpCanFetchMore parent => '(_, w) ← canFetchMore parent w; Ok w
  | OpFetchMore parent => fetchMore parent w
  | OpSetData fuel idx checked => setData fuel idx checked w
  | OpJobFinished k r => jobFinished k r w
  | OpSetAccount => Ok (setAccount w)
  | OpResetFolders => Ok (resetFolders w)
  | OpApplySelectiveSync => slotApplySelectiveSync w
  end.

Definition run_all (ops : list Operation) (w : World) : result World :=
  for_each ops run w.

(** ** Indexes that outlive a call

    A job keeps the index [fetchMore] was called with until its reply
    arrives.  The internal pointer of the index of a row right below a
    root folder is [&_folders[k]] (see [index]).  When [infoForIndex]
    meets a top-level row beyond the end of [_folders] it calls
    [_folders.resize], which may move the elements of the vector: a
    pointer to an element that was taken before may not be used any
    more, it dangles.  The pointer of a deeper index points into a
    [_subs] vector, whose storage none of the calls moves while an
    index into it exists, and the index of a root row has no pointer.
    [slotUpdateDirectories] dereferences the pointer of the job's
    index, so a listing that arrives for a job with a dangling pointer
    has no defined behaviour.

    [run] resolves an index by the address of its node and does not see
    this.  [run_tracked] runs the same operations and keeps, beside the
    world, one flag for every outstanding job, in the order of [jobs]:
    the flag tells that the pointer of the job's index dangles.  The
    indexes an operation is called with are those the view has just
    obtained from [index]; only the index kept by a job outlives a
    call. *)

(** The index of the job holds a pointer to an element of [_folders]. *)
Definition pointsIntoFolders (job : LsColJob) : bool :=
  match job_parentIndex job with
  | Index _ (Some [_]) => true
  | _ => false
  end.

(** [_folders.resize] ran between [w] and [w']: the vector has grown. *)
Definition resized (w w' : World) : bool :=
  bool_decide (length (_folders w) < length (_folders w')).

(** The flags of the jobs of [w] after a call that led to [w']. *)
Definition markDangling (w w' : World) (dangling : list bool) : list bool :=
  if resized w w'
  then zip_with (fun job d => d || pointsIntoFolders job) (jobs w) dangling
  else dangling.

(** The reply [r] to the job at position [k] makes a slot dereference
    the pointer of the job's index: the reply is a listing, the job is
    connected to [slotUpdateDirectories], and the index is still valid
    and has a pointer. *)
Definition dereferencesPointer (k : nat) (r : Reply) (w : World) : bool :=
  match jobs w !! k, r with
  | Some job, Listing _ _ =>
      match job_parentIndex job with
      | Index _ (Some _) =>
          bool_decide
            (filter (fun c => c.1 = signalOf r) (job_connections job) <> [])
      | _ => false
      end
  | _, _ => false
  end.

(** One operation on the world and the flags.  A job started by the
    operation is appended to [jobs] with an intact pointer; a finished
    job leaves [jobs] together with its flag. *)
Definition run_tracked (op : Operation) (s : World * list bool)
  : result (World * list bool) :=
  let '(w, dangling) := s in
  match op with
  | OpJobFinished k r =>
      if default false (dangling !! k) && dereferencesPointer k r w then Undefined
      else
        w' ← run op w;
        Ok (w', resize (length (jobs w')) false (delete k (markDangling w w' dangling)))
  | _ =>
      w' ← run op w;
      Ok (w', resize (length (jobs w')) false (markDangling w w' dangling))
  end.

Definition run_tracked_all (ops : list Operation) (s : World * list bool)
  : result (World * list bool) :=
  for_each ops run_tracked s.

(** The job at position [k] is outstanding and its pointer is intact. *)
Definition intactJob (s : World * list bool) (k : nat) (job : LsColJob) : Prop :=
  jobs s.1 !! k = Some job /\ s.2 !! k = Some false.

(** The address of the node a job lists, while its index is valid. *)
Definition jobAddress (job : LsColJob) : option (list nat) :=
  match job_parentIndex job with
  | InvalidIndex => None
  | Index _ _ as idx => Some (addressOf idx)
  end.

(** A node that was not listed has no children. *)
Definition unfetched_empty (fs : list SubFolderInfo) : Prop :=
  forall p n, node_at fs p = Some n -> _fetched n = false -> _subs n = [].

(** A job is connected to [slotUpdateDirectories] only; while its index
    is valid, the index is materialized and the node is being fetched. *)
Definition job_ok (w : World) (job : LsColJob) : Prop :=
  job_connections job = [(directoryListingSubfolders, slotUpdateDirectoriesSlot)] /\
  forall p, jobAddress job = Some p ->
    materialized (job_parentIndex job) w /\
    exists n, node_at (_folders w) p = Some n /\ _fetched n = false /\ _fetching n = true.

(** The listing slot as one assignment to the parent: the node is
    fetched and gets the children [kids]. *)
Definition listed (kids : list SubFolderInfo) (m : SubFolderInfo) : SubFolderInfo :=
  set_subs (_subs m ++ kids) (set_fetched_fetching true false m).

(** What every reachable state of the model satisfies. *)
Definition model_invariant (w : World) : Prop :=
  tree_invariant w /\ unfetched_empty (_folders w) /\
  Forall (job_ok w) (jobs w) /\ NoDup (omap jobAddress (jobs w)).

(** ** Sample data *)

Definition sampleLeaf (name path : string) (pathIdx : list nat) (c : CheckState)
  : SubFolderInfo :=
  {| _name := name; _path := path; _pathIdx := pathIdx; _size := 0%Z; _subs := [];
     _fetched := false; _fetching := false; _checked := c; _folder := Some 0 |}.

Definition sampleDocsFetched : SubFolderInfo :=
  set_fetched_fetching true false
    (set_subs [sampleLeaf "old" "docs/old" [0; 0; 0] Unchecked;
               sampleLeaf "new" "docs/new" [0; 0; 1] Checked]
       (sampleLeaf "docs" "docs/" [0; 0] PartiallyChecked)).

Definition sampleDavUrl : QUrl :=
  {| scheme := "https"; host := "example.org"; port := 443%Z; path := "/cloud/";
     queryItems := [] |}.

Definition sampleFolder : Folder :=
  {| alias := "home"; remotePath := "/"; remoteUrlPath := "/dav";
     selectiveSyncBlackList := ["photos/2020"]; isBusy := true |}.

Definition sampleNode (name path : string) (pathIdx : list nat)
  (subs : list SubFolderInfo) (fetched : bool) (c : CheckState) : SubFolderInfo :=
  {| _name := name; _path := path; _pathIdx := pathIdx; _size := 0%Z; _subs := subs;
     _fetched := fetched; _fetching := false; _checked := c; _folder := Some 0 |}.

(** A root that is partially checked, with a checked child [a] that
    holds an unchecked grandchild [g], and an unchecked child [b]. *)
Definition sampleMixedRoot : SubFolderInfo :=
  sampleNode "home" "/" [0]
    [sampleNode "a" "a" [0; 0]
       [sampleNode "g" "a/g" [0; 0; 0] [] false Unchecked] true Checked;
     sampleNode "b" "b" [0; 1] [] false Unchecked]
    true PartiallyChecked.

Definition sampleMixedWorld : World :=
  {| _folders := [sampleMixedRoot];
     _dirty := false; folderMap := [sampleFolder]; jobs := []; effects := [] |}.

(** A chain root, child, grandchild, all checked. *)
Definition sampleDeepLeaf : SubFolderInfo :=
  sampleNode "g" "a/g" [0; 0; 0] [] false Checked.

Definition sampleDeepChild : SubFolderInfo :=
  sampleNode "a" "a" [0; 0] [sampleDeepLeaf] true Checked.

Definition sampleDeepRoot : SubFolderInfo :=
  sampleNode "home" "/" [0] [sampleDeepChild] true Checked.

Definition sampleDeepWorld : World :=
  {| _folders := [sampleDeepRoot];
     _dirty := false; folderMap := [sampleFolder]; jobs := []; effects := [] |}.

(** The model right after start, with one configured folder. *)
Definition sampleStart : World :=
  {| _folders := []; _dirty := false; folderMap := [sampleFolder]; jobs := [];
     effects := [] |}.

(** The root folder is expanded: the listing of the root is requested. *)
Definition sampleFetching : result World := fetchMore (Index 0 None) sampleStart.

(** The listing of the root has arrived: the root is checked, its child
    [photos/2020] is on the black list and unchecked, its child [docs]
    is checked. *)
Definition sampleListed : result World :=
  w ← sampleFetching;
  jobFinished 0 (Listing ["/dav/"; "/dav/photos/2020"; "/dav/docs"] ∅) w.

(** Two configured folders. *)
Definition sampleTwoFolders : World := newModel [sampleFolder; sampleFolder].

(** ** What the view reads: [columnCount], [flags], [hasChildren], [data] *)

Definition columnCount (parent : QModelIndex) : nat := 1.

(** The values of [Qt::ItemFlag]. *)
Definition ItemIsSelectable : Z := 1.
Definition ItemIsUserCheckable : Z := 16.
Definition ItemIsEnabled : Z := 32.

Definition flags (index : QModelIndex) (w : World) : Z :=
  match classify index w with
  | AddButton => ItemIsEnabled
  | RootFolder => Z.lor ItemIsSelectable ItemIsEnabled
  | SubFolder => Z.lor (Z.lor ItemIsSelectable ItemIsEnabled) ItemIsUserCheckable
  end.

Definition hasChildren (parent : QModelIndex) (w : World) : result (bool * World) :=
  match parent with
  | InvalidIndex => Ok (true, w)
  | Index _ _ =>
      '(info, w) ← infoForIndex parent w;
      match info with
      | None => Ok (false, w)
      | Some p =>
          n ← deref p w;
          if negb (_fetched n) then Ok (true, w)
          else if bool_decide (_subs n = []) then Ok (false, w)
          else Ok (true, w)
      end
  end.

(** The roles [data] is asked for: the roles of Qt and the roles of
    [FolderStatusDelegate]; [OtherRole] stands for every other value. *)
Inductive Role : Type :=
| EditRole
| ToolTipRole
| DisplayRole
| CheckStateRole
| DecorationRole
| AddButtonRole
| FolderPathRole
| FolderSecondPathRole
| FolderAliasRole
| FolderSyncPaused
| FolderAccountConnected
| FolderStatusIconRole
| AddProgressSpace
| SyncProgressItemString
| WarningCount
| SyncProgressOverallPercent
| SyncProgressOverallString
| OtherRole (n : nat).

Global Instance Role_eq_dec : EqDecision Role.
Proof. solve_decision. Defined.

(** [SyncResult::Status]: the values [data] tells apart; [OtherStatus]
    stands for every other value. *)
Inductive SyncStatus : Type :=
| StatusUndefined
| SyncPrepare
| SyncRunning
| Success
| Problem
| OtherStatus (n : nat).

(** Modelled from the spec: [QFileIconProvider] and [Theme] are fixed
    collaborators outside the sources.  An [Icon] names the call that
    [data] makes to get an icon, with its argument; which picture a
    call gives, and whether two different calls give different
    pictures, is left open. *)
Inductive Icon : Type :=
| FileIconFolder
| FolderDisabledIcon
| SyncStateIcon (status : SyncStatus)
| FolderOfflineIcon.

(** What [data] reads from a [Folder] besides the parts in the record
    [Folder]: [nativePath()], [syncPaused()] and
    [syncResult().status()]. *)
Record FolderView : Type :=
  mkFolderView {
      nativePath : string;
      syncPaused : bool;
      syncResultStatus : SyncStatus
    }.

(** An entry of [_progresses]. *)
Record ProgressInfo : Type :=
  mkProgressInfo {
      isNull : bool;
      _progressString : string;
      _warningCount : Z;
      _overallPercent : Z;
      _overallSyncString : string
    }.

(** The [QVariant]s that [data] returns; [VStatusHeaderText] is the
    text [Theme::statusHeaderText] gives for a status. *)
Inductive QVariant : Type :=
| VInvalid
| VBool (b : bool)
| VInt (z : Z)
| VString (s : string)
| VCheckState (c : CheckState)
| VIcon (i : Icon)
| VStatusHeaderText (status : SyncStatus).

(** [views] holds, row by row, the rest of the folders of [folderMap];
    [progresses k] is [_progresses.value(k)]. *)
Definition data (views : list FolderView) (progresses : nat -> ProgressInfo)
  (index : QModelIndex) (role : Role) (w : World) : result QVariant :=
  match index with
  | InvalidIndex => Ok VInvalid
  | Index row ptr =>
      if bool_decide (role = EditRole) then Ok VInvalid
      else
        match classify index w, ptr with
        | AddButton, _ =>
            if bool_decide (role = AddButtonRole) then Ok (VBool true) else Ok VInvalid
        | SubFolder, Some p =>
            pinfo ← deref p w;
            x ← at_ (_subs pinfo) row;
            match role with
            | ToolTipRole | DisplayRole => Ok (VString (_name x))
            | CheckStateRole => Ok (VCheckState (_checked x))
            | DecorationRole => Ok (VIcon FileIconFolder)
            | _ => Ok VInvalid
            end
        | SubFolder, None => Undefined
        | RootFolder, _ =>
            f ← at_ (folderMap w) row;
            v ← at_ views row;
            let accountConnected := true in
            match role with
            | FolderPathRole => Ok (VString (nativePath v))
            | FolderSecondPathRole => Ok (VString (remotePath f))
            | FolderAliasRole => Ok (VString (alias f))
            | FolderSyncPaused => Ok (VBool (syncPaused v))
            | FolderAccountConnected => Ok (VBool accountConnected)
            | ToolTipRole => Ok (VStatusHeaderText (syncResultStatus v))
            | FolderStatusIconRole =>
                if accountConnected then
                  let status := syncResultStatus v in
                  if syncPaused v then Ok (VIcon FolderDisabledIcon)
                  else
                    match status with
                    | SyncPrepare => Ok (VIcon (SyncStateIcon SyncRunning))
                    | StatusUndefined => Ok (VIcon (SyncStateIcon SyncRunning))
                    | Problem => Ok (VIcon (SyncStateIcon Success))
                    | _ => Ok (VIcon (SyncStateIcon status))
                    end
                else Ok (VIcon FolderOfflineIcon)
            | AddProgressSpace => Ok (VBool (negb (isNull (progresses row))))
            | SyncProgressItemString => Ok (VString (_progressString (progresses row)))
            | WarningCount => Ok (VInt (_warningCount (progresses row)))
            | SyncProgressOverallPercent => Ok (VInt (_overallPercent (progresses row)))
            | SyncProgressOverallString =>
                Ok (VString (_overallSyncString (progresses row)))
            | _ => Ok VInvalid
            end
        end
  end.

(** ** The rest of [Account] *)

Global Instance QUrl_eq_dec : EqDecision QUrl.
Proof. solve_decision. Defined.

(** The static helper of [Account::changed]; in spite of its name it
    answers [true] when host, port or path differ. *)
Definition isEqualExceptProtocol (url1 url2 : QUrl) : bool :=
  bool_decide (host url1 ≠ host url2)
  || bool_decide (port url1 ≠ port url2)
  || bool_decide (path url1 ≠ path url2).

(** What the account reads from its [AbstractCredentials]. *)
Record Credentials : Type :=
  mkCredentials {
      user : string;
      authType : string;
      ready : bool
    }.

Section Account.
(** The values kept in [_settingsMap] with their [toString()], the
    certificates, and what the error handler is given. *)
Context {Variant Certificate SslError SslConfiguration : Type}.
Variable toString : Variant -> string.
(** [AbstractCredentials::changed] is virtual; its answer for the
    credentials of the other account. *)
Variable credentialsChanged : Credentials -> option Credentials -> bool.
(** The default value of the third parameter of [concatUrlPath], which
    is declared in the header. *)
Variable defaultQueryItems : list (string * string).

(** The members of [Account] that the functions below read or write. *)
Record Account : Type :=
  mkAccount {
      _url : QUrl;
      _davPath : string;
      _credentials : option Credentials;
      _settingsMap : gmap string Variant;
      _treatSslErrorsAsFailure : bool;
      _approvedCerts : list Certificate
    }.

(** The constructor; [overrideServerUrl] is
    [Theme::instance()->overrideServerUrl()]. *)
Definition newAccount (overrideServerUrl : QUrl) : Account :=
  {| _url := overrideServerUrl; _davPath := "remote.php/webdav/";
     _credentials := None; _settingsMap := ∅; _treatSslErrorsAsFailure := false;
     _approvedCerts := [] |}.

Definition setUrl (url : QUrl) (a : Account) : Account :=
  {| _url := url; _davPath := _davPath a; _credentials := _credentials a;
     _settingsMap := _settingsMap a;
     _treatSslErrorsAsFailure := _treatSslErrorsAsFailure a;
     _approvedCerts := _approvedCerts a |}.

(** [changed(other, ignoreUrlProtocol)]; [other] is a shared pointer,
    [_credentials] a plain pointer that is dereferenced. *)
Definition changed (this : Account) (other : option Account) (ignoreUrlProtocol : bool)
  : result bool :=
  match other with
  | None => Ok false
  | Some o =>
      let changes :=
        if ignoreUrlProtocol then isEqualExceptProtocol (_url this) (_url o)
        else bool_decide (_url this = _url o) in
      match _credentials this with
      | None => Undefined
      | Some c => Ok (changes || credentialsChanged c (_credentials o))
      end
  end.

Definition davUrl (a : Account) : QUrl :=
  concatUrlPath (_url a) (_davPath a) defaultQueryItems.

(** The URL that [headRequest(relPath)] and [getRequest(relPath)] hand
    to the overload that takes a URL. *)
Definition requestUrl (a : Account) (relPath : string) : QUrl :=
  concatUrlPath (_url a) relPath defaultQueryItems.

(** The URL that [davRequest(verb, relPath, req, data)] hands to the
    overload that takes a URL. *)
Definition davRequestUrl (a : Account) (relPath : string) : QUrl :=
  concatUrlPath (davUrl a) relPath defaultQueryItems.

(** [credentialSetting(key)]: [None] is the invalid [QVariant], [Some s]
    the variant of the string [s].  [QMap::value] gives a null variant
    for a missing key, and the string of a null variant is empty. *)
Definition credentialSetting (a : Account) (key : string) : option string :=
  match _credentials a with
  | Some c =>
      let prefix := authType c in
      let value := default "" (toString <$> _settingsMap a !! (prefix +:+ "_" +:+ key)) in
      let value :=
        if QString.isEmpty value
        then default "" (toString <$> _settingsMap a !! key)
        else value in
      Some value
  | None => None
  end.

Definition setCredentialSetting (key : string) (value : Variant) (a : Account) : Account :=
  match _credentials a with
  | Some c =>
      let prefix := authType c in
      {| _url := _url a; _davPath := _davPath a; _credentials := _credentials a;
         _settingsMap := <[prefix +:+ "_" +:+ key := value]> (_settingsMap a);
         _treatSslErrorsAsFailure := _treatSslErrorsAsFailure a;
         _approvedCerts := _approvedCerts a |}
  | None => a
  end.

Definition setApprovedCerts (certs : list Certificate) (a : Account) : Account :=
  {| _url := _url a; _davPath := _davPath a; _credentials := _credentials a;
     _settingsMap := _settingsMap a;
     _treatSslErrorsAsFailure := _treatSslErrorsAsFailure a;
     _approvedCerts := certs |}.

Definition addApprovedCerts (certs : list Certificate) (a : Account) : Account :=
  setApprovedCerts (_approvedCerts a ++ certs) a.

Definition setTreatSslErrorsAsFailure (b : bool) (a : Account) : Account :=
  {| _url := _url a; _davPath := _davPath a; _credentials := _credentials a;
     _settingsMap := _settingsMap a; _treatSslErrorsAsFailure := b;
     _approvedCerts := _approvedCerts a |}.

(** What [slotHandleErrors] does outside the account. *)
Inductive SslAction : Type :=
| AddDefaultCaCertificates (certs : list Certificate)
| IgnoreSslErrors.

(** [_sslErrorHandler], null or an [AbstractSslErrorHandler]:
    [handleErrors] is given the errors, the configuration of the reply
    and the account, and answers with a flag and the certificates it
    approves. *)
Definition SslErrorHandler : Type :=
  list SslError -> SslConfiguration -> Account -> bool * list Certificate.

(** [slotHandleErrors(reply, errors)] with the handler installed in the
    account; the debug output is left out. *)
Definition slotHandleErrors (handler : option SslErrorHandler) (errors : list SslError)
  (conf : SslConfiguration) (a : Account) : Account * list SslAction :=
  if _treatSslErrorsAsFailure a then (a, [])
  else
    match handler with
    | None => (a, [])
    | Some handleErrors =>
        let '(ok, approvedCerts) := handleErrors errors conf a in
        if ok
        then (addApprovedCerts approvedCerts a,
              [AddDefaultCaCertificates approvedCerts; IgnoreSslErrors])
        else (setTreatSslErrorsAsFailure true a, [])
    end.

(** A run of replies with SSL errors, each with the handler installed
    when it arrives. *)
Fixpoint handleAllErrors
  (replies : list (option SslErrorHandler * list SslError * SslConfiguration))
  (a : Account) : Account * list SslAction :=
  match replies with
  | [] => (a, [])
  | (handler, errors, conf) :: rest =>
      let '(a1, acts1) := slotHandleErrors handler errors conf a in
      let '(a2, acts2) := handleAllErrors rest a1 in
      (a2, acts1 ++ acts2)
  end.
End Account.

(** The path that [concatUrlPath] gives to a URL whose path is [base]. *)
Definition joinedPath (base rel : string) : string :=
  path (concatUrlPath {| scheme := ""; host := ""; port := 0%Z; path := base;
                         queryItems := [] |} rel []).

(** An account for [sampleDavUrl], with settings and certificates kept
    as strings. *)
Definition sampleCredentials : Credentials :=
  {| user := "me"; authType := "http"; ready := true |}.

Definition sampleAccount : @Account string string :=
  {| _url := sampleDavUrl; _davPath := "remote.php/webdav/";
     _credentials := Some sampleCredentials; _settingsMap := ∅;
     _treatSslErrorsAsFailure := false; _approvedCerts := [] |}.


(** * Properties *)

(** ** Strings *)

Lemma append_cons (x : ascii) (a b : string) : String x a +:+ b = String x (a +:+ b).
Proof. reflexivity. Qed.

Lemma append_assoc (a b c : string) : (a +:+ b) +:+ c = a +:+ b +:+ c.
Proof.
  induction a as [|x a IH]; [reflexivity|]. rewrite !append_cons. by f_equal.
Qed.

Lemma append_empty_r (a : string) : a +:+ "" = a.
Proof.
  induction a as [|x a IH]; [reflexivity|]. rewrite append_cons. by f_equal.
Qed.

Lemma startsWith_prefix (s pre : string) :
  QString.startsWith s pre = true <-> exists rest, s = pre +:+ rest.
Proof.
  revert s. induction pre as [|c pre IH]; intros s; simpl.
  - split; [intros _; exists s; reflexivity | done].
  - destruct s as [|d s].
    + split; [done | intros [rest Hrest]; rewrite append_cons in Hrest; discriminate].
    + destruct (Ascii.eqb_spec d c) as [->|Hne].
      * rewrite IH. split; intros [rest Hrest]; exists rest.
        -- rewrite append_cons. congruence.
        -- rewrite append_cons in Hrest. congruence.
      * split; [done | intros [rest Hrest]; rewrite append_cons in Hrest; congruence].
Qed.

Lemma startsWith_refl (s : string) : QString.startsWith s s = true.
Proof. apply startsWith_prefix. exists "". by rewrite append_empty_r. Qed.

Lemma endsWithChar_chop1 (s : string) (c : ascii) :
  QString.endsWithChar s c = true -> s = QString.chop1 s +:+ String c "".
Proof.
  induction s as [|d s IH]; simpl; [done|].
  destruct s as [|e s].
  - intros H. apply Ascii.eqb_eq in H. by subst.
  - intros H. rewrite append_cons. f_equal. exact (IH H).
Qed.

Lemma startsWithChar_cons (s : string) (c : ascii) :
  QString.startsWithChar s c = true -> exists s', s = String c s'.
Proof.
  destruct s as [|d s]; simpl; [done|].
  intros H. apply Ascii.eqb_eq in H. subst. by exists s.
Qed.

(** ** The black-list projection *)

Lemma createBlackList_fold_filter (path : string) (old acc : list string) :
  fold_left
    (fun result it => if QString.startsWith it path then result ++ [it] else result)
    old acc
  = acc ++ List.filter (fun it => QString.startsWith it path) old.
Proof.
  revert acc. induction old as [|it old IH]; intros acc; simpl.
  - by rewrite app_nil_r.
  - rewrite IH. destruct (QString.startsWith it path); simpl; [|done].
    by rewrite <- app_assoc.
Qed.

Lemma createBlackList_loop_concat (old : list string) (subs : list SubFolderInfo)
  (acc : list string) :
  (fix loop (rest : list SubFolderInfo) (result : list string) {struct rest} :=
     match rest with
     | [] => result
     | sub :: rest' => loop rest' (result ++ createBlackList_node sub old)
     end) subs acc
  = acc ++ List.concat (List.map (fun c => createBlackList (Some c) old) subs).
Proof.
  revert acc. induction subs as [|c subs IH]; intros acc; simpl.
  - by rewrite app_nil_r.
  - rewrite IH. by rewrite <- app_assoc.
Qed.

(** C1. The projection of a node: an unchecked node gives exactly its
    own path whatever its children are, a checked node gives nothing, a
    partially checked fetched node gives the projections of its children
    one after the other, and a partially checked node that was never
    fetched gives the entries of the previous black list that start with
    its path, unchanged and in their order. *)
Theorem createBlackList_cases (node : SubFolderInfo) (previousBlacklist : list string) :
  (_checked node = Unchecked ->
   createBlackList (Some node) previousBlacklist = [_path node]) /\
  (_checked node = Checked ->
   createBlackList (Some node) previousBlacklist = []) /\
  (_checked node = PartiallyChecked -> _fetched node = true ->
   createBlackList (Some node) previousBlacklist
   = List.concat
       (List.map (fun c => createBlackList (Some c) previousBlacklist) (_subs node))) /\
  (_checked node = PartiallyChecked -> _fetched node = false ->
   createBlackList (Some node) previousBlacklist
   = List.filter (fun it => QString.startsWith it (_path node)) previousBlacklist).
Proof.
  destruct node as [name path pathIdx size subs fetched fetching checked folder]; simpl.
  repeat split; intros -> ; try done; intros ->.
  - apply (createBlackList_loop_concat previousBlacklist subs []).
  - apply (createBlackList_fold_filter path previousBlacklist []).
Qed.

Lemma createBlackList_cases_witness :
  createBlackList (Some (sampleLeaf "docs" "docs/" [0; 0] Unchecked)) ["docs/old"]
  = ["docs/"] /\
  createBlackList (Some (sampleLeaf "docs" "docs/" [0; 0] Checked)) ["docs/old"] = [] /\
  createBlackList (Some sampleDocsFetched) ["x"] = ["docs/old"] /\
  createBlackList (Some (sampleLeaf "docs" "docs/" [0; 0] PartiallyChecked))
    ["docs/old"; "music"; "docs/old/archive"] = ["docs/old"; "docs/old/archive"].
Proof.
  split; [|split; [|split]].
  - exact (proj1 (createBlackList_cases
                    (sampleLeaf "docs" "docs/" [0; 0] Unchecked) ["docs/old"]) eq_refl).
  - exact (proj1 (proj2 (createBlackList_cases
                    (sampleLeaf "docs" "docs/" [0; 0] Checked) ["docs/old"])) eq_refl).
  - exact (proj1 (proj2 (proj2 (createBlackList_cases sampleDocsFetched ["x"])))
             eq_refl eq_refl).
  - exact (proj2 (proj2 (proj2 (createBlackList_cases
                    (sampleLeaf "docs" "docs/" [0; 0] PartiallyChecked)
                    ["docs/old"; "music"; "docs/old/archive"]))) eq_refl eq_refl).
Defined.

(** ** Joining a URL and a relative path *)

Lemma concatUrlPath_fields (url : QUrl) (concatPath : string)
  (items : list (string * string)) :
  scheme (concatUrlPath url concatPath items) = scheme url /\
  host (concatUrlPath url concatPath items) = host url /\
  port (concatUrlPath url concatPath items) = port url.
Proof.
  unfold concatUrlPath. cbv zeta.
  by destruct (decide (0 < length items)).
Qed.

Lemma junction_cases (base rel : string) :
  rel <> "" ->
  (if QString.endsWithChar base "/" && QString.startsWithChar rel "/"
   then QString.chop1 base
   else if negb (QString.endsWithChar base "/") && negb (QString.startsWithChar rel "/")
        then base +:+ "/"
        else base) +:+ rel
  = withoutTrailingSlash base +:+ "/" +:+ withoutLeadingSlash rel.
Proof.
  intros Hrel. unfold withoutTrailingSlash, withoutLeadingSlash.
  destruct rel as [|c rel]; [done|].
  destruct (QString.endsWithChar base "/") eqn:He;
    unfold QString.startsWithChar; destruct (Ascii.eqb_spec c "/") as [->|Hc]; simpl.
  - reflexivity.
  - rewrite (endsWithChar_chop1 _ _ He) at 1. by rewrite append_assoc.
  - reflexivity.
  - by rewrite append_assoc.
Qed.

Lemma endsWithChar_snoc (s : string) (d c : ascii) :
  QString.endsWithChar (s +:+ String d "") c = Ascii.eqb d c.
Proof.
  induction s as [|e s IH]; [reflexivity|].
  rewrite append_cons. simpl. rewrite IH.
  destruct s; reflexivity.
Qed.

Lemma chop1_snoc (s : string) (d : ascii) : QString.chop1 (s +:+ String d "") = s.
Proof.
  induction s as [|e s IH]; [reflexivity|].
  rewrite append_cons. simpl. rewrite IH.
  destruct s; reflexivity.
Qed.

(** The two parts of a junction with one ['/'] are the base path without
    one trailing ['/'] and the relative path without one leading
    ['/']. *)
Lemma joinedWithOneSlash_parts (base rel b r : string) :
  rel <> "" ->
  b = base \/ b +:+ "/" = base ->
  r = rel \/ "/" +:+ r = rel ->
  QString.endsWithChar b "/" = false ->
  QString.startsWithChar r "/" = false ->
  b = withoutTrailingSlash base /\ r = withoutLeadingSlash rel.
Proof.
  intros Hrel Hb Hr Hbe Hrs. split.
  - unfold withoutTrailingSlash. destruct Hb as [->|<-].
    + by rewrite Hbe.
    + by rewrite endsWithChar_snoc, chop1_snoc.
  - unfold withoutLeadingSlash. destruct Hr as [->|<-].
    + destruct rel as [|c rel]; [done|]. simpl in Hrs. by rewrite Hrs.
    + reflexivity.
Qed.

Lemma withoutTrailingSlash_cases (base : string) :
  withoutTrailingSlash base = base \/ withoutTrailingSlash base +:+ "/" = base.
Proof.
  unfold withoutTrailingSlash. destruct (QString.endsWithChar base "/") eqn:He.
  - right. symmetry. by apply endsWithChar_chop1.
  - by left.
Qed.

Lemma withoutLeadingSlash_cases (rel : string) :
  withoutLeadingSlash rel = rel \/ "/" +:+ withoutLeadingSlash rel = rel.
Proof.
  destruct rel as [|c rel]; [by left|]. simpl.
  destruct (Ascii.eqb_spec c "/") as [->|Hc]; [by right|by left].
Qed.

(** C10, as stated, fails: the base path ["/a/"] and the relative path
    ["//b"] are joined to ["/a//b"], with two ['/'] at the junction;
    one ['/'] is chopped and the second one stays. *)
Lemma concatUrlPath_one_slash_counterexample :
  ~ (forall (url : QUrl) (concatPath : string) (items : list (string * string)),
        concatPath <> "" ->
        joinedWithOneSlash (path url) concatPath
          (path (concatUrlPath url concatPath items))).
Proof.
  intros H.
  destruct (H (mkQUrl "https" "example.org" 443%Z "/a/" []) "//b" []
              ltac:(discriminate))
    as (b & r & _ & _ & Hr & _ & Hrs).
  destruct Hr as [->|Hr]; [discriminate Hrs|].
  change ("/" +:+ r) with (String "/" r) in Hr. injection Hr as ->.
  discriminate Hrs.
Qed.

(** C10, amended. [concatUrlPath] keeps scheme, host and port.  For a
    non-empty relative path the new path is the base path without one
    trailing ['/'], one ['/'], and the relative path without one
    leading ['/']: a doubled ['/'] is avoided by chopping one, a missing
    ['/'] is inserted.  This is a junction with exactly one ['/'] if and
    only if the base path does not end with two ['/'] and the relative
    path does not start with two ['/'].  For an empty relative path the
    path is the base path. *)
Theorem concatUrlPath_junction (url : QUrl) (concatPath : string)
  (items : list (string * string)) :
  scheme (concatUrlPath url concatPath items) = scheme url /\
  host (concatUrlPath url concatPath items) = host url /\
  port (concatUrlPath url concatPath items) = port url /\
  (concatPath <> "" ->
   path (concatUrlPath url concatPath items)
   = withoutTrailingSlash (path url) +:+ "/" +:+ withoutLeadingSlash concatPath /\
   (joinedWithOneSlash (path url) concatPath
      (path (concatUrlPath url concatPath items))
    <-> QString.endsWithChar (withoutTrailingSlash (path url)) "/" = false /\
        QString.startsWithChar (withoutLeadingSlash concatPath) "/" = false)) /\
  (concatPath = "" -> path (concatUrlPath url concatPath items) = path url).
Proof.
  destruct (concatUrlPath_fields url concatPath items) as (Hs & Hh & Hp).
  split; [done|]. split; [done|]. split; [done|]. split.
  - intros Hne.
    assert (Hpath : path (concatUrlPath url concatPath items)
                    = withoutTrailingSlash (path url) +:+ "/"
                      +:+ withoutLeadingSlash concatPath).
    { unfold concatUrlPath. cbv zeta.
      assert (QString.isEmpty concatPath = false) as -> by by destruct concatPath.
      simpl negb. cbv iota.
      rewrite <- (junction_cases (path url) concatPath Hne).
      by destruct (decide (0 < length items)). }
    split; [exact Hpath|]. split.
    + intros (b & r & _ & Hb & Hr & Hbe & Hrs).
      destruct (joinedWithOneSlash_parts _ _ _ _ Hne Hb Hr Hbe Hrs) as [<- <-].
      by split.
    + intros [Hbe Hrs].
      exists (withoutTrailingSlash (path url)), (withoutLeadingSlash concatPath).
      split; [exact Hpath|].
      split; [apply withoutTrailingSlash_cases|].
      split; [apply withoutLeadingSlash_cases|]. by split.
  - intros ->. unfold concatUrlPath. cbv zeta. simpl.
    by destruct (decide (0 < length items)).
Qed.

Lemma concatUrlPath_junction_witness :
  (path (concatUrlPath sampleDavUrl "/remote.php/webdav/" [])
   = "/cloud/remote.php/webdav/" /\
   joinedWithOneSlash (path sampleDavUrl) "/remote.php/webdav/"
     (path (concatUrlPath sampleDavUrl "/remote.php/webdav/" []))) /\
  path (concatUrlPath sampleDavUrl "" []) = "/cloud/".
Proof.
  split.
  - destruct (proj1 (proj2 (proj2 (proj2
      (concatUrlPath_junction sampleDavUrl "/remote.php/webdav/" []))))
      ltac:(discriminate)) as [Hpath Hone].
    split; [exact Hpath|]. apply Hone. split; reflexivity.
  - exact (proj2 (proj2 (proj2 (proj2
      (concatUrlPath_junction sampleDavUrl "" [])))) eq_refl).
Defined.


(** ** Addresses: reading and writing through pointers *)

Lemma set_subs_id (n : SubFolderInfo) : set_subs (_subs n) n = n.
Proof. by destruct n. Qed.

Lemma subs_set_subs (l : list SubFolderInfo) (n : SubFolderInfo) :
  _subs (set_subs l n) = l.
Proof. reflexivity. Qed.

Lemma set_subs_set_subs (l l' : list SubFolderInfo) (n : SubFolderInfo) :
  set_subs l (set_subs l' n) = set_subs l n.
Proof. reflexivity. Qed.

Lemma node_at_single (fs : list SubFolderInfo) (i : nat) : node_at fs [i] = fs !! i.
Proof. simpl. by destruct (fs !! i). Qed.

Lemma node_at_cons_cons (fs : list SubFolderInfo) (i j : nat) (q : list nat) :
  node_at fs (i :: j :: q) = fs !! i ≫= fun n => node_at (_subs n) (j :: q).
Proof. reflexivity. Qed.

Lemma node_at_nil (fs : list SubFolderInfo) : node_at fs [] = None.
Proof. reflexivity. Qed.

Lemma node_at_app (fs : list SubFolderInfo) (p q : list nat) :
  p <> [] -> q <> [] ->
  node_at fs (p ++ q) = node_at fs p ≫= fun n => node_at (_subs n) q.
Proof.
  revert fs. induction p as [|i p IH]; intros fs Hp Hq; [done|].
  destruct p as [|j p].
  - destruct q as [|k q]; [done|]. simpl app. rewrite node_at_cons_cons, node_at_single.
    done.
  - change ((i :: j :: p) ++ q) with (i :: (j :: p) ++ q).
    change ((j :: p) ++ q) with (j :: (p ++ q)).
    rewrite !node_at_cons_cons. destruct (fs !! i) as [n|]; [|done]. simpl.
    change (j :: (p ++ q)) with ((j :: p) ++ q). by apply IH.
Qed.

Lemma node_at_snoc (fs : list SubFolderInfo) (p : list nat) (i : nat) :
  p <> [] -> node_at fs (p ++ [i]) = node_at fs p ≫= fun n => _subs n !! i.
Proof.
  intros Hp. rewrite node_at_app by done.
  destruct (node_at fs p) as [n|]; [|done]. simpl. apply node_at_single.
Qed.

Lemma node_at_prefix_is_Some (fs : list SubFolderInfo) (p q : list nat) :
  p <> [] -> is_Some (node_at fs (p ++ q)) -> is_Some (node_at fs p).
Proof.
  intros Hp. destruct q as [|k q]; [by rewrite app_nil_r|].
  rewrite node_at_app by done. destruct (node_at fs p); [by eauto|].
  by intros [? ?].
Qed.

Lemma modify_at_single (f : SubFolderInfo -> SubFolderInfo) (fs : list SubFolderInfo)
  (i : nat) : modify_at f fs [i] = alter f i fs.
Proof. reflexivity. Qed.

Lemma modify_at_cons_cons (f : SubFolderInfo -> SubFolderInfo) (fs : list SubFolderInfo)
  (i j : nat) (q : list nat) :
  modify_at f fs (i :: j :: q)
  = alter (fun n => set_subs (modify_at f (_subs n) (j :: q)) n) i fs.
Proof. reflexivity. Qed.

Lemma modify_at_app (f : SubFolderInfo -> SubFolderInfo) (fs : list SubFolderInfo)
  (p q : list nat) :
  p <> [] -> q <> [] ->
  modify_at f fs (p ++ q)
  = modify_at (fun n => set_subs (modify_at f (_subs n) q) n) fs p.
Proof.
  revert fs. induction p as [|i p IH]; intros fs Hp Hq; [done|].
  destruct p as [|j p].
  - destruct q as [|k q]; [done|]. reflexivity.
  - change ((i :: j :: p) ++ q) with (i :: j :: (p ++ q)).
    rewrite !modify_at_cons_cons. apply list_alter_ext; [|done].
    intros n _. f_equal. change (j :: (p ++ q)) with ((j :: p) ++ q). by apply IH.
Qed.

Lemma length_modify_at (f : SubFolderInfo -> SubFolderInfo) (fs : list SubFolderInfo)
  (p : list nat) : length (modify_at f fs p) = length fs.
Proof.
  destruct p as [|i [|j q]]; [done| |]; simpl; by rewrite length_alter.
Qed.

Lemma node_at_modify_at_same (f : SubFolderInfo -> SubFolderInfo)
  (fs : list SubFolderInfo) (p : list nat) :
  node_at (modify_at f fs p) p = f <$> node_at fs p.
Proof.
  revert fs. induction p as [|i p IH]; intros fs; [done|].
  destruct p as [|j p].
  - rewrite modify_at_single, !node_at_single. by rewrite list_lookup_alter_eq.
  - rewrite modify_at_cons_cons, !node_at_cons_cons, list_lookup_alter_eq.
    destruct (fs !! i) as [n|]; [|done].
    change (node_at (modify_at f (_subs n) (j :: p)) (j :: p)
            = f <$> node_at (_subs n) (j :: p)).
    apply IH.
Qed.

Lemma modify_at_ext (f g : SubFolderInfo -> SubFolderInfo) (fs : list SubFolderInfo)
  (p : list nat) :
  (forall n, node_at fs p = Some n -> f n = g n) ->
  modify_at f fs p = modify_at g fs p.
Proof.
  revert fs. induction p as [|i p IH]; intros fs H; [done|].
  destruct p as [|j p].
  - rewrite !modify_at_single. apply list_alter_ext; [|done].
    intros n Hn. apply H. by rewrite node_at_single.
  - rewrite !modify_at_cons_cons. apply list_alter_ext; [|done].
    intros n Hn. f_equal. apply IH. intros m Hm. apply H.
    rewrite node_at_cons_cons, Hn. exact Hm.
Qed.


Lemma modify_at_id (fs : list SubFolderInfo) (p : list nat) : modify_at id fs p = fs.
Proof.
  revert fs. induction p as [|i p IH]; intros fs; [done|].
  destruct p as [|j p].
  - rewrite modify_at_single. apply list_alter_id. done.
  - rewrite modify_at_cons_cons. apply list_alter_id. intros n.
    rewrite IH. apply set_subs_id.
Qed.

Lemma modify_at_compose (f g : SubFolderInfo -> SubFolderInfo) (fs : list SubFolderInfo)
  (p : list nat) :
  modify_at g (modify_at f fs p) p = modify_at (g ∘ f) fs p.
Proof.
  revert fs. induction p as [|i p IH]; intros fs; [done|].
  destruct p as [|j p].
  - rewrite !modify_at_single. by rewrite list_alter_alter_eq.
  - rewrite !modify_at_cons_cons, list_alter_alter_eq.
    apply list_alter_ext; [|done]. intros n _. unfold compose at 1.
    rewrite subs_set_subs, set_subs_set_subs. f_equal. apply IH.
Qed.

Lemma modify_at_None (f : SubFolderInfo -> SubFolderInfo) (fs : list SubFolderInfo)
  (p : list nat) : node_at fs p = None -> modify_at f fs p = fs.
Proof.
  intros H. rewrite <- (modify_at_id fs p) at 2. apply modify_at_ext.
  intros n Hn. congruence.
Qed.

(** ** Results *)

Lemma bind_Ok {A B : Type} (r : result A) (k : A -> result B) (b : B) :
  r ≫= k = Ok b -> exists a, r = Ok a /\ k a = Ok b.
Proof. destruct r as [a| |]; [|done..]. intros H. by exists a. Qed.

Lemma bind_Ok_l {A B : Type} (r : result A) (k : A -> result B) (a : A) :
  r = Ok a -> r ≫= k = k a.
Proof. by intros ->. Qed.

Lemma at_Ok {A : Type} (l : list A) (i : nat) (a : A) : at_ l i = Ok a <-> l !! i = Some a.
Proof. unfold at_. destruct (l !! i); split; congruence. Qed.

Lemma deref_Ok (p : list nat) (w : World) (n : SubFolderInfo) :
  deref p w = Ok n <-> node_at (_folders w) p = Some n.
Proof. unfold deref. destruct (node_at _ _); split; congruence. Qed.

Ltac inv_bind H :=
  repeat
    match type of H with
    | _ ≫= _ = Ok _ =>
        let x := fresh "x" in
        let Hx := fresh "Hx" in
        apply bind_Ok in H as (x & Hx & H)
    | (let '(_, _) := ?x in _) = Ok _ => destruct x
    | Ok _ = Ok _ => injection H as H
    end.

Ltac ok_subst H :=
  first [ injection H as H; subst
        | subst ].

Lemma for_each_preserves {A S : Type} (Q : S -> Prop) (body : A -> S -> result S)
  (l : list A) :
  (forall a s s', a ∈ l -> Q s -> body a s = Ok s' -> Q s') ->
  forall s s', Q s -> for_each l body s = Ok s' -> Q s'.
Proof.
  induction l as [|a l IH]; intros Hbody s s' Hs H; simpl in H.
  - by injection H as <-.
  - inv_bind H. eapply IH; [| |exact H].
    + intros b t t' Hb. apply Hbody. by right.
    + eapply Hbody; [by left| |]; eauto.
Qed.

Lemma for_each_app {A S : Type} (body : A -> S -> result S) (l1 l2 : list A) (s : S) :
  for_each (l1 ++ l2) body s = for_each l1 body s ≫= for_each l2 body.
Proof.
  revert s. induction l1 as [|a l1 IH]; intros s; simpl; [done|].
  destruct (body a s) as [s1| |]; simpl; [apply IH|done..].
Qed.

(** ** [setData]: what every call preserves *)

Lemma setData_unfold (fuel : nat) (idx : QModelIndex) (v : CheckState) (w : World) :
  setData (S fuel) idx v w = setData_body (setData fuel) idx v w.
Proof. reflexivity. Qed.

Section setData_preserves.
Variable Q : World -> Prop.
Hypothesis Q_store : forall w p c n,
    Q w -> deref p w = Ok n -> Q (store p (set_checked c) w).
Hypothesis Q_info : forall idx w r w',
    Q w -> infoForIndex idx w = Ok (r, w') -> Q w'.
Hypothesis Q_emit : forall w es, Q w -> Q (emit es (with_dirty true w)).

Section body.
Variable rec : QModelIndex -> CheckState -> World -> result World.
Hypothesis Q_rec : forall idx v w w', Q w -> rec idx v w = Ok w' -> Q w'.

Lemma parentOfChecked_preserves idx w w' :
  Q w -> parentOfChecked rec idx w = Ok w' -> Q w'.
Proof.
  intros HQ H. unfold parentOfChecked in H. inv_bind H.
  destruct o as [pp|]; [|ok_subst H; eauto].
  inv_bind H. repeat case_decide; try destruct (negb _); ok_subst H; eauto.
Qed.

Lemma parentOfUnchecked_preserves idx w w' :
  Q w -> parentOfUnchecked rec idx w = Ok w' -> Q w'.
Proof.
  intros HQ H. unfold parentOfUnchecked in H. inv_bind H.
  destruct o as [pp|]; [|ok_subst H; eauto].
  inv_bind H. repeat case_decide; ok_subst H; eauto.
Qed.

Lemma parentOfPartial_preserves idx w w' :
  Q w -> parentOfPartial rec idx w = Ok w' -> Q w'.
Proof.
  intros HQ H. unfold parentOfPartial in H. inv_bind H.
  destruct o as [pp|]; [|ok_subst H; eauto].
  inv_bind H. repeat case_decide; ok_subst H; eauto.
Qed.

Lemma children_preserves idx p v w w' :
  Q w -> children rec idx p v w = Ok w' -> Q w'.
Proof.
  intros HQ H. unfold children in H. inv_bind H.
  eapply for_each_preserves; [|exact HQ|exact H].
  intros i s s' _ Hs Hi. unfold childRound in Hi. inv_bind Hi.
  case_decide; [|ok_subst Hi; done]. inv_bind Hi. eauto.
Qed.

Lemma setData_body_preserves idx v w w' :
  Q w -> setData_body rec idx v w = Ok w' -> Q w'.
Proof.
  intros HQ H. unfold setData_body in H.
  apply bind_Ok in H as ([info w0] & Hinfo & H).
  apply bind_Ok in H as (w1 & H1 & H).
  injection H as <-. apply Q_emit.
  assert (HQ0 : Q w0) by eauto.
  destruct info as [p|]; [|by injection H1 as <-].
  apply bind_Ok in H1 as (n & Hn & H1).
  destruct (decide (_checked n ≠ v)); [|by injection H1 as <-].
  cbv zeta in H1.
  apply bind_Ok in H1 as (w2 & H2 & H1).
  apply bind_Ok in H1 as (w3 & H3 & H1).
  assert (HQs : Q (store p (set_checked v) w0)) by eauto.
  assert (HQ2 : Q w2).
  { destruct (decide (v = Checked)); [|by injection H2 as <-].
    apply bind_Ok in H2 as (w4 & H4 & H2).
    eauto using parentOfChecked_preserves, children_preserves. }
  assert (HQ3 : Q w3).
  { destruct (decide (v = Unchecked)); [|by injection H3 as <-].
    apply bind_Ok in H3 as (w4 & H4 & H3).
    eauto using parentOfUnchecked_preserves, children_preserves. }
  destruct (decide (v = PartiallyChecked)); [|by injection H1 as <-].
  eauto using parentOfPartial_preserves.
Qed.
End body.

Lemma setData_preserves fuel idx v w w' :
  Q w -> setData fuel idx v w = Ok w' -> Q w'.
Proof.
  revert idx v w w'. induction fuel as [|fuel IH]; intros idx v w w' HQ H; [done|].
  rewrite setData_unfold in H. eapply setData_body_preserves; eauto.
Qed.
End setData_preserves.


(** ** Indexes and addresses *)

Lemma indexOfAddress_single (r : nat) : indexOfAddress [r] = Index r None.
Proof. reflexivity. Qed.

Lemma indexOfAddress_snoc (q : list nat) (i : nat) :
  q <> [] -> indexOfAddress (q ++ [i]) = Index i (Some q).
Proof.
  intros Hq. unfold indexOfAddress. rewrite reverse_snoc.
  destruct (reverse q) as [|x rq] eqn:Hr.
  - apply (f_equal reverse) in Hr. rewrite reverse_involutive in Hr. done.
  - rewrite <- Hr. by rewrite reverse_involutive.
Qed.

Lemma addressOf_indexOfAddress (p : list nat) :
  p <> [] -> addressOf (indexOfAddress p) = p.
Proof.
  intros Hp. destruct (decide (p = [])) as [|_]; [done|].
  induction p as [|i p _] using rev_ind; [done|].
  destruct p as [|j p]; [done|].
  by rewrite indexOfAddress_snoc.
Qed.

Lemma parentAddress_snoc (q : list nat) (i : nat) : parentAddress (q ++ [i]) = q.
Proof. unfold parentAddress. apply removelast_last. Qed.

Lemma parentAddress_single (r : nat) : parentAddress [r] = [].
Proof. reflexivity. Qed.

Lemma materialized_root (row : nat) (w : World) :
  materialized (Index row None) w <->
  row < length (folderMap w) /\
  exists n, _folders w !! row = Some n /\ _pathIdx n <> [].
Proof.
  unfold materialized, infoForIndex. simpl addressOf. split.
  - intros H. case_decide as Hfm; [done|]. split; [lia|].
    case_decide as Hlen.
    + exfalso. apply bind_Ok in H as (info & _ & H).
      apply bind_Ok in H as (f & _ & H). injection H as H.
      apply (f_equal _folders) in H. simpl in H.
      apply (f_equal length) in H.
      destruct (_pathIdx info); rewrite ?length_insert, length_resize in H; lia.
    + apply bind_Ok in H as (info & Hinfo & H). apply at_Ok in Hinfo.
      apply bind_Ok in H as (f & _ & H). injection H as H.
      exists info. split; [done|]. intros Hnil. rewrite Hnil in H.
      apply (f_equal _folders) in H. simpl in H.
      apply (f_equal (fun l => _pathIdx <$> l !! row)) in H.
      rewrite list_lookup_insert_eq in H by (apply lookup_lt_Some in Hinfo; lia).
      rewrite Hinfo in H. simpl in H. rewrite Hnil in H. done.
  - intros (Hrow & n & Hn & Hidx).
    case_decide; [lia|]. case_decide as Hlen.
    { apply lookup_lt_Some in Hn. lia. }
    unfold at_. rewrite Hn. simpl.
    destruct (lookup_lt_is_Some_2 (folderMap w) row Hrow) as [f ->]. simpl.
    destruct (_pathIdx n); [done|]. by destruct w.
Qed.

Lemma materialized_sub (row : nat) (pinfo : list nat) (w : World) :
  materialized (Index row (Some pinfo)) w <->
  exists pn c, node_at (_folders w) pinfo = Some pn /\ _subs pn !! row = Some c.
Proof.
  unfold materialized, infoForIndex. simpl addressOf. split.
  - intros H. apply bind_Ok in H as (pn & Hpn & H).
    apply bind_Ok in H as (c & Hc & _).
    exists pn, c. by rewrite <- deref_Ok, <- at_Ok.
  - intros (pn & c & Hpn & Hc). apply deref_Ok in Hpn. apply at_Ok in Hc.
    by rewrite Hpn; simpl; rewrite Hc.
Qed.

Lemma materialized_invalid (w : World) : ~ materialized InvalidIndex w.
Proof. unfold materialized. simpl. congruence. Qed.

Lemma materialized_sub_nonempty (row : nat) (pinfo : list nat) (w : World) :
  materialized (Index row (Some pinfo)) w -> pinfo <> [].
Proof.
  intros (pn & c & Hpn & _)%materialized_sub ->. by rewrite node_at_nil in Hpn.
Qed.

Lemma materialized_node (idx : QModelIndex) (w : World) :
  materialized idx w -> exists n, node_at (_folders w) (addressOf idx) = Some n.
Proof.
  destruct idx as [|row [pinfo|]]; intros H.
  - by apply materialized_invalid in H.
  - pose proof (materialized_sub_nonempty _ _ _ H) as Hne.
    apply materialized_sub in H as (pn & c & Hpn & Hc).
    exists c. simpl. rewrite node_at_snoc by done. by rewrite Hpn.
  - apply materialized_root in H as (_ & n & Hn & _).
    exists n. simpl addressOf. by rewrite node_at_single.
Qed.

Lemma materialized_address_nonempty (idx : QModelIndex) (w : World) :
  materialized idx w -> addressOf idx <> [].
Proof.
  intros (n & Hn)%materialized_node Hnil. rewrite Hnil in Hn. done.
Qed.

Lemma materialized_indexOfAddress (idx : QModelIndex) (w : World) :
  materialized idx w -> indexOfAddress (addressOf idx) = idx.
Proof.
  destruct idx as [|row [pinfo|]]; intros H.
  - by apply materialized_invalid in H.
  - simpl. apply indexOfAddress_snoc. by eapply materialized_sub_nonempty.
  - reflexivity.
Qed.

(** ** Writing through a pointer leaves the rest of the tree in place *)

Lemma same_fields_refl (m : SubFolderInfo) : same_fields m m.
Proof. by split. Qed.

Lemma same_fields_set_subs (m : SubFolderInfo) (l : list SubFolderInfo) :
  length l = length (_subs m) -> same_fields m (set_subs l m).
Proof. by split. Qed.

Lemma same_fields_checked (m0 m : SubFolderInfo) :
  same_fields m0 m -> _checked m = _checked m0.
Proof. intros [H _]. by apply (f_equal _checked) in H. Qed.

Lemma same_fields_pathIdx (m0 m : SubFolderInfo) :
  same_fields m0 m -> _pathIdx m = _pathIdx m0.
Proof. intros [H _]. by apply (f_equal _pathIdx) in H. Qed.

Lemma same_fields_fetched (m0 m : SubFolderInfo) :
  same_fields m0 m -> _fetched m = _fetched m0 /\ _fetching m = _fetching m0.
Proof.
  intros [H _]. split; [by apply (f_equal _fetched) in H|by apply (f_equal _fetching) in H].
Qed.

Lemma same_fields_subs_nil (m0 m : SubFolderInfo) :
  same_fields m0 m -> _subs m0 = [] -> _subs m = [].
Proof. intros [_ H] H0. rewrite H0 in H. by apply nil_length_inv. Qed.

Lemma same_fields_lookup (m0 m : SubFolderInfo) (i : nat) :
  same_fields m0 m -> is_Some (_subs m0 !! i) -> is_Some (_subs m !! i).
Proof.
  intros [_ H] Hi. apply lookup_lt_is_Some. apply lookup_lt_is_Some in Hi. lia.
Qed.

(** The node found at an address [a] after [f] was applied at [q], for
    an [f] that keeps the children. *)
Lemma node_at_modify_at_cases (f : SubFolderInfo -> SubFolderInfo)
  (fs : list SubFolderInfo) (q a : list nat) :
  (forall n, _subs (f n) = _subs n) ->
  match node_at fs a with
  | None => node_at (modify_at f fs q) a = None
  | Some m0 =>
      exists m, node_at (modify_at f fs q) a = Some m /\
                ((a = q /\ m = f m0) \/ (a <> q /\ same_fields m0 m))
  end.
Proof.
  intros Hf. revert fs a. induction q as [|i q IH]; intros fs a.
  - simpl. destruct (node_at fs a) as [m0|] eqn:Hm0; [|done].
    exists m0. split; [done|]. right. split; [|apply same_fields_refl].
    intros ->. done.
  - destruct a as [|k a]; [done|].
    destruct q as [|j q].
    + rewrite modify_at_single. destruct a as [|k' a].
      * rewrite !node_at_single, list_lookup_alter.
        case_decide as Hik; [subst k|].
        -- destruct (fs !! i) as [m0|]; [|done]. exists (f m0). split; [done|]. by left.
        -- destruct (fs !! k) as [m0|]; [|done]. exists m0. split; [done|].
           right. split; [congruence|apply same_fields_refl].
      * rewrite !node_at_cons_cons, list_lookup_alter.
        case_decide as Hik; [subst k|].
        -- destruct (fs !! i) as [n0|]; [|done]. cbn -[node_at modify_at]. rewrite Hf.
           destruct (node_at (_subs n0) (k' :: a)) as [m0|]; [|done].
           exists m0. split; [done|]. right. split; [done|apply same_fields_refl].
        -- destruct (fs !! k) as [n0|]; [|done]. cbn -[node_at modify_at].
           destruct (node_at (_subs n0) (k' :: a)) as [m0|]; [|done].
           exists m0. split; [done|]. right. split; [congruence|apply same_fields_refl].
    + rewrite modify_at_cons_cons. destruct a as [|k' a].
      * rewrite !node_at_single, list_lookup_alter.
        case_decide as Hik; [subst k|].
        -- destruct (fs !! i) as [m0|]; [|done]. cbn -[node_at modify_at]. eexists. split; [done|].
           right. split; [done|]. apply same_fields_set_subs, length_modify_at.
        -- destruct (fs !! k) as [m0|]; [|done]. exists m0. split; [done|].
           right. split; [congruence|apply same_fields_refl].
      * rewrite !node_at_cons_cons, list_lookup_alter.
        case_decide as Hik; [subst k|].
        -- destruct (fs !! i) as [n0|]; [|done]. cbn -[node_at modify_at].
           specialize (IH (_subs n0) (k' :: a)).
           destruct (node_at (_subs n0) (k' :: a)) as [m0|]; [|done].
           destruct IH as (m & Hm & Hcases). exists m. split; [done|].
           destruct Hcases as [[-> ->]|[Hne Hsame]]; [by left|].
           right. split; [congruence|done].
        -- destruct (fs !! k) as [n0|]; [|done]. cbn -[node_at modify_at].
           destruct (node_at (_subs n0) (k' :: a)) as [m0|]; [|done].
           exists m0. split; [done|]. right. split; [congruence|apply same_fields_refl].
Qed.

Lemma node_at_modify_at_Some (f : SubFolderInfo -> SubFolderInfo)
  (fs : list SubFolderInfo) (q a : list nat) (m0 : SubFolderInfo) :
  (forall n, _subs (f n) = _subs n) ->
  node_at fs a = Some m0 ->
  exists m, node_at (modify_at f fs q) a = Some m /\
            ((a = q /\ m = f m0) \/ (a <> q /\ same_fields m0 m)).
Proof.
  intros Hf Ha. pose proof (node_at_modify_at_cases f fs q a Hf) as H.
  by rewrite Ha in H.
Qed.

Lemma node_at_modify_at_inv (f : SubFolderInfo -> SubFolderInfo)
  (fs : list SubFolderInfo) (q a : list nat) (m : SubFolderInfo) :
  (forall n, _subs (f n) = _subs n) ->
  node_at (modify_at f fs q) a = Some m ->
  exists m0, node_at fs a = Some m0 /\
             ((a = q /\ m = f m0) \/ (a <> q /\ same_fields m0 m)).
Proof.
  intros Hf Ha. pose proof (node_at_modify_at_cases f fs q a Hf) as H.
  destruct (node_at fs a) as [m0|]; [|congruence].
  destruct H as (m' & Hm' & Hcases). exists m0. split; [done|]. congruence.
Qed.

Lemma checked_modify_at_ne (f : SubFolderInfo -> SubFolderInfo)
  (fs : list SubFolderInfo) (q a : list nat) :
  (forall n, _subs (f n) = _subs n) -> a <> q ->
  _checked <$> node_at (modify_at f fs q) a = _checked <$> node_at fs a.
Proof.
  intros Hf Hne. pose proof (node_at_modify_at_cases f fs q a Hf) as H.
  destruct (node_at fs a) as [m0|]; [|by rewrite H].
  destruct H as (m & -> & [[? _]|[_ Hsame]]); [done|].
  simpl. f_equal. by apply same_fields_checked.
Qed.

Lemma set_checked_subs (c : CheckState) (n : SubFolderInfo) :
  _subs (set_checked c n) = _subs n.
Proof. reflexivity. Qed.

(** ** The tree invariant under the writes of [setData] *)

Lemma address_invariant_modify_at (f : SubFolderInfo -> SubFolderInfo)
  (fs : list SubFolderInfo) (q : list nat) :
  (forall n, _subs (f n) = _subs n) ->
  (forall n, _pathIdx (f n) = _pathIdx n) ->
  address_invariant fs -> address_invariant (modify_at f fs q).
Proof.
  intros Hsubs Hidx Hinv a m Hm.
  apply node_at_modify_at_inv in Hm as (m0 & Hm0 & Hcases); [|done].
  specialize (Hinv a m0 Hm0).
  destruct Hcases as [[-> ->]|[_ Hsame]].
  - rewrite Hidx, Hsubs. done.
  - rewrite (same_fields_pathIdx _ _ Hsame).
    destruct Hinv as [?|(? & ? & ?)]; [by left|right].
    repeat split; try done. by eapply same_fields_subs_nil.
Qed.

Lemma tree_invariant_store (w : World) (p : list nat) (c : CheckState) :
  tree_invariant w -> tree_invariant (store p (set_checked c) w).
Proof.
  intros [Hlen Hinv]. split; simpl.
  - by rewrite length_modify_at.
  - by apply address_invariant_modify_at.
Qed.

Lemma tree_invariant_emit (w : World) (es : list Effect) :
  tree_invariant w -> tree_invariant (emit es (with_dirty true w)).
Proof. done. Qed.

Lemma materialized_store (idx : QModelIndex) (w : World) (p : list nat) (c : CheckState) :
  materialized idx w -> materialized idx (store p (set_checked c) w).
Proof.
  destruct idx as [|row [pinfo|]]; intros H.
  - by apply materialized_invalid in H.
  - apply materialized_sub in H as (pn & ch & Hpn & Hch). apply materialized_sub.
    destruct (node_at_modify_at_Some (set_checked c) _ p _ _ (set_checked_subs c) Hpn)
      as (m & Hm & Hcases).
    assert (is_Some (_subs m !! row)) as [ch' Hch'].
    { destruct Hcases as [[_ ->]|[_ Hsame]]; [by eexists|].
      eapply same_fields_lookup; eauto. }
    by exists m, ch'.
  - apply materialized_root in H as (Hrow & n & Hn & Hidx). apply materialized_root.
    split; [done|]. rewrite <- node_at_single in Hn.
    destruct (node_at_modify_at_Some (set_checked c) _ p _ _ (set_checked_subs c) Hn)
      as (m & Hm & Hcases).
    exists m. simpl. rewrite <- node_at_single. split; [done|].
    destruct Hcases as [[_ ->]|[_ Hsame]]; [done|].
    by rewrite (same_fields_pathIdx _ _ Hsame).
Qed.

Lemma materialized_emit (idx : QModelIndex) (w : World) (es : list Effect) :
  materialized idx w -> materialized idx (emit es (with_dirty true w)).
Proof.
  destruct idx as [|row [pinfo|]]; intros H.
  - by apply materialized_invalid in H.
  - apply materialized_sub in H. by apply materialized_sub.
  - apply materialized_root in H. by apply materialized_root.
Qed.

(** ** [infoForIndex]: what the first visit of a root changes *)

Lemma initRoot_subs (row : nat) (f : Folder) (n : SubFolderInfo) :
  _subs (initRoot row f n) = _subs n.
Proof. reflexivity. Qed.

Lemma node_at_app_new (fs : list SubFolderInfo) (k : nat) (a : list nat)
  (m : SubFolderInfo) :
  node_at (fs ++ replicate k newSubFolderInfo) a = Some m ->
  node_at fs a = Some m \/
  (exists r, a = [r] /\ length fs <= r /\ m = newSubFolderInfo).
Proof.
  destruct a as [|r a]; [done|].
  destruct (decide (r < length fs)) as [Hr|Hr].
  - destruct a as [|j a].
    + rewrite !node_at_single, lookup_app_l by done. by left.
    + rewrite !node_at_cons_cons, lookup_app_l by done. by left.
  - destruct a as [|j a].
    + rewrite node_at_single, lookup_app_r by lia.
      intros [-> _]%lookup_replicate. right. exists r. split; [done|]. split; [lia|done].
    + rewrite node_at_cons_cons, lookup_app_r by lia.
      destruct (replicate k newSubFolderInfo !! (r - length fs)) as [n|] eqn:Hn; [|done].
      apply lookup_replicate in Hn as [-> _]. done.
Qed.

Lemma node_at_app_old (fs ext : list SubFolderInfo) (a : list nat) (m : SubFolderInfo) :
  node_at fs a = Some m -> node_at (fs ++ ext) a = Some m.
Proof.
  destruct a as [|r [|j a]]; [done| |].
  - rewrite !node_at_single. apply lookup_app_l_Some.
  - rewrite !node_at_cons_cons. destruct (fs !! r) as [n|] eqn:Hn; [|done].
    by rewrite (lookup_app_l_Some _ _ _ _ Hn).
Qed.

Lemma node_at_alter_root (f : SubFolderInfo -> SubFolderInfo) (fs : list SubFolderInfo)
  (row : nat) (a : list nat) :
  (forall n, _subs (f n) = _subs n) -> a <> [row] ->
  node_at (alter f row fs) a = node_at fs a.
Proof.
  intros Hf Ha. destruct a as [|k [|j a]]; [done| |].
  - rewrite !node_at_single. apply list_lookup_alter_ne. congruence.
  - rewrite !node_at_cons_cons, list_lookup_alter. case_decide; [subst k|done].
    destruct (fs !! row) as [n|]; [|done]. cbn -[node_at]. by rewrite Hf.
Qed.

(** The forest after [infoForIndex] on the top-level row [row]. *)
Lemma infoForIndex_root_forest (row : nat) (w : World) (r : option (list nat))
  (w' : World) :
  infoForIndex (Index row None) w = Ok (r, w') ->
  (r = None /\ w' = w) \/
  (exists f fs1,
      r = Some [row] /\ row < length (folderMap w) /\
      (fs1 = _folders w \/
       (length (_folders w) <= row /\
        fs1 = _folders w ++ replicate (S row - length (_folders w)) newSubFolderInfo)) /\
      (w' = with_folders fs1 w \/
       (exists info, fs1 !! row = Some info /\ _pathIdx info = [] /\
                     w' = with_folders (alter (initRoot row f) row fs1) w))).
Proof.
  unfold infoForIndex. intros H.
  case_decide as Hfm; [left; by injection H as <- <-|]. right.
  apply bind_Ok in H as (info & Hinfo & H). apply at_Ok in Hinfo.
  apply bind_Ok in H as (f & Hf & H). injection H as <- <-.
  exists f.
  exists (if decide (length (_folders w) <= row)
          then resize (S row) newSubFolderInfo (_folders w) else _folders w).
  split; [done|]. split; [lia|]. split.
  - case_decide as Hlen; [right|left; done]. split; [done|]. apply resize_ge. lia.
  - destruct (_pathIdx info) eqn:Hidx; [right|left; done].
    exists info. split; [done|]. split; [done|]. f_equal.
    rewrite list_insert_alter.
    apply list_alter_ext; [|done]. intros x Hx. congruence.
Qed.

Lemma infoForIndex_world (idx : QModelIndex) (w : World) (r : option (list nat))
  (w' : World) :
  infoForIndex idx w = Ok (r, w') ->
  _dirty w' = _dirty w /\ folderMap w' = folderMap w /\ jobs w' = jobs w /\
  effects w' = effects w.
Proof.
  destruct idx as [|row [pinfo|]]; simpl; intros H.
  - by injection H as <- <-.
  - apply bind_Ok in H as (pn & _ & H). apply bind_Ok in H as (c & _ & H).
    by injection H as <- <-.
  - apply infoForIndex_root_forest in H as [[_ ->]|(f & fs1 & _ & _ & _ & [->|(i & _ & _ & ->)])];
      done.
Qed.

Lemma infoForIndex_nodes (idx : QModelIndex) (w : World) (r : option (list nat))
  (w' : World) :
  infoForIndex idx w = Ok (r, w') ->
  (forall a m, node_at (_folders w') a = Some m ->
     node_at (_folders w) a = Some m \/
     (length a = 1 /\ m = newSubFolderInfo) \/
     (exists row m0 f,
         a = [row] /\ (node_at (_folders w) a = Some m0 \/ m0 = newSubFolderInfo) /\
         _pathIdx m0 = [] /\ m = initRoot row f m0)) /\
  (forall a m0, node_at (_folders w) a = Some m0 ->
     node_at (_folders w') a = Some m0 \/
     (exists row f, a = [row] /\ _pathIdx m0 = [] /\
                    node_at (_folders w') a = Some (initRoot row f m0))) /\
  (length (_folders w) <= length (folderMap w) ->
   length (_folders w') <= length (folderMap w)).
Proof.
  intros H.
  assert (Hsame : w' = w ->
    (forall a m, node_at (_folders w') a = Some m ->
       node_at (_folders w) a = Some m \/
       (length a = 1 /\ m = newSubFolderInfo) \/
       (exists row m0 f,
           a = [row] /\ (node_at (_folders w) a = Some m0 \/ m0 = newSubFolderInfo) /\
           _pathIdx m0 = [] /\ m = initRoot row f m0)) /\
    (forall a m0, node_at (_folders w) a = Some m0 ->
       node_at (_folders w') a = Some m0 \/
       (exists row f, a = [row] /\ _pathIdx m0 = [] /\
                      node_at (_folders w') a = Some (initRoot row f m0))) /\
    (length (_folders w) <= length (folderMap w) ->
     length (_folders w') <= length (folderMap w))).
  { intros ->. split; [|split]; [| |exact (fun x => x)]; intros a m Hm; by left. }
  destruct idx as [|row [pinfo|]]; simpl in H.
  - apply Hsame. by injection H as <- <-.
  - apply Hsame. apply bind_Ok in H as (pn & _ & H). apply bind_Ok in H as (c & _ & H).
    by injection H as <- <-.
  - apply infoForIndex_root_forest in H as [[_ ->]|(f & fs1 & _ & Hrow & Hfs1 & Hw')];
      [by apply Hsame|].
    clear Hsame.
    assert (H1 : forall a m, node_at fs1 a = Some m ->
               node_at (_folders w) a = Some m \/
               (length a = 1 /\ m = newSubFolderInfo)).
    { intros a m Hm. destruct Hfs1 as [->|[_ ->]]; [by left|].
      apply node_at_app_new in Hm as [?|(r' & -> & _ & ->)]; [by left|by right]. }
    assert (H2 : forall a m, node_at (_folders w) a = Some m -> node_at fs1 a = Some m).
    { intros a m Hm. destruct Hfs1 as [->|[_ ->]]; [done|]. by apply node_at_app_old. }
    assert (H3 : length (_folders w) <= length (folderMap w) ->
                 length fs1 <= length (folderMap w)).
    { destruct Hfs1 as [->|[Hle ->]]; [done|].
      rewrite length_app, length_replicate. lia. }
    destruct Hw' as [->|(info & Hinfo & Hidx & ->)]; simpl.
    + split; [|split; [|done]].
      * intros a m Hm. destruct (H1 a m Hm) as [?|[? ->]]; [by left|right; by left].
      * intros a m0 Hm0. left. by apply H2.
    + split; [|split].
      * intros a m Hm. destruct (decide (a = [row])) as [->|Ha].
        -- right. right. rewrite node_at_single, list_lookup_alter_eq, Hinfo in Hm.
           injection Hm as <-. exists row, info, f. split; [done|].
           split; [|done]. rewrite <- node_at_single in Hinfo.
           destruct (H1 _ _ Hinfo) as [?|[_ ->]]; [by left|by right].
        -- rewrite node_at_alter_root in Hm by (done || apply initRoot_subs).
           destruct (H1 a m Hm) as [?|[? ->]]; [by left|right; by left].
      * intros a m0 Hm0. destruct (decide (a = [row])) as [->|Ha].
        -- right. exists row, f. split; [done|].
           pose proof (H2 _ _ Hm0) as Hm1. rewrite node_at_single in Hm1.
           assert (m0 = info) as -> by congruence. split; [done|].
           by rewrite node_at_single, list_lookup_alter_eq, Hinfo.
        -- left. rewrite node_at_alter_root by (done || apply initRoot_subs).
           by apply H2.
      * rewrite length_alter. done.
Qed.

Lemma tree_invariant_infoForIndex (idx : QModelIndex) (w : World)
  (r : option (list nat)) (w' : World) :
  tree_invariant w -> infoForIndex idx w = Ok (r, w') -> tree_invariant w'.
Proof.
  intros [Hlen Hinv] H.
  destruct (infoForIndex_world _ _ _ _ H) as (_ & Hfm & _ & _).
  destruct (infoForIndex_nodes _ _ _ _ H) as (Hnew & _ & Hlen').
  split; [rewrite Hfm; by apply Hlen'|].
  intros a m Hm. destruct (Hnew a m Hm) as [Hold|[[Ha ->]|(row & m0 & f & -> & _ & Hidx & ->)]].
  - by apply Hinv.
  - right. by repeat split.
  - left. simpl. by rewrite Hidx.
Qed.

Lemma materialized_infoForIndex (idx' idx : QModelIndex) (w : World)
  (r : option (list nat)) (w' : World) :
  materialized idx' w -> infoForIndex idx w = Ok (r, w') -> materialized idx' w'.
Proof.
  intros Hmat H.
  destruct (infoForIndex_world _ _ _ _ H) as (_ & Hfm & _ & _).
  destruct (infoForIndex_nodes _ _ _ _ H) as (_ & Hold & _).
  destruct idx' as [|row [pinfo|]].
  - by apply materialized_invalid in Hmat.
  - apply materialized_sub in Hmat as (pn & c & Hpn & Hc). apply materialized_sub.
    destruct (Hold _ _ Hpn) as [?|(row' & f & -> & _ & ?)]; [by exists pn, c|].
    by exists (initRoot row' f pn), c.
  - apply materialized_root in Hmat as (Hrow & n & Hn & Hidx). apply materialized_root.
    rewrite Hfm. split; [done|]. rewrite <- node_at_single in Hn.
    destruct (Hold _ _ Hn) as [?|(row' & f & _ & ? & _)]; [|done].
    exists n. by rewrite <- node_at_single.
Qed.

Lemma infoForIndex_materialized (idx : QModelIndex) (w : World) (r : list nat)
  (w' : World) :
  infoForIndex idx w = Ok (Some r, w') -> r = addressOf idx /\ materialized idx w'.
Proof.
  intros H. destruct idx as [|row [pinfo|]]; simpl in H.
  - done.
  - apply bind_Ok in H as (pn & Hpn & H). apply bind_Ok in H as (c & Hc & H).
    injection H as <- <-. split; [done|]. apply materialized_sub.
    exists pn, c. by rewrite <- deref_Ok, <- at_Ok.
  - pose proof H as H'.
    apply infoForIndex_root_forest in H as [[? _]|(f & fs1 & Hr & Hrow & Hfs1 & Hw')];
      [done|].
    injection Hr as ->. split; [done|].
    destruct (infoForIndex_world (Index row None) w (Some [row]) w' H')
      as (_ & Hfm & _ & _).
    apply materialized_root. rewrite Hfm. split; [done|].
    unfold infoForIndex in H'. case_decide; [done|].
    apply bind_Ok in H' as (info & Hinfo & H'). apply at_Ok in Hinfo.
    apply bind_Ok in H' as (f' & _ & H'). injection H' as <-.
    destruct (_pathIdx info) eqn:Hidx; simpl.
    + eexists. rewrite list_lookup_insert_eq by (by apply lookup_lt_Some in Hinfo).
      split; [done|]. simpl. rewrite Hidx. done.
    + exists info. split; [done|]. by rewrite Hidx.
Qed.

(** ** [parent] and [child] on a tree that satisfies the invariant *)

Lemma parent_root (row : nat) (w : World) : parent (Index row None) w = Ok InvalidIndex.
Proof. simpl. by case_decide. Qed.

Lemma parent_walk_spec (w : World) (mid pre post : list nat) :
  pre <> [] -> is_Some (node_at (_folders w) (pre ++ mid)) ->
  parent_walk w (pre ++ mid ++ post) (length mid) pre (length pre)
  = Ok (pre ++ mid, length pre + length mid).
Proof.
  revert pre. induction mid as [|m mid IH]; intros pre Hpre Hnode; simpl.
  - by rewrite app_nil_r, Nat.add_0_r.
  - assert (Hpm : is_Some (node_at (_folders w) (pre ++ [m]))).
    { apply node_at_prefix_is_Some with (q := mid); [by destruct pre|].
      by rewrite <- app_assoc. }
    destruct Hpm as [c Hc]. rewrite node_at_snoc in Hc by done.
    unfold deref. destruct (node_at (_folders w) pre) as [n|]; [|done].
    cbn -[node_at] in Hc |- *.
    assert (Hm : at_ (pre ++ m :: mid ++ post) (length pre) = Ok m).
    { apply at_Ok. rewrite lookup_app_r by lia. by rewrite Nat.sub_diag. }
    rewrite Hm. cbn -[node_at].
    rewrite (proj2 (at_Ok _ _ _) Hc). cbn -[node_at].
    specialize (IH (pre ++ [m])).
    rewrite <- !app_assoc, length_app in IH. simpl in IH.
    rewrite Nat.add_1_r in IH. rewrite IH; [|by destruct pre|done].
    do 2 f_equal. lia.
Qed.

Lemma parent_sub (row : nat) (pinfo : list nat) (w : World) :
  tree_invariant w -> materialized (Index row (Some pinfo)) w ->
  parent (Index row (Some pinfo)) w = Ok (indexOfAddress pinfo) /\
  materialized (indexOfAddress pinfo) w /\
  addressOf (indexOfAddress pinfo) = pinfo.
Proof.
  intros [Hlen Hinv] Hmat.
  pose proof (materialized_sub_nonempty _ _ _ Hmat) as Hne.
  apply materialized_sub in Hmat as (pn & c & Hpn & Hc).
  assert (Hcnode : node_at (_folders w) (pinfo ++ [row]) = Some c).
  { rewrite node_at_snoc by done. by rewrite Hpn. }
  assert (Hidx : _pathIdx c = pinfo ++ [row]).
  { destruct (Hinv _ _ Hcnode) as [?|(Hl & _)]; [done|].
    rewrite length_app in Hl. destruct pinfo; simpl in Hl; [done|lia]. }
  split; [|split; [|by apply addressOf_indexOfAddress]].
  - unfold parent. simpl classify. cbv iota.
    unfold deref. rewrite Hpn. cbn -[node_at parent_walk].
    rewrite (proj2 (at_Ok _ _ _) Hc). cbn -[node_at parent_walk]. rewrite Hidx.
    destruct pinfo as [|r0 rest]; [done|].
    cbn -[node_at parent_walk].
    assert (Hr0 : is_Some (node_at (_folders w) [r0])).
    { apply node_at_prefix_is_Some with (q := rest); [done|]. by eexists. }
    rewrite node_at_single in Hr0. apply lookup_lt_is_Some in Hr0.
    case_decide; [lia|].
    case_decide as H2; rewrite length_app in H2; simpl in H2.
    { destruct rest; [done|simpl in H2; lia]. }
    assert (exists mid l, rest = mid ++ [l]) as (mid & l & ->).
    { destruct rest as [|l mid _] using rev_ind; [done|]. by exists mid, l. }
    rewrite !length_app. simpl length.
    replace (length mid + 1 + 1 - 1 - 1) with (length mid) by lia.
    pose proof (parent_walk_spec w mid [r0] [l; row]) as Hwalk.
    cbn -[node_at parent_walk] in Hwalk.
    rewrite <- app_assoc. cbn -[node_at parent_walk]. rewrite Hwalk; [|done|].
    * cbn -[node_at].
      assert (Hl : at_ (r0 :: mid ++ [l; row]) (S (length mid)) = Ok l).
      { apply at_Ok. simpl. rewrite lookup_app_r by lia. by rewrite Nat.sub_diag. }
      rewrite Hl. simpl.
      change (r0 :: mid ++ [l]) with ((r0 :: mid) ++ [l]).
      by rewrite indexOfAddress_snoc.
    * apply node_at_prefix_is_Some with (q := [l]); [done|].
      change (r0 :: mid ++ [l]) with ((r0 :: mid) ++ [l]) in Hpn. by eexists.
  - destruct pinfo as [|l q _] using rev_ind; [done|].
    destruct q as [|r0 q].
    + change ([] ++ [l]) with [l] in *. rewrite indexOfAddress_single.
      apply materialized_root. rewrite node_at_single in Hpn.
      split; [apply lookup_lt_Some in Hpn; lia|].
      exists pn. split; [done|].
      rewrite <- node_at_single in Hpn.
      destruct (Hinv _ _ Hpn) as [->|(_ & _ & Hnil)]; [done|].
      rewrite Hnil in Hc. done.
    + rewrite indexOfAddress_snoc by done. apply materialized_sub.
      rewrite node_at_snoc in Hpn by done.
      destruct (node_at (_folders w) (r0 :: q)) as [pn'|]; [|done].
      cbn -[node_at] in Hpn. by exists pn', pn.
Qed.

Lemma child_resolve (idx : QModelIndex) (w : World) (n : SubFolderInfo) (i : nat) :
  materialized idx w ->
  node_at (_folders w) (addressOf idx) = Some n ->
  i < length (_subs n) ->
  child idx i w = Ok (Index i (Some (addressOf idx))) /\
  materialized (Index i (Some (addressOf idx))) w.
Proof.
  intros Hmat Hn Hi.
  destruct (lookup_lt_is_Some_2 _ _ Hi) as [c Hc].
  split; [|apply materialized_sub; by exists n, c].
  destruct idx as [|row [pinfo|]].
  - by apply materialized_invalid in Hmat.
  - pose proof (materialized_sub_nonempty _ _ _ Hmat) as Hne.
    apply materialized_sub in Hmat as (pn & c0 & Hpn & Hc0).
    simpl in Hn. rewrite node_at_snoc, Hpn in Hn by done. simpl in Hn.
    assert (c0 = n) as -> by congruence.
    unfold child, index. simpl classify. cbv iota.
    unfold deref. rewrite Hpn. cbn -[node_at].
    rewrite decide_False by (apply lookup_lt_Some in Hc0; lia).
    unfold at_. rewrite Hc0. cbn -[node_at].
    by rewrite decide_False by lia.
  - apply materialized_root in Hmat as (Hrow & n0 & Hn0 & _).
    unfold child, index. simpl classify. rewrite decide_True by done.
    rewrite decide_False by (apply lookup_lt_Some in Hn0; lia). done.
Qed.

(** ** Writing at an address does not reach nodes off the path to it *)

Lemma node_at_modify_at_off (f : SubFolderInfo -> SubFolderInfo)
  (fs : list SubFolderInfo) (q a : list nat) :
  (forall n, _subs (f n) = _subs n) ->
  ~ a `prefix_of` q ->
  node_at (modify_at f fs q) a = node_at fs a.
Proof.
  intros Hf. revert fs a. induction q as [|i q IH]; intros fs a Ha; [done|].
  destruct a as [|k a]; [exfalso; apply Ha, prefix_nil|].
  destruct (decide (k = i)) as [->|Hki].
  - destruct q as [|j q].
    + rewrite modify_at_single. destruct a as [|k' a]; [by exfalso; apply Ha|].
      rewrite !node_at_cons_cons, list_lookup_alter_eq.
      destruct (fs !! i) as [n|]; [|done]. cbn -[node_at]. by rewrite Hf.
    + rewrite modify_at_cons_cons. destruct a as [|k' a].
      { exfalso. apply Ha. by exists (j :: q). }
      rewrite !node_at_cons_cons, list_lookup_alter_eq.
      destruct (fs !! i) as [n|]; [|done]. cbn -[node_at modify_at].
      apply IH. intros [x Hx]. apply Ha. exists x. simpl. by rewrite Hx.
  - assert (Hl : forall g, alter g i fs !! k = fs !! k).
    { intros g. by apply list_lookup_alter_ne. }
    destruct q as [|j q]; [rewrite modify_at_single|rewrite modify_at_cons_cons];
      (destruct a as [|k' a];
       [by rewrite !node_at_single, Hl|by rewrite !node_at_cons_cons, Hl]).
Qed.

Lemma not_prefix_parentAddress (a q : list nat) :
  ~ a `prefix_of` q -> ~ a `prefix_of` parentAddress q.
Proof.
  intros Ha [x Hx]. apply Ha.
  destruct q as [|l q _] using rev_ind; [by exists x|].
  rewrite parentAddress_snoc in Hx. exists (x ++ [l]). rewrite Hx.
  by rewrite app_assoc.
Qed.

Lemma snoc_not_prefix (q : list nat) (i : nat) : ~ (q ++ [i]) `prefix_of` q.
Proof.
  intros [x Hx]. apply (f_equal length) in Hx. rewrite !length_app in Hx.
  simpl in Hx. lia.
Qed.

Lemma partialCall_frame (k : nat) (q : list nat) (fs : list SubFolderInfo) (a : list nat) :
  ~ a `prefix_of` q -> node_at (partialCall k q fs).1 a = node_at fs a.
Proof.
  revert q fs. induction k as [|k IH]; intros q fs Ha; simpl.
  - by apply node_at_modify_at_off.
  - destruct (node_at _ (parentAddress q)) as [pn|];
      [case_decide|]; simpl;
      rewrite ?IH by (by apply not_prefix_parentAddress);
      by apply node_at_modify_at_off.
Qed.

Lemma checkedCall_frame (k : nat) (q : list nat) (fs : list SubFolderInfo) (a : list nat) :
  ~ a `prefix_of` q -> node_at (checkedCall k q fs).1 a = node_at fs a.
Proof.
  revert q fs. induction k as [|k IH]; intros q fs Ha; simpl.
  - by apply node_at_modify_at_off.
  - destruct (node_at _ (parentAddress q)) as [pn|];
      [case_decide; [destruct (negb _); [|case_decide]|]|]; simpl;
      rewrite ?IH, ?partialCall_frame by (by apply not_prefix_parentAddress);
      by apply node_at_modify_at_off.
Qed.


(** ** What every call of [setData] keeps *)

Lemma setData_tree_invariant (fuel : nat) (idx : QModelIndex) (v : CheckState)
  (w w' : World) :
  tree_invariant w -> setData fuel idx v w = Ok w' -> tree_invariant w'.
Proof.
  apply (setData_preserves tree_invariant).
  - intros ? ? ? ? ? _. by apply tree_invariant_store.
  - intros ? ? ? ? ? ?. by eapply tree_invariant_infoForIndex.
  - intros ? ? ?. by apply tree_invariant_emit.
Qed.

Lemma setData_materialized (idx' : QModelIndex) (fuel : nat) (idx : QModelIndex)
  (v : CheckState) (w w' : World) :
  materialized idx' w -> setData fuel idx v w = Ok w' -> materialized idx' w'.
Proof.
  apply (setData_preserves (materialized idx')).
  - intros ? ? ? ? ? _. by apply materialized_store.
  - intros ? ? ? ? ? ?. by eapply materialized_infoForIndex.
  - intros ? ? ?. by apply materialized_emit.
Qed.

(** ** Worlds after a call *)

Lemma updated_nil (w : World) : updated w (_folders w) (_dirty w) [] = w.
Proof. destruct w. unfold updated. simpl. by rewrite app_nil_r. Qed.

Lemma store_updated (p : list nat) (f : SubFolderInfo -> SubFolderInfo) (w : World) :
  store p f w = updated w (modify_at f (_folders w) p) (_dirty w) [].
Proof. unfold store, updated, with_folders. simpl. by rewrite app_nil_r. Qed.

Lemma notifications_app (l1 l2 : list (list nat)) :
  notifications (l1 ++ l2) = notifications l1 ++ notifications l2.
Proof. unfold notifications. apply bind_app. Qed.

Lemma updated_updated (w : World) (fs1 fs2 : list SubFolderInfo) (d1 d2 : bool)
  (l1 l2 : list (list nat)) :
  updated (updated w fs1 d1 l1) fs2 d2 l2 = updated w fs2 d2 (l1 ++ l2).
Proof. unfold updated. simpl. by rewrite notifications_app, app_assoc. Qed.

Lemma emit_updated (w : World) (fs : list SubFolderInfo) (d : bool)
  (l : list (list nat)) (a : list nat) :
  emit [DirtyChanged; DataChanged (indexOfAddress a)] (with_dirty true (updated w fs d l))
  = updated w fs true (l ++ [a]).
Proof.
  unfold emit, with_dirty, updated. simpl. rewrite notifications_app.
  by rewrite <- app_assoc.
Qed.

Lemma updated_folders (w : World) fs d l : _folders (updated w fs d l) = fs.
Proof. reflexivity. Qed.

(** ** The blocks of [setData] once navigation is resolved *)

Section blocks.
Variable rec : QModelIndex -> CheckState -> World -> result World.

Lemma infoForIndex_invalid (w : World) : infoForIndex InvalidIndex w = Ok (None, w).
Proof. reflexivity. Qed.

Lemma parentOfChecked_root row w : parentOfChecked rec (Index row None) w = Ok w.
Proof. unfold parentOfChecked. by rewrite parent_root. Qed.

Lemma parentOfUnchecked_root row w : parentOfUnchecked rec (Index row None) w = Ok w.
Proof. unfold parentOfUnchecked. by rewrite parent_root. Qed.

Lemma parentOfPartial_root row w : parentOfPartial rec (Index row None) w = Ok w.
Proof. unfold parentOfPartial. by rewrite parent_root. Qed.

Lemma parentOfChecked_sub row pinfo w pn :
  tree_invariant w -> materialized (Index row (Some pinfo)) w ->
  node_at (_folders w) pinfo = Some pn ->
  parentOfChecked rec (Index row (Some pinfo)) w
  = if decide (_checked pn ≠ Checked) then
      if negb (hasUnchecked (_subs pn))
      then rec (indexOfAddress pinfo) Checked w
      else if decide (_checked pn = Unchecked)
           then rec (indexOfAddress pinfo) PartiallyChecked w
           else Ok w
    else Ok w.
Proof.
  intros Hinv Hmat Hpn. destruct (parent_sub _ _ _ Hinv Hmat) as (Hpar & Hpm & Haddr).
  unfold parentOfChecked. rewrite Hpar. cbn -[infoForIndex].
  rewrite Hpm. cbn -[node_at]. rewrite Haddr.
  by rewrite (proj2 (deref_Ok _ _ _) Hpn).
Qed.

Lemma parentOfUnchecked_sub row pinfo w pn :
  tree_invariant w -> materialized (Index row (Some pinfo)) w ->
  node_at (_folders w) pinfo = Some pn ->
  parentOfUnchecked rec (Index row (Some pinfo)) w
  = if decide (_checked pn = Checked)
    then rec (indexOfAddress pinfo) PartiallyChecked w
    else Ok w.
Proof.
  intros Hinv Hmat Hpn. destruct (parent_sub _ _ _ Hinv Hmat) as (Hpar & Hpm & Haddr).
  unfold parentOfUnchecked. rewrite Hpar. cbn -[infoForIndex].
  rewrite Hpm. cbn -[node_at]. rewrite Haddr.
  by rewrite (proj2 (deref_Ok _ _ _) Hpn).
Qed.

Lemma parentOfPartial_sub row pinfo w pn :
  tree_invariant w -> materialized (Index row (Some pinfo)) w ->
  node_at (_folders w) pinfo = Some pn ->
  parentOfPartial rec (Index row (Some pinfo)) w
  = if decide (_checked pn ≠ PartiallyChecked)
    then rec (indexOfAddress pinfo) PartiallyChecked w
    else Ok w.
Proof.
  intros Hinv Hmat Hpn. destruct (parent_sub _ _ _ Hinv Hmat) as (Hpar & Hpm & Haddr).
  unfold parentOfPartial. rewrite Hpar. cbn -[infoForIndex].
  rewrite Hpm. cbn -[node_at]. rewrite Haddr.
  by rewrite (proj2 (deref_Ok _ _ _) Hpn).
Qed.

Lemma setData_body_materialized idx v w n :
  materialized idx w -> node_at (_folders w) (addressOf idx) = Some n ->
  setData_body rec idx v w
  = (if decide (_checked n ≠ v) then
       let w := store (addressOf idx) (set_checked v) w in
       w ← (if decide (v = Checked) then
              w ← parentOfChecked rec idx w;
              children rec idx (addressOf idx) Checked w
            else Ok w);
       w ← (if decide (v = Unchecked) then
              w ← parentOfUnchecked rec idx w;
              children rec idx (addressOf idx) Unchecked w
            else Ok w);
       (if decide (v = PartiallyChecked) then parentOfPartial rec idx w
        else Ok w)
     else Ok w)
    ≫= fun w => Ok (emit [DirtyChanged; DataChanged idx] (with_dirty true w)).
Proof.
  intros Hmat Hn. unfold setData_body. rewrite Hmat. cbn -[node_at].
  by rewrite (proj2 (deref_Ok _ _ _) Hn).
Qed.
Lemma setData_body_same idx v w n :
  materialized idx w -> node_at (_folders w) (addressOf idx) = Some n ->
  _checked n = v ->
  setData_body rec idx v w
  = Ok (emit [DirtyChanged; DataChanged idx] (with_dirty true w)).
Proof.
  intros Hmat Hn Hv. rewrite (setData_body_materialized _ _ _ _ Hmat Hn).
  by rewrite decide_False by (by intros ?).
Qed.

Lemma setData_body_partial idx w n :
  materialized idx w -> node_at (_folders w) (addressOf idx) = Some n ->
  _checked n <> PartiallyChecked ->
  setData_body rec idx PartiallyChecked w
  = parentOfPartial rec idx (store (addressOf idx) (set_checked PartiallyChecked) w)
    ≫= fun w => Ok (emit [DirtyChanged; DataChanged idx] (with_dirty true w)).
Proof.
  intros Hmat Hn Hv. rewrite (setData_body_materialized _ _ _ _ Hmat Hn).
  rewrite decide_True by done. cbv zeta. by repeat case_decide.
Qed.

Lemma setData_body_checked idx w n :
  materialized idx w -> node_at (_folders w) (addressOf idx) = Some n ->
  _checked n <> Checked ->
  setData_body rec idx Checked w
  = (w ← parentOfChecked rec idx (store (addressOf idx) (set_checked Checked) w);
     children rec idx (addressOf idx) Checked w)
    ≫= fun w => Ok (emit [DirtyChanged; DataChanged idx] (with_dirty true w)).
Proof.
  intros Hmat Hn Hv. rewrite (setData_body_materialized _ _ _ _ Hmat Hn).
  rewrite decide_True by done. cbv zeta. repeat case_decide; try done.
  unfold mbind, result_bind. cbv beta iota.
  destruct (parentOfChecked _ _ _) as [w1| |]; [|done..].
  by destruct (children _ _ _ _ _).
Qed.

Lemma setData_body_unchecked idx w n :
  materialized idx w -> node_at (_folders w) (addressOf idx) = Some n ->
  _checked n <> Unchecked ->
  setData_body rec idx Unchecked w
  = (w ← parentOfUnchecked rec idx (store (addressOf idx) (set_checked Unchecked) w);
     children rec idx (addressOf idx) Unchecked w)
    ≫= fun w => Ok (emit [DirtyChanged; DataChanged idx] (with_dirty true w)).
Proof.
  intros Hmat Hn Hv. rewrite (setData_body_materialized _ _ _ _ Hmat Hn).
  rewrite decide_True by done. cbv zeta. repeat case_decide; try done.
  unfold mbind, result_bind. cbv beta iota.
  destruct (parentOfUnchecked _ _ _) as [w1| |]; [|done..].
  by destruct (children _ _ _ _ _).
Qed.
End blocks.

(** ** Refinement: the calls that go up *)

Lemma node_at_store_same (w : World) (p : list nat) (c : CheckState) (n : SubFolderInfo) :
  node_at (_folders w) p = Some n ->
  node_at (_folders (store p (set_checked c) w)) p = Some (set_checked c n).
Proof. intros Hn. simpl. by rewrite node_at_modify_at_same, Hn. Qed.

Lemma partialCall_refines (k : nat) :
  forall (w : World) (idx : QModelIndex) (n : SubFolderInfo),
    tree_invariant w -> materialized idx w ->
    node_at (_folders w) (addressOf idx) = Some n ->
    _checked n <> PartiallyChecked ->
    length (addressOf idx) <= S k ->
    forall fuel, k < fuel ->
      setData fuel idx PartiallyChecked w
      = Ok (updated w (partialCall k (addressOf idx) (_folders w)).1 true
              (partialCall k (addressOf idx) (_folders w)).2).
Proof.
  induction k as [|k IH]; intros w idx n Hinv Hmat Hn Hne Hlen fuel Hfuel;
    (destruct fuel as [|fuel]; [lia|]);
    rewrite setData_unfold, (setData_body_partial _ _ _ _ Hmat Hn Hne);
    pose proof (tree_invariant_store w (addressOf idx) PartiallyChecked Hinv) as Hinv1;
    pose proof (materialized_store idx w (addressOf idx) PartiallyChecked Hmat) as Hmat1;
    pose proof (materialized_indexOfAddress _ _ Hmat) as Hidx;
    (destruct idx as [|row [pinfo|]]; [by apply materialized_invalid in Hmat| |]).
  - (* no level left: the node must be a root *)
    pose proof (materialized_sub_nonempty _ _ _ Hmat). simpl in Hlen.
    rewrite length_app in Hlen. destruct pinfo; simpl in Hlen; [done|lia].
  - rewrite parentOfPartial_root. cbn -[node_at]. rewrite store_updated.
    rewrite <- Hidx at 1. rewrite emit_updated. reflexivity.
  - (* a node below a root *)
    pose proof (materialized_sub_nonempty _ _ _ Hmat) as Hpne.
    destruct (parent_sub _ _ _ Hinv1 Hmat1) as (_ & Hpm & Haddr).
    destruct (materialized_node _ _ Hpm) as [pn Hpn]. rewrite Haddr in Hpn.
    rewrite (parentOfPartial_sub _ _ _ _ _ Hinv1 Hmat1 Hpn).
    simpl addressOf in *. simpl partialCall. rewrite parentAddress_snoc.
    change (modify_at (set_checked PartiallyChecked) (_folders w) (pinfo ++ [row]))
      with (_folders (store (pinfo ++ [row]) (set_checked PartiallyChecked) w)).
    rewrite Hpn. case_decide as Hpc.
    + pose proof (IH _ _ pn Hinv1 Hpm) as IH'. rewrite Haddr in IH'.
      rewrite (IH' Hpn Hpc); [| rewrite length_app in Hlen; simpl in Hlen; lia | lia].
      cbn -[node_at partialCall store modify_at].
      rewrite store_updated at 1. rewrite updated_updated.
      rewrite <- Hidx at 1. simpl addressOf. rewrite emit_updated.
      by destruct (partialCall k pinfo _).
    + cbn -[node_at store]. rewrite store_updated.
      rewrite <- Hidx at 1. simpl addressOf. rewrite emit_updated. reflexivity.
  - rewrite parentOfPartial_root. cbn -[node_at]. rewrite store_updated.
    rewrite <- Hidx at 1. rewrite emit_updated. reflexivity.
Qed.

Lemma for_each_id {A S : Type} (body : A -> S -> result S) (l : list A) (s : S) :
  (forall a, a ∈ l -> body a s = Ok s) -> for_each l body s = Ok s.
Proof.
  induction l as [|a l IH]; intros H; simpl; [done|].
  rewrite H by (by left). simpl. apply IH. intros b Hb. apply H. by right.
Qed.

Lemma hasUnchecked_false (subs : list SubFolderInfo) :
  hasUnchecked subs = false <-> forall i c, subs !! i = Some c -> _checked c = Checked.
Proof.
  unfold hasUnchecked. induction subs as [|c subs IH]; simpl.
  - split; [by intros _ i c Hc|done].
  - rewrite orb_false_iff, IH, bool_decide_eq_false. split.
    + intros [Hc Hrest] [|i] c'; simpl; [intros [= <-]|by apply Hrest].
      by destruct (decide (_checked c = Checked)).
    + intros H. split; [|intros i c' Hc'; by apply (H (S i))].
      intros Hc. apply Hc. by apply (H 0).
Qed.

(** A loop over children that are all in the wanted state changes
    nothing. *)
Lemma children_noop (rec : QModelIndex -> CheckState -> World -> result World)
  (idx : QModelIndex) (p : list nat) (v : CheckState) (w : World) (n : SubFolderInfo) :
  node_at (_folders w) p = Some n ->
  (forall i c, _subs n !! i = Some c -> _checked c = v) ->
  children rec idx p v w = Ok w.
Proof.
  intros Hn Hall. unfold children. rewrite (proj2 (deref_Ok _ _ _) Hn). cbn -[node_at].
  apply for_each_id. intros i Hi. apply elem_of_seq in Hi as [_ Hi]. simpl in Hi.
  unfold childRound. rewrite (proj2 (deref_Ok _ _ _) Hn). cbn -[node_at].
  destruct (lookup_lt_is_Some_2 _ _ Hi) as [c Hc].
  rewrite (proj2 (at_Ok _ _ _) Hc). cbn -[node_at].
  by rewrite decide_False by (intros ?; by erewrite Hall in *).
Qed.

Lemma checkedCall_refines (k : nat) :
  forall (w : World) (idx : QModelIndex) (n : SubFolderInfo),
    tree_invariant w -> materialized idx w ->
    node_at (_folders w) (addressOf idx) = Some n ->
    _checked n <> Checked ->
    hasUnchecked (_subs n) = false ->
    length (addressOf idx) <= S k ->
    forall fuel, k < fuel ->
      setData fuel idx Checked w
      = Ok (updated w (checkedCall k (addressOf idx) (_folders w)).1 true
              (checkedCall k (addressOf idx) (_folders w)).2).
Proof.
  induction k as [|k IH]; intros w idx n Hinv Hmat Hn Hne Hall Hlen fuel Hfuel;
    (destruct fuel as [|fuel]; [lia|]);
    rewrite setData_unfold, (setData_body_checked _ _ _ _ Hmat Hn Hne);
    pose proof (tree_invariant_store w (addressOf idx) Checked Hinv) as Hinv1;
    pose proof (materialized_store idx w (addressOf idx) Checked Hmat) as Hmat1;
    pose proof (materialized_indexOfAddress _ _ Hmat) as Hidx;
    pose proof (node_at_store_same w _ Checked _ Hn) as Hn1;
    assert (Hall1 : forall i c, _subs (set_checked Checked n) !! i = Some c ->
                                _checked c = Checked)
      by (by apply hasUnchecked_false);
    (destruct idx as [|row [pinfo|]]; [by apply materialized_invalid in Hmat| |]).
  - pose proof (materialized_sub_nonempty _ _ _ Hmat). simpl in Hlen.
    rewrite length_app in Hlen. destruct pinfo; simpl in Hlen; [done|lia].
  - rewrite parentOfChecked_root. cbn -[node_at store children].
    rewrite (children_noop _ _ _ _ _ _ Hn1 Hall1). cbn -[node_at store].
    rewrite store_updated. rewrite <- Hidx at 1. rewrite emit_updated. reflexivity.
  - pose proof (materialized_sub_nonempty _ _ _ Hmat) as Hpne.
    destruct (parent_sub _ _ _ Hinv1 Hmat1) as (_ & Hpm & Haddr).
    destruct (materialized_node _ _ Hpm) as [pn Hpn]. rewrite Haddr in Hpn.
    rewrite (parentOfChecked_sub _ _ _ _ _ Hinv1 Hmat1 Hpn).
    simpl addressOf in *. simpl checkedCall. rewrite parentAddress_snoc.
    change (modify_at (set_checked Checked) (_folders w) (pinfo ++ [row]))
      with (_folders (store (pinfo ++ [row]) (set_checked Checked) w)).
    rewrite Hpn.
    assert (Hlen' : length pinfo <= S k)
      by (rewrite length_app in Hlen; simpl in Hlen; lia).
    case_decide as Hpc; [destruct (negb (hasUnchecked (_subs pn))) eqn:Hhas;
                         [|case_decide as Hpu]|].
    + pose proof (IH _ _ pn Hinv1 Hpm) as IH'. rewrite Haddr in IH'.
      rewrite (IH' Hpn Hpc); [| by apply negb_true_iff | done | lia].
      cbn -[node_at checkedCall store modify_at children].
      erewrite children_noop; [| |exact Hall1].
      2:{ rewrite updated_folders, checkedCall_frame by apply snoc_not_prefix.
          exact Hn1. }
      cbn -[node_at checkedCall store modify_at].
      rewrite store_updated at 1. rewrite updated_updated.
      rewrite <- Hidx at 1. simpl addressOf. rewrite emit_updated.
      by destruct (checkedCall k pinfo _).
    + pose proof (partialCall_refines k _ _ pn Hinv1 Hpm) as IH'. rewrite Haddr in IH'.
      rewrite (IH' Hpn); [| by rewrite Hpu | done | lia].
      cbn -[node_at partialCall store modify_at children].
      erewrite children_noop; [| |exact Hall1].
      2:{ rewrite updated_folders, partialCall_frame by apply snoc_not_prefix.
          exact Hn1. }
      cbn -[node_at partialCall store modify_at].
      rewrite store_updated at 1. rewrite updated_updated.
      rewrite <- Hidx at 1. simpl addressOf. rewrite emit_updated.
      by destruct (partialCall k pinfo _).
    + cbn -[node_at store children].
      rewrite (children_noop _ _ _ _ _ _ Hn1 Hall1). cbn -[node_at store].
      rewrite store_updated. rewrite <- Hidx at 1. simpl addressOf.
      rewrite emit_updated. reflexivity.
    + cbn -[node_at store children].
      rewrite (children_noop _ _ _ _ _ _ Hn1 Hall1). cbn -[node_at store].
      rewrite store_updated. rewrite <- Hidx at 1. simpl addressOf.
      rewrite emit_updated. reflexivity.
  - rewrite parentOfChecked_root. cbn -[node_at store children].
    rewrite (children_noop _ _ _ _ _ _ Hn1 Hall1). cbn -[node_at store].
    rewrite store_updated. rewrite <- Hidx at 1. rewrite emit_updated. reflexivity.
Qed.

(** ** Refinement: the calls that go down *)

Lemma height_unfold (n : SubFolderInfo) :
  height n = S (foldr max 0 (height <$> _subs n)).
Proof. by destruct n. Qed.

Lemma height_child (n c : SubFolderInfo) : c ∈ _subs n -> height c < height n.
Proof.
  rewrite (height_unfold n). generalize (_subs n). intros subs Hc.
  assert (height c <= foldr max 0 (height <$> subs)); [|lia].
  induction subs as [|x subs IH]; [by apply elem_of_nil in Hc|].
  rewrite fmap_cons. cbn [foldr].
  apply elem_of_cons in Hc as [->|Hc]; [lia|].
  specialize (IH Hc). lia.
Qed.

Lemma cascade_unfold (v : CheckState) (c : SubFolderInfo) :
  cascade v c = set_subs (cascadeChild v <$> _subs c) (set_checked v c).
Proof. by destruct c. Qed.

Lemma cascadeTouched_unfold (v : CheckState) (p : list nat) (c : SubFolderInfo) :
  cascadeTouched v p c = childrenTouched v p 0 (_subs c) ++ [p].
Proof.
  destruct c as [? ? ? ? subs ? ? ? ?]. simpl. f_equal.
  generalize 0. induction subs as [|x subs IH]; intros i; simpl; [done|].
  by rewrite IH.
Qed.

Lemma cascadeChild_changed (v : CheckState) (c : SubFolderInfo) :
  _checked c <> v -> cascadeChild v c = cascade v c.
Proof. intros H. unfold cascadeChild. by rewrite decide_True. Qed.

Lemma cascadeChild_same (v : CheckState) (c : SubFolderInfo) :
  _checked c = v -> cascadeChild v c = c.
Proof. intros H. unfold cascadeChild. by rewrite decide_False by (by intros ?). Qed.

Lemma childRound_step (rec : QModelIndex -> CheckState -> World -> result World)
  (idx : QModelIndex) (p : list nat) (v : CheckState) (i : nat) (w : World)
  (n c : SubFolderInfo) :
  node_at (_folders w) p = Some n -> _subs n !! i = Some c ->
  childRound rec idx p v i w
  = if decide (_checked c ≠ v) then child idx i w ≫= fun c' => rec c' v w else Ok w.
Proof.
  intros Hn Hc. unfold childRound.
  rewrite (proj2 (deref_Ok _ _ _) Hn). cbn -[node_at].
  by rewrite (proj2 (at_Ok _ _ _) Hc).
Qed.

Section down.
Variable fuel : nat.
Variable v : CheckState.

(** What the recursive calls on children are assumed to do. *)
Hypothesis call : forall (w : World) (p : list nat) (i : nat) (pn c : SubFolderInfo),
    tree_invariant w ->
    node_at (_folders w) p = Some pn -> _checked pn = v ->
    _subs pn !! i = Some c -> _checked c <> v -> height c <= fuel ->
    setData fuel (Index i (Some p)) v w
    = Ok (updated w (modify_at (cascade v) (_folders w) (p ++ [i])) true
            (cascadeTouched v (p ++ [i]) c)).

Lemma children_loop (idx : QModelIndex) (rest : list SubFolderInfo) :
  forall (done : list SubFolderInfo) (w : World) (n : SubFolderInfo),
    tree_invariant w -> materialized idx w ->
    node_at (_folders w) (addressOf idx) = Some n ->
    _subs n = done ++ rest -> _checked n = v ->
    Forall (fun c => height c <= fuel) rest ->
    exists d,
      for_each (seq (length done) (length rest))
        (childRound (setData fuel) idx (addressOf idx) v) w
      = Ok (updated w
              (modify_at (fun m => set_subs (done ++ (cascadeChild v <$> rest)) m)
                 (_folders w) (addressOf idx))
              d (childrenTouched v (addressOf idx) (length done) rest)).
Proof.
  induction rest as [|c rest IH]; intros done w n Hinv Hmat Hn Hsubs Hv Hh.
  - exists (_dirty w). simpl. rewrite app_nil_r in *.
    rewrite (modify_at_ext _ id).
    + by rewrite modify_at_id, updated_nil.
    + intros m Hm. assert (m = n) as -> by congruence.
      rewrite <- Hsubs. apply set_subs_id.
  - apply Forall_cons in Hh as [Hc Hh].
    assert (Hci : _subs n !! length done = Some c).
    { rewrite Hsubs. rewrite lookup_app_r by lia. by rewrite Nat.sub_diag. }
    assert (Hp : addressOf idx <> []) by by eapply materialized_address_nonempty.
    cbn [length seq for_each].
    rewrite (childRound_step _ _ _ _ _ _ _ _ Hn Hci).
    destruct (decide (_checked c ≠ v)) as [Hcv|Hcv].
    + destruct (child_resolve idx w n (length done) Hmat Hn) as [Hchild _].
      { by apply lookup_lt_Some in Hci. }
      rewrite Hchild. cbn -[node_at for_each].
      pose proof (call w _ _ n c Hinv Hn Hv Hci Hcv Hc) as Hcall.
      rewrite Hcall. cbn -[node_at for_each].
      set (w1 := updated w _ true _).
      assert (Hfs1 : modify_at (cascade v) (_folders w) (addressOf idx ++ [length done])
                     = modify_at (fun m => set_subs ((done ++ [cascadeChild v c]) ++ rest) m)
                         (_folders w) (addressOf idx)).
      { rewrite modify_at_app by done. apply modify_at_ext.
        intros m Hm. assert (m = n) as -> by congruence.
        rewrite modify_at_single, Hsubs.
        rewrite <- (Nat.add_0_r (length done)), alter_app_r. simpl.
        rewrite cascadeChild_changed by done. by rewrite <- app_assoc. }
      destruct (IH (done ++ [cascadeChild v c]) w1
                  (set_subs ((done ++ [cascadeChild v c]) ++ rest) n)) as [d Hd].
      * by eapply setData_tree_invariant.
      * by eapply setData_materialized.
      * unfold w1. by rewrite updated_folders, Hfs1, node_at_modify_at_same, Hn.
      * done.
      * done.
      * done.
      * exists d. rewrite length_app in Hd. simpl in Hd.
        rewrite Nat.add_1_r in Hd. rewrite Hd. f_equal.
        rewrite Hfs1, modify_at_compose.
        unfold w1. rewrite updated_updated. f_equal.
        -- apply modify_at_ext.
           intros m _. unfold compose. rewrite set_subs_set_subs.
           by rewrite <- app_assoc.
        -- simpl. by rewrite decide_True.
    + apply dec_stable in Hcv. cbn -[node_at for_each].
      destruct (IH (done ++ [cascadeChild v c]) w n) as [d Hd]; try done.
      { rewrite Hsubs, cascadeChild_same by done. by rewrite <- app_assoc. }
      exists d. rewrite length_app in Hd. simpl in Hd.
      rewrite Nat.add_1_r in Hd. rewrite Hd. f_equal. f_equal.
      * apply modify_at_ext. intros m _. by rewrite <- app_assoc.
      * simpl. by rewrite decide_False by (by intros ?).
Qed.

Lemma children_refines (idx : QModelIndex) (w : World) (n : SubFolderInfo) :
  tree_invariant w -> materialized idx w ->
  node_at (_folders w) (addressOf idx) = Some n ->
  _checked n = v -> height n <= S fuel ->
  exists d,
    children (setData fuel) idx (addressOf idx) v w
    = Ok (updated w (modify_at (cascadeChildren v) (_folders w) (addressOf idx)) d
            (childrenTouched v (addressOf idx) 0 (_subs n))).
Proof.
  intros Hinv Hmat Hn Hv Hh. unfold children.
  rewrite (proj2 (deref_Ok _ _ _) Hn). cbn -[node_at].
  destruct (children_loop idx (_subs n) [] w n) as [d Hd]; try done.
  { apply Forall_forall. intros c Hc. apply height_child in Hc. lia. }
  exists d. simpl in Hd. rewrite Hd. f_equal. f_equal.
  apply modify_at_ext. intros m Hm. assert (m = n) as -> by congruence. done.
Qed.
End down.

Lemma height_set_checked (v : CheckState) (c : SubFolderInfo) :
  height (set_checked v c) = height c.
Proof. by destruct c. Qed.

Lemma cascadeChildren_set_checked (v : CheckState) (c : SubFolderInfo) :
  cascadeChildren v (set_checked v c) = cascade v c.
Proof. by rewrite cascade_unfold. Qed.

(** After the parent and the children, the result of a call that
    changed the node at [idx]. *)
Lemma finish_call (w : World) (idx : QModelIndex) (v : CheckState) (d1 d2 : bool)
  (fs2 : list SubFolderInfo) (l1 l2 : list (list nat)) (r : result World) :
  materialized idx w ->
  r = Ok (updated (updated w fs2 d1 l1)
            (modify_at (cascadeChildren v) fs2 (addressOf idx)) d2 l2) ->
  r ≫= (fun w => Ok (emit [DirtyChanged; DataChanged idx] (with_dirty true w)))
  = Ok (updated w (modify_at (cascadeChildren v) fs2 (addressOf idx)) true
          (l1 ++ l2 ++ [addressOf idx])).
Proof.
  intros Hmat ->. cbn -[modify_at]. rewrite updated_updated.
  rewrite <- (materialized_indexOfAddress _ _ Hmat) at 1.
  by rewrite emit_updated, <- app_assoc.
Qed.

Lemma cascade_call_refines (v : CheckState) :
  v <> PartiallyChecked ->
  forall (fuel : nat) (w : World) (p : list nat) (i : nat) (pn c : SubFolderInfo),
    tree_invariant w ->
    node_at (_folders w) p = Some pn -> _checked pn = v ->
    _subs pn !! i = Some c -> _checked c <> v -> height c <= fuel ->
    setData fuel (Index i (Some p)) v w
    = Ok (updated w (modify_at (cascade v) (_folders w) (p ++ [i])) true
            (cascadeTouched v (p ++ [i]) c)).
Proof.
  intros Hv. induction fuel as [|fuel IH]; intros w p i pn c Hinv Hpn Hpv Hci Hcv Hh.
  { rewrite height_unfold in Hh. lia. }
  assert (Hp : p <> []) by (intros ->; by rewrite node_at_nil in Hpn).
  assert (Hmat : materialized (Index i (Some p)) w).
  { apply materialized_sub. by exists pn, c. }
  assert (Hn : node_at (_folders w) (addressOf (Index i (Some p))) = Some c).
  { simpl. by rewrite node_at_snoc, Hpn by done. }
  pose proof (tree_invariant_store w (p ++ [i]) v Hinv) as Hinv1.
  pose proof (materialized_store _ w (p ++ [i]) v Hmat) as Hmat1.
  pose proof (node_at_store_same w _ v _ Hn) as Hn1.
  destruct (node_at_modify_at_Some (set_checked v) (_folders w) (p ++ [i]) p pn
              (set_checked_subs v) Hpn) as (pn1 & Hpn1 & Hcases).
  assert (Hpv1 : _checked pn1 = v).
  { destruct Hcases as [[Hpp _]|[_ Hsame]].
    - apply (f_equal length) in Hpp. rewrite length_app in Hpp. simpl in Hpp. lia.
    - by rewrite (same_fields_checked _ _ Hsame). }
  destruct (children_refines fuel v (IH) (Index i (Some p))
              (store (p ++ [i]) (set_checked v) w) (set_checked v c))
    as [d Hd]; try done.
  { by rewrite height_set_checked. }
  simpl addressOf in Hd.
  rewrite setData_unfold. rewrite cascadeTouched_unfold.
  rewrite (modify_at_ext (cascade v) (cascadeChildren v ∘ set_checked v)).
  2:{ intros m _. unfold compose. by rewrite cascadeChildren_set_checked. }
  rewrite <- modify_at_compose.
  destruct v; [|done|].
  - rewrite (setData_body_unchecked _ _ _ _ Hmat Hn Hcv).
    rewrite (parentOfUnchecked_sub _ _ _ _ _ Hinv1 Hmat1 Hpn1).
    rewrite decide_False by (by rewrite Hpv1). cbn -[children modify_at store].
    erewrite (finish_call w (Index i (Some p)) Unchecked _ d _ [] _ _ Hmat); [done|].
    simpl addressOf. rewrite Hd. by rewrite store_updated.
  - rewrite (setData_body_checked _ _ _ _ Hmat Hn Hcv).
    rewrite (parentOfChecked_sub _ _ _ _ _ Hinv1 Hmat1 Hpn1).
    rewrite decide_False by (by intros ?). cbn -[children modify_at store].
    erewrite (finish_call w (Index i (Some p)) Checked _ d _ [] _ _ Hmat); [done|].
    simpl addressOf. rewrite Hd. by rewrite store_updated.
Qed.

(** ** Refinement: the whole call *)

Lemma above_refines (v : CheckState) (fuel : nat) (idx : QModelIndex) (w : World) :
  tree_invariant w -> materialized idx w ->
  length (addressOf idx) < fuel ->
  exists d,
    parentBlock v (setData fuel) idx w
    = Ok (updated w (above v (addressOf idx) (_folders w)).1 d
            (above v (addressOf idx) (_folders w)).2) /\
    tree_invariant (updated w (above v (addressOf idx) (_folders w)).1 d
                      (above v (addressOf idx) (_folders w)).2) /\
    materialized idx (updated w (above v (addressOf idx) (_folders w)).1 d
                        (above v (addressOf idx) (_folders w)).2).
Proof.
  intros Hinv Hmat Hfuel.
  assert (Hnone : exists d,
             Ok w = Ok (updated w (_folders w) d []) /\
             tree_invariant (updated w (_folders w) d []) /\
             materialized idx (updated w (_folders w) d [])).
  { exists (_dirty w). by rewrite updated_nil. }
  assert (Hcall : forall v' (r : list SubFolderInfo * list (list nat)),
             setData fuel (indexOfAddress (parentAddress (addressOf idx))) v' w
             = Ok (updated w r.1 true r.2) ->
             exists d,
               setData fuel (indexOfAddress (parentAddress (addressOf idx))) v' w
               = Ok (updated w r.1 d r.2) /\
               tree_invariant (updated w r.1 d r.2) /\
               materialized idx (updated w r.1 d r.2)).
  { intros v' r Hr. exists true. split; [done|]. split.
    - by eapply setData_tree_invariant.
    - by eapply setData_materialized. }
  destruct idx as [|row [pinfo|]]; [by apply materialized_invalid in Hmat| |].
  - pose proof (materialized_sub_nonempty _ _ _ Hmat) as Hpne.
    destruct (parent_sub _ _ _ Hinv Hmat) as (_ & Hpm & Haddr).
    destruct (materialized_node _ _ Hpm) as [pn Hpn]. rewrite Haddr in Hpn.
    simpl addressOf in *. rewrite parentAddress_snoc in Hcall.
    assert (Hlen : length pinfo <= S (length (pinfo ++ [row])))
      by (rewrite length_app; simpl; lia).
    unfold above. rewrite parentAddress_snoc, Hpn.
    destruct v; simpl parentBlock.
    + rewrite (parentOfUnchecked_sub _ _ _ _ _ Hinv Hmat Hpn).
      case_decide as Hpc; [|done].
      apply Hcall. pose proof (partialCall_refines (length (pinfo ++ [row])) _ _ pn Hinv Hpm)
        as Href.
      rewrite Haddr in Href. apply Href; [done|by rewrite Hpc|done|done].
    + rewrite (parentOfPartial_sub _ _ _ _ _ Hinv Hmat Hpn).
      case_decide as Hpc; [|done].
      apply Hcall. pose proof (partialCall_refines (length (pinfo ++ [row])) _ _ pn Hinv Hpm)
        as Href.
      rewrite Haddr in Href. by apply Href.
    + rewrite (parentOfChecked_sub _ _ _ _ _ Hinv Hmat Hpn).
      case_decide as Hpc; [|done].
      destruct (negb (hasUnchecked (_subs pn))) eqn:Hhas; [|case_decide as Hpu; [|done]].
      * apply Hcall.
        pose proof (checkedCall_refines (length (pinfo ++ [row])) _ _ pn Hinv Hpm) as Href.
        rewrite Haddr in Href. apply Href; [done|done|by apply negb_true_iff|done|done].
      * apply Hcall.
        pose proof (partialCall_refines (length (pinfo ++ [row])) _ _ pn Hinv Hpm) as Href.
        rewrite Haddr in Href. apply Href; [done|by rewrite Hpu|done|done].
  - unfold above. simpl addressOf. rewrite parentAddress_single, node_at_nil.
    destruct v; simpl parentBlock;
      rewrite ?parentOfChecked_root, ?parentOfUnchecked_root, ?parentOfPartial_root;
      done.
Qed.

(** The fuel that is enough for a call on the node [n] at address [p]. *)
Theorem setData_refines (fuel : nat) (idx : QModelIndex) (v : CheckState) (w : World)
  (n : SubFolderInfo) :
  tree_invariant w -> materialized idx w ->
  node_at (_folders w) (addressOf idx) = Some n ->
  length (addressOf idx) + height n < fuel ->
  setData fuel idx v w
  = Ok (updated w (setDataTree (addressOf idx) v (_folders w)).1 true
          (setDataTree (addressOf idx) v (_folders w)).2).
Proof.
  intros Hinv Hmat Hn Hfuel. destruct fuel as [|fuel]; [lia|].
  pose proof (height_unfold n) as Hheight.
  rewrite setData_unfold. unfold setDataTree. rewrite Hn.
  pose proof (materialized_indexOfAddress _ _ Hmat) as Hidx.
  destruct (decide (_checked n ≠ v)) as [Hne|Heq].
  2:{ apply dec_stable in Heq. rewrite (setData_body_same _ _ _ _ _ Hmat Hn Heq).
      rewrite <- (updated_nil w) at 1. rewrite <- Hidx at 1.
      by rewrite emit_updated. }
  pose proof (tree_invariant_store w (addressOf idx) v Hinv) as Hinv1.
  pose proof (materialized_store idx w (addressOf idx) v Hmat) as Hmat1.
  pose proof (node_at_store_same w _ v _ Hn) as Hn1.
  destruct (above_refines v fuel idx _ Hinv1 Hmat1) as (d & Hup & Hinv2 & Hmat2); [lia|].
  cbv zeta. simpl _folders in *.
  set (up := above v (addressOf idx) (modify_at (set_checked v) (_folders w) (addressOf idx)))
    in *.
  assert (Hn2 : node_at up.1 (addressOf idx) = Some (set_checked v n)).
  { rewrite <- Hn1. unfold up, above.
    assert (Hoff : ~ addressOf idx `prefix_of` parentAddress (addressOf idx)).
    { destruct (addressOf idx) as [|l q _] using rev_ind.
      - by apply materialized_address_nonempty in Hmat.
      - rewrite parentAddress_snoc. apply snoc_not_prefix. }
    destruct (node_at _ (parentAddress _)) as [pn|]; [|done].
    destruct v; repeat case_decide; try destruct (negb _); try done;
      by rewrite ?partialCall_frame, ?checkedCall_frame. }
  destruct v.
  - rewrite (setData_body_unchecked _ _ _ _ Hmat Hn Hne).
    simpl parentBlock in Hup. rewrite Hup. cbn -[children modify_at].
    destruct (children_refines fuel Unchecked
                (cascade_call_refines Unchecked ltac:(done) fuel) idx _
                (set_checked Unchecked n) Hinv2 Hmat2) as [d' Hd]; try done.
    { rewrite height_set_checked. lia. }
    rewrite updated_folders in Hd.
    erewrite (finish_call _ idx Unchecked _ d' _ _ _ _ Hmat1).
    2:{ rewrite Hd. reflexivity. }
    rewrite store_updated, updated_updated. reflexivity.
  - rewrite (setData_body_partial _ _ _ _ Hmat Hn Hne).
    simpl parentBlock in Hup. rewrite Hup. cbn -[modify_at].
    rewrite store_updated, updated_updated. rewrite <- Hidx at 1.
    rewrite emit_updated. reflexivity.
  - rewrite (setData_body_checked _ _ _ _ Hmat Hn Hne).
    simpl parentBlock in Hup. rewrite Hup. cbn -[children modify_at].
    destruct (children_refines fuel Checked
                (cascade_call_refines Checked ltac:(done) fuel) idx _
                (set_checked Checked n) Hinv2 Hmat2) as [d' Hd]; try done.
    { rewrite height_set_checked. lia. }
    rewrite updated_folders in Hd.
    erewrite (finish_call _ idx Checked _ d' _ _ _ _ Hmat1).
    2:{ rewrite Hd. reflexivity. }
    rewrite store_updated, updated_updated. reflexivity.
Qed.


(** ** The tree after a call: what lies above and below the node *)

Lemma checked_modify_at_above (f : SubFolderInfo -> SubFolderInfo)
  (fs : list SubFolderInfo) (a s : list nat) :
  a <> [] -> s <> [] ->
  _checked <$> node_at (modify_at f fs (a ++ s)) a = _checked <$> node_at fs a.
Proof.
  intros Ha Hs. rewrite modify_at_app, node_at_modify_at_same by done.
  by destruct (node_at fs a).
Qed.

Lemma above_frame (v : CheckState) (p : list nat) (fs : list SubFolderInfo)
  (a : list nat) :
  ~ a `prefix_of` parentAddress p -> node_at (above v p fs).1 a = node_at fs a.
Proof.
  intros Ha. unfold above. destruct (node_at fs (parentAddress p)) as [pn|]; [|done].
  destruct v; repeat case_decide; try destruct (negb _); try done;
    by rewrite ?partialCall_frame, ?checkedCall_frame.
Qed.

Lemma not_prefix_parent_self (p : list nat) :
  p <> [] -> ~ p `prefix_of` parentAddress p.
Proof.
  intros Hp. destruct p as [|l q _] using rev_ind; [done|].
  rewrite parentAddress_snoc. apply snoc_not_prefix.
Qed.

Lemma not_prefix_parent_below (p s : list nat) :
  p <> [] -> ~ (p ++ s) `prefix_of` parentAddress p.
Proof.
  intros Hp [x Hx]. apply (not_prefix_parent_self p Hp).
  exists (s ++ x). by rewrite app_assoc.
Qed.

(** The node itself after a call that changed it to [Checked] or
    [Unchecked]: the way down has been applied to it. *)
Lemma setDataTree_node (p : list nat) (v : CheckState) (fs : list SubFolderInfo)
  (n : SubFolderInfo) :
  v <> PartiallyChecked -> p <> [] ->
  node_at fs p = Some n -> _checked n <> v ->
  node_at (setDataTree p v fs).1 p = Some (cascade v n).
Proof.
  intros Hv Hp Hn Hne. unfold setDataTree. rewrite Hn, decide_True by done. cbv zeta.
  assert (H : node_at
                (modify_at (cascadeChildren v)
                   (above v p (modify_at (set_checked v) fs p)).1 p) p
              = Some (cascade v n)).
  { rewrite node_at_modify_at_same, above_frame by (by apply not_prefix_parent_self).
    rewrite node_at_modify_at_same, Hn. simpl.
    by rewrite cascadeChildren_set_checked. }
  by destruct v.
Qed.

Lemma cascade_subs (v : CheckState) (n : SubFolderInfo) :
  _subs (cascade v n) = cascadeChild v <$> _subs n.
Proof. by destruct n. Qed.

Lemma cascade_checked (v : CheckState) (n : SubFolderInfo) : _checked (cascade v n) = v.
Proof. by destruct n. Qed.

Lemma cascadeChild_checked (v : CheckState) (c : SubFolderInfo) :
  _checked (cascadeChild v c) = v.
Proof.
  unfold cascadeChild. destruct (decide (_checked c ≠ v)) as [H|H];
    [apply cascade_checked|by apply dec_stable in H].
Qed.

(** A descendant reached through nodes that were not in state [v] takes
    the state [v]. *)
Lemma cascade_descendant (v : CheckState) (s : list nat) :
  forall (n d : SubFolderInfo),
    node_at (_subs n) s = Some d ->
    (forall s' x d', s = s' ++ x -> s' <> [] -> x <> [] ->
                     node_at (_subs n) s' = Some d' -> _checked d' <> v) ->
    _checked <$> node_at (_subs (cascade v n)) s = Some v.
Proof.
  induction s as [|i s IH]; intros n d Hd Hchain; [done|].
  rewrite cascade_subs. destruct s as [|j s].
  - rewrite node_at_single in Hd. rewrite node_at_single, list_lookup_fmap, Hd.
    simpl. by rewrite cascadeChild_checked.
  - rewrite node_at_cons_cons in Hd. rewrite node_at_cons_cons, list_lookup_fmap.
    destruct (_subs n !! i) as [c|] eqn:Hc; [|done]. cbn -[node_at] in Hd |- *.
    assert (Hcv : _checked c <> v).
    { apply (Hchain [i] (j :: s) c); [done..|]. by rewrite node_at_single. }
    rewrite cascadeChild_changed by done.
    apply (IH c d Hd). intros s' x d' Hs' Hne Hx Hd'.
    apply (Hchain (i :: s') x d'); [by rewrite Hs'|done|done|].
    destruct s' as [|k s']; [done|]. by rewrite node_at_cons_cons, Hc.
Qed.

Lemma cascade_skipped_child (v : CheckState) (n c : SubFolderInfo) (i : nat) :
  _subs n !! i = Some c -> _checked c = v ->
  _subs (cascade v n) !! i = Some c.
Proof.
  intros Hc Hv. rewrite cascade_subs, list_lookup_fmap, Hc. simpl.
  by rewrite cascadeChild_same.
Qed.

(** ** The invariant as a test *)

Lemma addresses_ok_unfold (p : list nat) (n : SubFolderInfo) :
  addresses_ok p n = true <->
  _pathIdx n = p /\
  forall j c, _subs n !! j = Some c -> addresses_ok (p ++ [j]) c = true.
Proof.
  destruct n as [? ? pathIdx ? subs ? ? ? ?]. simpl.
  rewrite andb_true_iff, bool_decide_eq_true.
  assert (Hgo : forall i l,
             (fix go (i : nat) (l : list SubFolderInfo) {struct l} : bool :=
                match l with
                | [] => true
                | c :: l' => addresses_ok (p ++ [i]) c && go (S i) l'
                end) i l = true <->
             forall j c, l !! j = Some c -> addresses_ok (p ++ [i + j]) c = true).
  { intros i l. revert i. induction l as [|x l IH]; intros i.
    - split; [by intros _ j c Hc|done].
    - rewrite andb_true_iff, IH. split.
      + intros [Hx Hl] [|j] c; simpl.
        * intros [= <-]. by rewrite Nat.add_0_r.
        * intros Hc. rewrite <- Nat.add_succ_comm. by apply Hl.
      + intros H. split.
        * specialize (H 0 x eq_refl). by rewrite Nat.add_0_r in H.
        * intros j c Hc. rewrite Nat.add_succ_comm. by apply (H (S j)). }
  rewrite Hgo. done.
Qed.

Lemma addresses_ok_sound (s : list nat) :
  forall (p : list nat) (n d : SubFolderInfo),
    addresses_ok p n = true -> node_at (_subs n) s = Some d -> _pathIdx d = p ++ s.
Proof.
  induction s as [|i s IH]; intros p n d Hok Hd; [done|].
  apply addresses_ok_unfold in Hok as [_ Hsubs].
  destruct s as [|j s].
  - rewrite node_at_single in Hd. by apply Hsubs, addresses_ok_unfold in Hd as [? _].
  - rewrite node_at_cons_cons in Hd. destruct (_subs n !! i) as [c|] eqn:Hc; [|done].
    cbn -[node_at] in Hd. rewrite (IH (p ++ [i]) c d); [|by apply Hsubs|done].
    by rewrite <- app_assoc.
Qed.

Lemma roots_ok_sound (fs : list SubFolderInfo) :
  forall r j n, roots_ok r fs = true -> fs !! j = Some n ->
    (_pathIdx n = [] /\ _subs n = []) \/ addresses_ok [r + j] n = true.
Proof.
  induction fs as [|x fs IH]; intros r j n Hok Hn; [done|].
  simpl in Hok. apply andb_true_iff in Hok as [Hx Hfs].
  destruct j as [|j]; simpl in Hn.
  - injection Hn as ->. rewrite Nat.add_0_r.
    destruct (_pathIdx n), (_subs n); auto.
  - rewrite <- Nat.add_succ_comm. by apply IH.
Qed.

Lemma tree_ok_sound (w : World) : tree_ok w = true -> tree_invariant w.
Proof.
  unfold tree_ok. rewrite andb_true_iff, bool_decide_eq_true. intros [Hlen Hok].
  split; [done|]. intros a m Hm. destruct a as [|r a]; [done|].
  destruct a as [|j a].
  - rewrite node_at_single in Hm.
    destruct (roots_ok_sound _ 0 r m Hok Hm) as [[? ?]|Hm'].
    + right. by repeat split.
    + left. by apply addresses_ok_unfold in Hm' as [? _].
  - rewrite node_at_cons_cons in Hm. destruct (_folders w !! r) as [n|] eqn:Hn; [|done].
    cbn -[node_at] in Hm. left.
    destruct (roots_ok_sound _ 0 r n Hok Hn) as [[_ Hnil]|Hn'].
    + rewrite Hnil in Hm. done.
    + by apply (addresses_ok_sound (j :: a) [r] n m).
Qed.

(** ** Claims about the way down *)

(** C2, as stated, fails: the root of [sampleMixedWorld] is set to
    [Checked]; its child [a] is already [Checked] and is skipped, so the
    grandchild [g] below it stays [Unchecked]. *)
Lemma setData_cascade_counterexample :
  ~ (forall w',
        setData 10 (Index 0 None) Checked sampleMixedWorld = Ok w' ->
        forall a d, [0] `prefix_of` a -> node_at (_folders w') a = Some d ->
                    _checked d = Checked).
Proof.
  intros H.
  specialize (H _ eq_refl [0; 0; 0]
                (sampleNode "g" "a/g" [0; 0; 0] [] false Unchecked)).
  assert (Hp : [0] `prefix_of` [0; 0; 0]) by (by exists [0; 0]).
  specialize (H Hp eq_refl). discriminate H.
Qed.

(** C2, amended. A call with [Checked] or [Unchecked] on a materialized
    node in another state returns; afterwards the node and all of its
    children are in the new state, and so is every deeper descendant
    that is reached through nodes that were not in the new state
    before; a child that was in the new state already is left as it was,
    with everything below it. *)
Theorem setData_cascades_down (v : CheckState) (fuel : nat) (idx : QModelIndex)
  (w : World) (n : SubFolderInfo) :
  v <> PartiallyChecked ->
  tree_invariant w -> materialized idx w ->
  node_at (_folders w) (addressOf idx) = Some n ->
  _checked n <> v ->
  length (addressOf idx) + height n < fuel ->
  exists w',
    setData fuel idx v w = Ok w' /\
    checkedAt w' (addressOf idx) = Some v /\
    (forall i c, _subs n !! i = Some c ->
                 checkedAt w' (addressOf idx ++ [i]) = Some v) /\
    (forall s d,
        node_at (_subs n) s = Some d ->
        (forall s' x d', s = s' ++ x -> s' <> [] -> x <> [] ->
                         node_at (_subs n) s' = Some d' -> _checked d' <> v) ->
        checkedAt w' (addressOf idx ++ s) = Some v) /\
    (forall i c, _subs n !! i = Some c -> _checked c = v ->
                 node_at (_folders w') (addressOf idx ++ [i]) = Some c).
Proof.
  intros Hv Hinv Hmat Hn Hne Hfuel.
  pose proof (materialized_address_nonempty _ _ Hmat) as Hp.
  eexists. split; [by apply (setData_refines fuel idx v w n)|].
  pose proof (setDataTree_node _ v _ n Hv Hp Hn Hne) as Hnode.
  assert (Hbelow : forall s, s <> [] ->
             node_at (setDataTree (addressOf idx) v (_folders w)).1 (addressOf idx ++ s)
             = node_at (_subs (cascade v n)) s).
  { intros s Hs. by rewrite node_at_app, Hnode. }
  assert (Hdesc : forall s d,
             node_at (_subs n) s = Some d ->
             (forall s' x d', s = s' ++ x -> s' <> [] -> x <> [] ->
                              node_at (_subs n) s' = Some d' -> _checked d' <> v) ->
             _checked <$> node_at (setDataTree (addressOf idx) v (_folders w)).1
                            (addressOf idx ++ s) = Some v).
  { intros s d Hd Hchain.
    assert (s <> []) by (intros ->; done).
    rewrite Hbelow by done. by eapply cascade_descendant. }
  unfold checkedAt. rewrite !updated_folders. repeat split.
  - rewrite Hnode. simpl. by rewrite cascade_checked.
  - intros i c Hc. apply (Hdesc [i] c); [by rewrite node_at_single|].
    intros s' x d' Hs' Hs'ne Hx. apply (f_equal length) in Hs'.
    rewrite length_app in Hs'. destruct s', x; simpl in *; try done; lia.
  - exact Hdesc.
  - intros i c Hc Hcv. rewrite Hbelow, node_at_single by done.
    by apply cascade_skipped_child.
Qed.

Lemma setData_cascades_down_witness :
  exists w',
    setData 10 (Index 0 None) Checked sampleMixedWorld = Ok w' /\
    checkedAt w' [0] = Some Checked /\
    checkedAt w' [0; 1] = Some Checked.
Proof.
  destruct (setData_cascades_down Checked 10 (Index 0 None) sampleMixedWorld
              sampleMixedRoot)
    as (w' & Hrun & Hnode & Hchildren & _).
  - discriminate.
  - apply tree_ok_sound. vm_compute. reflexivity.
  - reflexivity.
  - reflexivity.
  - simpl. discriminate.
  - simpl. lia.
  - exists w'. split; [exact Hrun|]. split; [exact Hnode|].
    exact (Hchildren 1 (sampleNode "b" "b" [0; 1] [] false Unchecked) eq_refl).
Defined.

(** ** The way up, on the tree *)

Lemma partialCall_fst (k : nat) (q : list nat) (fs : list SubFolderInfo) :
  (partialCall (S k) q fs).1
  = match node_at (modify_at (set_checked PartiallyChecked) fs q) (parentAddress q) with
    | Some pn =>
        if decide (_checked pn ≠ PartiallyChecked)
        then (partialCall k (parentAddress q)
                (modify_at (set_checked PartiallyChecked) fs q)).1
        else modify_at (set_checked PartiallyChecked) fs q
    | None => modify_at (set_checked PartiallyChecked) fs q
    end.
Proof.
  simpl. destruct (node_at _ (parentAddress q)); [|done]. by case_decide.
Qed.

Lemma checkedCall_fst (k : nat) (q : list nat) (fs : list SubFolderInfo) :
  (checkedCall (S k) q fs).1
  = match node_at (modify_at (set_checked Checked) fs q) (parentAddress q) with
    | Some pn =>
        if decide (_checked pn ≠ Checked) then
          if negb (hasUnchecked (_subs pn))
          then (checkedCall k (parentAddress q) (modify_at (set_checked Checked) fs q)).1
          else if decide (_checked pn = Unchecked)
               then (partialCall k (parentAddress q)
                       (modify_at (set_checked Checked) fs q)).1
               else modify_at (set_checked Checked) fs q
        else modify_at (set_checked Checked) fs q
    | None => modify_at (set_checked Checked) fs q
    end.
Proof.
  simpl. destruct (node_at _ (parentAddress q)); [|done].
  case_decide; [|done]. destruct (negb _); [done|]. by case_decide.
Qed.

Lemma partialCall_target (k : nat) (q : list nat) (fs : list SubFolderInfo) :
  q <> [] -> is_Some (node_at fs q) ->
  _checked <$> node_at (partialCall k q fs).1 q = Some PartiallyChecked.
Proof.
  intros Hq [n Hn].
  assert (H : _checked <$> node_at (modify_at (set_checked PartiallyChecked) fs q) q
              = Some PartiallyChecked)
    by (by rewrite node_at_modify_at_same, Hn).
  destruct k; [exact H|]. rewrite partialCall_fst.
  destruct (node_at _ (parentAddress q)); [case_decide|]; try exact H.
  by rewrite partialCall_frame by (by apply not_prefix_parent_self).
Qed.

Lemma checkedCall_target (k : nat) (q : list nat) (fs : list SubFolderInfo) :
  q <> [] -> is_Some (node_at fs q) ->
  _checked <$> node_at (checkedCall k q fs).1 q = Some Checked.
Proof.
  intros Hq [n Hn].
  assert (H : _checked <$> node_at (modify_at (set_checked Checked) fs q) q
              = Some Checked)
    by (by rewrite node_at_modify_at_same, Hn).
  destruct k; [exact H|]. rewrite checkedCall_fst.
  destruct (node_at _ (parentAddress q)); [case_decide|]; try exact H.
  destruct (negb _); [|case_decide]; try exact H.
  - by rewrite checkedCall_frame by (by apply not_prefix_parent_self).
  - by rewrite partialCall_frame by (by apply not_prefix_parent_self).
Qed.

Lemma is_Some_modify_at (f : SubFolderInfo -> SubFolderInfo) (fs : list SubFolderInfo)
  (q a : list nat) :
  (forall n, _subs (f n) = _subs n) ->
  is_Some (node_at fs a) -> is_Some (node_at (modify_at f fs q) a).
Proof.
  intros Hf [m0 Hm0].
  destruct (node_at_modify_at_Some f fs q a m0 Hf Hm0) as (m & Hm & _). by exists m.
Qed.

(** The change to [PartiallyChecked] goes up through every ancestor
    that is not partially checked, and reaches the first one that is. *)
Lemma partialCall_chain (k : nat) :
  forall (q : list nat) (fs : list SubFolderInfo) (a x : list nat),
    q = a ++ x -> a <> [] -> x <> [] -> length q <= S k ->
    is_Some (node_at fs q) ->
    (forall c y z cn, q = c ++ y -> y <> [] -> c = a ++ z -> z <> [] ->
                      node_at fs c = Some cn -> _checked cn <> PartiallyChecked) ->
    _checked <$> node_at (partialCall k q fs).1 a = Some PartiallyChecked.
Proof.
  induction k as [|k IH]; intros q fs a x Hq Ha Hx Hlen Hnode Hchain.
  { subst q. rewrite length_app in Hlen. destruct a, x; simpl in Hlen; try done; lia. }
  destruct x as [|l x' _] using rev_ind; [done|].
  rewrite app_assoc in Hq. subst q.
  rewrite partialCall_fst, parentAddress_snoc.
  set (fs1 := modify_at (set_checked PartiallyChecked) fs ((a ++ x') ++ [l])).
  assert (Hax : a ++ x' <> []) by (by destruct a).
  assert (Hq'0 : is_Some (node_at fs (a ++ x'))).
  { by apply node_at_prefix_is_Some with (q := [l]). }
  assert (Hq' : is_Some (node_at fs1 (a ++ x'))).
  { by apply is_Some_modify_at. }
  assert (Hck : forall c y, (a ++ x') ++ [l] = c ++ y -> c <> [] -> y <> [] ->
                  _checked <$> node_at fs1 c = _checked <$> node_at fs c).
  { intros c y Hc Hcne Hy. unfold fs1. rewrite Hc. by apply checked_modify_at_above. }
  destruct Hq' as [pn1 Hpn1]. rewrite Hpn1.
  destruct (decide (x' = [])) as [->|Hx'].
  - rewrite app_nil_r in *. case_decide as Hpc.
    + apply partialCall_target; [done|by exists pn1].
    + by rewrite Hpn1, <- Hpc.
  - assert (Hpc : _checked pn1 <> PartiallyChecked).
    { destruct Hq'0 as [pn0 Hpn0].
      pose proof (Hck (a ++ x') [l] eq_refl Hax ltac:(done)) as Hsame.
      rewrite Hpn1, Hpn0 in Hsame. injection Hsame as ->.
      by apply (Hchain (a ++ x') [l] x' pn0). }
    rewrite decide_True by done.
    apply (IH (a ++ x') fs1 a x'); try done.
    + rewrite length_app in Hlen. simpl in Hlen. lia.
    + intros c y z cn Hc Hy -> Hz Hcn.
      assert (Hc0 : is_Some (node_at fs (a ++ z))).
      { apply node_at_prefix_is_Some with (q := y ++ [l]); [by destruct a|].
        rewrite app_assoc, <- Hc. done. }
      destruct Hc0 as [cn0 Hcn0].
      pose proof (Hck (a ++ z) (y ++ [l])) as Hsame.
      rewrite Hcn, Hcn0 in Hsame. rewrite Hc, <- !app_assoc in Hsame.
      specialize (Hsame eq_refl ltac:(by destruct a) ltac:(by destruct y)).
      injection Hsame as ->.
      apply (Hchain (a ++ z) (y ++ [l]) z cn0); try done.
      * by rewrite Hc, <- !app_assoc.
      * by destruct y.
Qed.

Lemma hasUnchecked_alter (subs : list SubFolderInfo) (i : nat) :
  hasUnchecked (alter (set_checked Checked) i subs) = false <->
  forall j c, j <> i -> subs !! j = Some c -> _checked c = Checked.
Proof.
  rewrite hasUnchecked_false. split.
  - intros H j c Hj Hc. apply (H j). by rewrite list_lookup_alter_ne.
  - intros H j c. rewrite list_lookup_alter. case_decide as Hij.
    + subst j. destruct (subs !! i); [|done]. by intros [= <-].
    + intros Hc. by apply (H j).
Qed.

(** ** Claims about the way up *)

Lemma parent_after_store (v : CheckState) (pinfo : list nat) (row : nat)
  (fs : list SubFolderInfo) (pn : SubFolderInfo) :
  pinfo <> [] -> node_at fs pinfo = Some pn ->
  node_at (modify_at (set_checked v) fs (pinfo ++ [row])) pinfo
  = Some (set_subs (alter (set_checked v) row (_subs pn)) pn).
Proof.
  intros Hp Hpn. by rewrite modify_at_app, node_at_modify_at_same, Hpn.
Qed.

Lemma setDataTree_ancestor (v : CheckState) (pinfo : list nat) (row : nat)
  (fs : list SubFolderInfo) (pn n : SubFolderInfo) (a x : list nat) :
  v <> PartiallyChecked ->
  node_at fs pinfo = Some pn -> _subs pn !! row = Some n -> _checked n <> v ->
  pinfo = a ++ x -> a <> [] ->
  _checked <$> node_at (setDataTree (pinfo ++ [row]) v fs).1 a
  = _checked <$> node_at
      (above v (pinfo ++ [row]) (modify_at (set_checked v) fs (pinfo ++ [row]))).1 a.
Proof.
  intros Hv Hpn Hn Hne -> Ha.
  assert (Hnode : node_at fs ((a ++ x) ++ [row]) = Some n).
  { rewrite node_at_snoc by (by destruct a). by rewrite Hpn. }
  rewrite <- app_assoc in *.
  assert (Hs : x ++ [row] <> []) by (by destruct x).
  unfold setDataTree. rewrite Hnode, decide_True by done. cbv zeta.
  destruct v; [|done|]; cbn [fst]; by rewrite checked_modify_at_above.
Qed.

(** C3, as stated, fails twice.  In [sampleDeepWorld] the grandchild
    is unchecked; its parent goes from [Checked] to [PartiallyChecked],
    and so does the root, a further ancestor.  And in [sampleListed] the
    first child of the checked root is unchecked already: the call with
    [Unchecked] on it leaves the root checked. *)
Lemma setData_single_step_counterexample :
  ~ (forall w',
        setData 10 (Index 0 (Some [0; 0])) Unchecked sampleDeepWorld = Ok w' ->
        checkedAt w' [0; 0] = Some PartiallyChecked /\
        checkedAt w' [0] = checkedAt sampleDeepWorld [0]) /\
  ~ (forall w w',
        sampleListed = Ok w ->
        checkedAt w [0] = Some Checked ->
        setData 10 (Index 0 (Some [0])) Unchecked w = Ok w' ->
        checkedAt w' [0] = Some PartiallyChecked).
Proof.
  split.
  - intros H. destruct (H _ eq_refl) as [_ Hroot]. discriminate Hroot.
  - intros H. specialize (H _ _ eq_refl eq_refl eq_refl). discriminate H.
Qed.

(** C3, amended. A call with [Checked] or [Unchecked] on a node below a
    parent returns.  When the node has that state already, the call
    changes no node, so the parent keeps its state.  When the call
    changes the node's state: after [Checked], the parent is [Checked]
    when all the other children are; otherwise it becomes
    [PartiallyChecked] if it was [Unchecked] and keeps its state if not.
    After [Unchecked], the parent becomes [PartiallyChecked] if it was
    [Checked] and keeps its state if not.  The way up does not end at
    the parent: a parent that is set to [Checked] is treated by the
    same call on the parent, and a parent that is changed to
    [PartiallyChecked] passes [PartiallyChecked] on to every further
    ancestor up to the first one that is partially checked already. *)
Theorem setData_parent_step (v : CheckState) (fuel : nat) (row : nat)
  (pinfo : list nat) (w : World) (pn n : SubFolderInfo) :
  v <> PartiallyChecked ->
  tree_invariant w ->
  node_at (_folders w) pinfo = Some pn -> _subs pn !! row = Some n ->
  length pinfo + 1 + height n < fuel ->
  exists w',
    setData fuel (Index row (Some pinfo)) v w = Ok w' /\
    (_checked n = v ->
     _folders w' = _folders w /\ checkedAt w' pinfo = Some (_checked pn)) /\
    (_checked n <> v ->
    (v = Checked ->
     (forall j c, j <> row -> _subs pn !! j = Some c -> _checked c = Checked) ->
     checkedAt w' pinfo = Some Checked) /\
    (v = Checked ->
     ~ (forall j c, j <> row -> _subs pn !! j = Some c -> _checked c = Checked) ->
     checkedAt w' pinfo
     = Some (if decide (_checked pn = Unchecked) then PartiallyChecked
             else _checked pn)) /\
    (v = Unchecked ->
     checkedAt w' pinfo
     = Some (if decide (_checked pn = Checked) then PartiallyChecked
             else _checked pn)) /\
    (v = Checked -> _checked pn <> Checked ->
     (forall j c, j <> row -> _subs pn !! j = Some c -> _checked c = Checked) ->
     exists w'',
       setData fuel (indexOfAddress pinfo) Checked
         (store (pinfo ++ [row]) (set_checked Checked) w) = Ok w'' /\
       forall a x, pinfo = a ++ x -> a <> [] -> checkedAt w' a = checkedAt w'' a) /\
    (checkedAt w' pinfo = Some PartiallyChecked ->
     _checked pn <> PartiallyChecked ->
     forall a x, pinfo = a ++ x -> a <> [] -> x <> [] ->
       (forall c y z cn, pinfo = c ++ y -> y <> [] -> c = a ++ z -> z <> [] ->
                         node_at (_folders w) c = Some cn ->
                         _checked cn <> PartiallyChecked) ->
       checkedAt w' a = Some PartiallyChecked)).
Proof.
  intros Hv Hinv Hpn Hn Hfuel.
  assert (Hp : pinfo <> []) by (intros ->; by rewrite node_at_nil in Hpn).
  assert (Hmat : materialized (Index row (Some pinfo)) w).
  { apply materialized_sub. by exists pn, n. }
  assert (Hnode : node_at (_folders w) (addressOf (Index row (Some pinfo))) = Some n).
  { simpl. by rewrite node_at_snoc, Hpn by done. }
  eexists. split.
  { apply (setData_refines fuel _ v w n); try done. simpl. rewrite length_app. simpl. lia. }
  simpl addressOf. unfold checkedAt. rewrite !updated_folders.
  split.
  { intros Heq. simpl in Hnode. unfold setDataTree.
    rewrite Hnode, decide_False by (intros Hne; by apply Hne).
    cbn [fst]. by rewrite Hpn. }
  intros Hne.
  set (fs := _folders w) in *.
  set (p := pinfo ++ [row]).
  set (fs1 := modify_at (set_checked v) fs p).
  assert (Hanc : forall a x, pinfo = a ++ x -> a <> [] ->
             _checked <$> node_at (setDataTree p v fs).1 a
             = _checked <$> node_at (above v p fs1).1 a).
  { intros a x Hax Ha. by eapply setDataTree_ancestor. }
  pose proof (parent_after_store v pinfo row fs pn Hp Hpn) as Hpn1. fold p fs1 in Hpn1.
  set (pn1 := set_subs (alter (set_checked v) row (_subs pn)) pn) in *.
  assert (Hfs1 : forall a x, pinfo = a ++ x -> a <> [] ->
             _checked <$> node_at fs1 a = _checked <$> node_at fs a).
  { intros a x -> Ha. unfold fs1, p. rewrite <- app_assoc.
    apply checked_modify_at_above; [done|by destruct x]. }
  assert (Hlenp : length pinfo <= S (length p)).
  { unfold p. rewrite length_app. simpl. lia. }
  assert (Hsib : v = Checked ->
             (negb (hasUnchecked (_subs pn1)) = true <->
              forall j c, j <> row -> _subs pn !! j = Some c -> _checked c = Checked)).
  { intros ->. rewrite negb_true_iff. apply hasUnchecked_alter. }
  assert (Habove : above v p fs1
                   = match v with
                     | Checked =>
                         if decide (_checked pn ≠ Checked) then
                           if negb (hasUnchecked (_subs pn1))
                           then checkedCall (length p) pinfo fs1
                           else if decide (_checked pn = Unchecked)
                                then partialCall (length p) pinfo fs1
                                else (fs1, [])
                         else (fs1, [])
                     | Unchecked =>
                         if decide (_checked pn = Checked)
                         then partialCall (length p) pinfo fs1
                         else (fs1, [])
                     | PartiallyChecked =>
                         if decide (_checked pn ≠ PartiallyChecked)
                         then partialCall (length p) pinfo fs1
                         else (fs1, [])
                     end).
  { unfold above, p. by rewrite parentAddress_snoc, Hpn1. }
  assert (Hsame : _checked <$> node_at fs1 pinfo = Some (_checked pn)).
  { by rewrite Hpn1. }
  assert (HisS : is_Some (node_at fs1 pinfo)) by (by rewrite Hpn1).
  rewrite (Hanc pinfo [] (eq_sym (app_nil_r _)) Hp), Habove.
  split; [|split; [|split; [|split]]].
  - intros -> Hall. apply Hsib in Hall; [|done]. rewrite Hall.
    case_decide as Hpc; [by apply checkedCall_target|].
    cbn [fst]. by rewrite Hsame, Hpc.
  - intros -> Hnot.
    assert (Hhas : negb (hasUnchecked (_subs pn1)) = false).
    { destruct (negb _) eqn:E; [|done]. exfalso. apply Hnot. by apply Hsib. }
    rewrite Hhas. destruct (decide (_checked pn = Unchecked)) as [Hpu|Hpu].
    + rewrite decide_True by (by rewrite Hpu). by apply partialCall_target.
    + case_decide; cbn [fst]; by rewrite Hsame.
  - intros ->. case_decide; [by apply partialCall_target|].
    cbn [fst]. by rewrite Hsame.
  - intros -> Hpc Hall.
    pose proof (tree_invariant_store w p Checked Hinv) as Hinv1.
    pose proof (materialized_store _ w p Checked Hmat) as Hmat1.
    destruct (parent_sub _ _ _ Hinv1 Hmat1) as (_ & Hpm & Haddr).
    pose proof (checkedCall_refines (length p) _ _ pn1 Hinv1 Hpm) as Href.
    rewrite Haddr in Href.
    eexists. split.
    { apply Href; try done.
      - by apply negb_true_iff, Hsib.
      - unfold p. rewrite length_app. simpl. lia. }
    intros a x Hax Ha. rewrite updated_folders, (Hanc a x Hax Ha), Habove.
    rewrite decide_True by done. by rewrite (proj2 (Hsib eq_refl) Hall).
  - intros Hfinal Hpp a x Hax Ha Hx Hchain.
    rewrite (Hanc a x Hax Ha), Habove.
    assert (Hgoal : _checked <$> node_at (partialCall (length p) pinfo fs1).1 a
                    = Some PartiallyChecked).
    { apply (partialCall_chain _ pinfo fs1 a x); try done.
      intros c y z cn Hc Hy Hcz Hz Hcn.
      assert (Hc0 : is_Some (node_at fs c)).
      { apply node_at_prefix_is_Some with (q := y); [by subst c; destruct a|].
        rewrite <- Hc. by exists pn. }
      destruct Hc0 as [cn0 Hcn0].
      pose proof (Hfs1 c y Hc ltac:(by subst c; destruct a)) as Hck.
      rewrite Hcn, Hcn0 in Hck. injection Hck as ->.
      by apply (Hchain c y z cn0). }
    destruct v; [|done|].
    + case_decide as Hpc; [done|]. cbn [fst] in Hfinal.
      rewrite Hsame in Hfinal. by injection Hfinal.
    + case_decide as Hpc.
      * destruct (negb (hasUnchecked (_subs pn1))).
        -- rewrite checkedCall_target in Hfinal by done. done.
        -- case_decide as Hpu; [done|]. cbn [fst] in Hfinal.
           rewrite Hsame in Hfinal. by injection Hfinal.
      * cbn [fst] in Hfinal. rewrite Hsame in Hfinal. by injection Hfinal.
Qed.

Lemma setData_parent_step_witness :
  exists w',
    setData 10 (Index 0 (Some [0; 0])) Unchecked sampleDeepWorld = Ok w' /\
    checkedAt w' [0; 0] = Some PartiallyChecked /\
    checkedAt w' [0] = Some PartiallyChecked.
Proof.
  destruct (setData_parent_step Unchecked 10 0 [0; 0] sampleDeepWorld
              sampleDeepChild sampleDeepLeaf)
    as (w' & Hrun & _ & Hchanged).
  - discriminate.
  - apply tree_ok_sound. vm_compute. reflexivity.
  - reflexivity.
  - reflexivity.
  - simpl. lia.
  - destruct (Hchanged ltac:(simpl; discriminate))
      as (_ & _ & Hparent & _ & Hchain).
    exists w'. split; [exact Hrun|].
    pose proof (Hparent eq_refl) as Hp. simpl in Hp. split; [exact Hp|].
    apply (Hchain Hp ltac:(simpl; discriminate) [0] [0] eq_refl);
      [discriminate|discriminate|].
    intros c y z cn Hc Hy -> Hz _. exfalso.
    apply (f_equal length) in Hc. rewrite !length_app in Hc.
    destruct y, z; simpl in Hc; try done; lia.
Defined.


(** ** Which nodes are notified: the way down *)

Lemma childrenTouched_elem (v : CheckState) (p : list nat) (l : list SubFolderInfo) :
  forall (i0 : nat) (a : list nat),
    a ∈ childrenTouched v p i0 l <->
    exists j c, l !! j = Some c /\ _checked c <> v /\
                a ∈ cascadeTouched v (p ++ [i0 + j]) c.
Proof.
  induction l as [|x l IH]; intros i0 a; simpl.
  - split; [by intros ?%elem_of_nil|by intros (j & c & ? & _)].
  - rewrite elem_of_app, IH. split.
    + intros [Hx|(j & c & Hc & Hcv & Ha)].
      * case_decide as Hxv; [|by apply elem_of_nil in Hx].
        exists 0, x. rewrite Nat.add_0_r. done.
      * exists (S j), c. rewrite <- Nat.add_succ_comm. done.
    + intros ([|j] & c & Hc & Hcv & Ha); simpl in Hc.
      * injection Hc as ->. left. rewrite Nat.add_0_r in Ha. by rewrite decide_True.
      * right. exists j, c. rewrite Nat.add_succ_comm. done.
Qed.

(** Every notified address on the way down is the address of a node at
    or below the node the call was made on. *)
Lemma cascadeTouched_below (h : nat) :
  forall (v : CheckState) (p : list nat) (c : SubFolderInfo) (a : list nat),
    height c <= h -> a ∈ cascadeTouched v p c ->
    exists s, a = p ++ s /\ (s = [] \/ is_Some (node_at (_subs c) s)).
Proof.
  induction h as [|h IH]; intros v p c a Hh Ha.
  { rewrite height_unfold in Hh. lia. }
  rewrite cascadeTouched_unfold in Ha. apply elem_of_app in Ha as [Ha|Ha].
  - apply childrenTouched_elem in Ha as (j & cj & Hcj & _ & Ha). simpl in Ha.
    apply IH in Ha as (s & -> & Hs).
    2:{ apply list_elem_of_lookup_2, height_child in Hcj. lia. }
    exists (j :: s). split; [by rewrite <- app_assoc|]. right.
    destruct s as [|k s].
    + rewrite node_at_single, Hcj. by eexists.
    + destruct Hs as [?|Hs]; [done|]. by rewrite node_at_cons_cons, Hcj.
  - apply list_elem_of_singleton in Ha as ->. exists []. split; [by rewrite app_nil_r|by left].
Qed.

Lemma cascadeTouched_prefix (v : CheckState) (p : list nat) (c : SubFolderInfo)
  (a : list nat) :
  a ∈ cascadeTouched v p c -> p `prefix_of` a.
Proof.
  intros Ha. apply (cascadeTouched_below (height c)) in Ha as (s & -> & _); [|done].
  by exists s.
Qed.

Lemma node_at_cascade_subs (v : CheckState) (c : SubFolderInfo) (i : nat) (s : list nat) :
  node_at (_subs (cascade v c)) (i :: s)
  = _subs c !! i ≫= fun ci =>
      match s with
      | [] => Some (cascadeChild v ci)
      | _ :: _ => node_at (_subs (cascadeChild v ci)) s
      end.
Proof.
  rewrite cascade_subs. destruct s as [|k s].
  - rewrite node_at_single, list_lookup_fmap. by destruct (_subs c !! i).
  - rewrite node_at_cons_cons, list_lookup_fmap. by destruct (_subs c !! i).
Qed.

(** A node below the node of the call is notified exactly when its
    state changes. *)
Lemma cascadeTouched_iff (v : CheckState) (s : list nat) :
  forall (p : list nat) (c : SubFolderInfo),
    _checked c <> v ->
    (p ++ s ∈ cascadeTouched v p c <->
     s = [] \/
     exists d, node_at (_subs c) s = Some d /\
               _checked <$> node_at (_subs (cascade v c)) s <> Some (_checked d)).
Proof.
  induction s as [|i s IH]; intros p c Hcv.
  - rewrite app_nil_r, cascadeTouched_unfold, elem_of_app, list_elem_of_singleton.
    split; [by left|by right].
  - rewrite cascadeTouched_unfold, elem_of_app, list_elem_of_singleton.
    rewrite childrenTouched_elem. cbn [Nat.add].
    change (p ++ i :: s) with (p ++ [i] ++ s). rewrite app_assoc.
    split.
    + intros [(j & cj & Hcj & Hcjv & Ha)|Heq].
      2:{ apply (f_equal length) in Heq. rewrite !length_app in Heq. simpl in Heq. lia. }
      assert (j = i) as ->.
      { apply cascadeTouched_prefix in Ha as [x Hx].
        rewrite <- !app_assoc in Hx. apply app_inv_head in Hx. by injection Hx. }
      apply IH in Ha; [|done]. right.
      rewrite node_at_cascade_subs, Hcj. cbn -[node_at].
      rewrite cascadeChild_changed by done.
      destruct Ha as [->|(d & Hd & Hch)].
      * exists cj. rewrite node_at_single. split; [done|]. simpl.
        rewrite cascade_checked. congruence.
      * destruct s as [|k s]; [done|].
        exists d. by rewrite node_at_cons_cons, Hcj.
    + intros [?|(d & Hd & Hch)]; [done|]. left.
      rewrite node_at_cascade_subs in Hch.
      destruct (_subs c !! i) as [ci|] eqn:Hci.
      2:{ destruct s; [by rewrite node_at_single, Hci in Hd|
                       by rewrite node_at_cons_cons, Hci in Hd]. }
      cbn -[node_at] in Hch.
      assert (Hciv : _checked ci <> v).
      { intros Hciv. rewrite cascadeChild_same in Hch by done.
        destruct s as [|k s].
        - rewrite node_at_single, Hci in Hd. injection Hd as ->. done.
        - rewrite node_at_cons_cons, Hci in Hd. cbn -[node_at] in Hd.
          by rewrite Hd in Hch. }
      exists i, ci. split; [done|]. split; [done|].
      apply IH; [done|]. rewrite cascadeChild_changed in Hch by done.
      destruct s as [|k s]; [by left|right].
      rewrite node_at_cons_cons, Hci in Hd. cbn -[node_at] in Hd.
      by exists d.
Qed.

Lemma NoDup_childrenTouched (v : CheckState) (p : list nat) (l : list SubFolderInfo) :
  (forall j c, l !! j = Some c -> forall q, NoDup (cascadeTouched v q c)) ->
  forall i0, NoDup (childrenTouched v p i0 l).
Proof.
  induction l as [|x l IH]; intros Hl i0; simpl; [constructor|].
  apply NoDup_app. split; [|split].
  - case_decide; [|constructor]. by apply (Hl 0 x).
  - intros a Ha Ha'. case_decide; [|by apply elem_of_nil in Ha].
    apply cascadeTouched_prefix in Ha as [s ->].
    apply childrenTouched_elem in Ha' as (j & c & _ & _ & Ha').
    apply cascadeTouched_prefix in Ha' as [s' Hs'].
    rewrite <- !app_assoc in Hs'. apply app_inv_head in Hs'.
    injection Hs' as Hs' _. lia.
  - apply IH. intros j c Hc. by apply (Hl (S j)).
Qed.

Lemma NoDup_cascadeTouched (h : nat) :
  forall (v : CheckState) (p : list nat) (c : SubFolderInfo),
    height c <= h -> NoDup (cascadeTouched v p c).
Proof.
  induction h as [|h IH]; intros v p c Hh.
  { rewrite height_unfold in Hh. lia. }
  rewrite cascadeTouched_unfold. apply NoDup_app. split; [|split].
  - apply NoDup_childrenTouched. intros j cj Hcj q. apply IH.
    apply list_elem_of_lookup_2, height_child in Hcj. lia.
  - intros a Ha Ha'. apply list_elem_of_singleton in Ha' as ->.
    apply childrenTouched_elem in Ha as (j & cj & _ & _ & Ha).
    apply cascadeTouched_prefix in Ha as [s Hs]. apply (f_equal length) in Hs.
    rewrite !length_app in Hs. simpl in Hs. lia.
  - apply NoDup_singleton.
Qed.

(** ** Which nodes are notified: the way up *)

Lemma node_at_modify_at_apart (f : SubFolderInfo -> SubFolderInfo)
  (fs : list SubFolderInfo) (q a : list nat) :
  ~ a `prefix_of` q -> ~ q `prefix_of` a ->
  node_at (modify_at f fs q) a = node_at fs a.
Proof.
  revert fs a. induction q as [|i q IH]; intros fs a Ha Hq.
  { exfalso. apply Hq, prefix_nil. }
  destruct a as [|k a]; [exfalso; apply Ha, prefix_nil|].
  destruct (decide (k = i)) as [->|Hki].
  - destruct q as [|j q]; [exfalso; apply Hq; by exists a|].
    rewrite modify_at_cons_cons. destruct a as [|k' a].
    { exfalso. apply Ha. by exists (j :: q). }
    rewrite !node_at_cons_cons, list_lookup_alter_eq.
    destruct (fs !! i) as [n|]; [|done]. cbn -[node_at modify_at].
    apply IH.
    + intros [x Hx]. apply Ha. exists x. simpl. by rewrite Hx.
    + intros [x Hx]. apply Hq. exists x. simpl. by rewrite Hx.
  - assert (Hl : forall g, alter g i fs !! k = fs !! k).
    { intros g. by apply list_lookup_alter_ne. }
    destruct q as [|j q]; [rewrite modify_at_single|rewrite modify_at_cons_cons];
      (destruct a as [|k' a];
       [by rewrite !node_at_single, Hl|by rewrite !node_at_cons_cons, Hl]).
Qed.

Lemma parentAddress_prefix (q : list nat) : parentAddress q `prefix_of` q.
Proof.
  destruct q as [|l q _] using rev_ind; [done|].
  rewrite parentAddress_snoc. by exists [l].
Qed.

Lemma prefix_parentAddress (a q : list nat) :
  a `prefix_of` q -> a <> q -> a `prefix_of` parentAddress q.
Proof.
  intros [x ->] Hne. destruct x as [|l x _] using rev_ind.
  - by rewrite app_nil_r in Hne.
  - rewrite app_assoc, parentAddress_snoc. by exists x.
Qed.

Lemma prefix_strict_split (a q : list nat) :
  a `prefix_of` q -> a <> q -> exists x, q = a ++ x /\ x <> [].
Proof.
  intros [x ->] Hne. exists x. split; [done|]. intros ->. by rewrite app_nil_r in Hne.
Qed.

Lemma touched_ok_nil (q : list nat) (fs : list SubFolderInfo) : touched_ok q fs (fs, []).
Proof.
  split; [|split]; simpl.
  - by intros a ?%elem_of_nil.
  - constructor.
  - intros a _ _. split; [by intros ?%elem_of_nil|done].
Qed.

(** One level of a way up: the node at [q] is changed to [v], then the
    rest [rec] of the way up, if any, starts at the parent. *)
Lemma touched_step (v : CheckState) (q : list nat) (fs : list SubFolderInfo)
  (n : SubFolderInfo) (rec : list SubFolderInfo * list (list nat)) :
  q <> [] -> node_at fs q = Some n -> _checked n <> v ->
  (rec = (modify_at (set_checked v) fs q, []) \/
   (touched_ok (parentAddress q) (modify_at (set_checked v) fs q) rec /\
    node_at rec.1 q = node_at (modify_at (set_checked v) fs q) q)) ->
  touched_ok q fs (rec.1, rec.2 ++ [q]).
Proof.
  intros Hq Hn Hne Hrec.
  set (fs1 := modify_at (set_checked v) fs q) in *.
  assert (F1 : forall a, a <> [] -> a `prefix_of` q -> a <> q ->
             _checked <$> node_at fs1 a = _checked <$> node_at fs a).
  { intros a Ha Hpre Haq. destruct (prefix_strict_split a q Hpre Haq) as (x & -> & Hx).
    by apply checked_modify_at_above. }
  assert (F2 : _checked <$> node_at fs1 q <> _checked <$> node_at fs q).
  { unfold fs1. rewrite node_at_modify_at_same, Hn. simpl. congruence. }
  assert (Hrec' : touched_ok (parentAddress q) fs1 rec /\ node_at rec.1 q = node_at fs1 q).
  { destruct Hrec as [->|?]; [|done]. split; [apply touched_ok_nil|done]. }
  clear Hrec. destruct Hrec' as [(He & Hnd & Hiff) Hframe].
  assert (Hqn : q ∉ rec.2).
  { intros Hin. apply He in Hin as [_ Hpre]. by apply (not_prefix_parent_self q). }
  split; [|split]; simpl.
  - intros a [Ha|Ha]%elem_of_app.
    + apply He in Ha as [? Hpre]. split; [done|].
      etrans; [exact Hpre|apply parentAddress_prefix].
    + apply list_elem_of_singleton in Ha as ->. done.
  - apply NoDup_app. split; [done|]. split; [|apply NoDup_singleton].
    intros a Ha Ha'. apply list_elem_of_singleton in Ha' as ->. done.
  - intros a Ha Hpre. rewrite elem_of_app, list_elem_of_singleton.
    destruct (decide (a = q)) as [->|Haq].
    + split; [intros _|by right]. by rewrite Hframe.
    + rewrite <- (F1 a Ha Hpre Haq).
      rewrite <- (Hiff a Ha (prefix_parentAddress _ _ Hpre Haq)).
      split; [by intros [?|?]|by left].
Qed.

Lemma parent_nonempty (fs : list SubFolderInfo) (q : list nat) (pn : SubFolderInfo) :
  node_at fs (parentAddress q) = Some pn -> parentAddress q <> [].
Proof. intros H Hnil. by rewrite Hnil in H. Qed.

Lemma partialCall_touched (k : nat) :
  forall (q : list nat) (fs : list SubFolderInfo) (n : SubFolderInfo),
    q <> [] -> node_at fs q = Some n -> _checked n <> PartiallyChecked ->
    touched_ok q fs (partialCall k q fs).
Proof.
  induction k as [|k IH]; intros q fs n Hq Hn Hne.
  - apply (touched_step PartiallyChecked q fs n
             (modify_at (set_checked PartiallyChecked) fs q, [])); try done. by left.
  - simpl.
    apply (touched_step PartiallyChecked q fs n
             (match node_at (modify_at (set_checked PartiallyChecked) fs q)
                      (parentAddress q) with
              | Some pn =>
                  if decide (_checked pn ≠ PartiallyChecked)
                  then partialCall k (parentAddress q)
                         (modify_at (set_checked PartiallyChecked) fs q)
                  else (modify_at (set_checked PartiallyChecked) fs q, [])
              | None => (modify_at (set_checked PartiallyChecked) fs q, [])
              end)); try done.
    destruct (node_at _ (parentAddress q)) as [pn|] eqn:Hpn; [|by left].
    case_decide as Hpc; [right|by left]. split.
    + eapply IH; [by eapply parent_nonempty|exact Hpn|done].
    + by apply partialCall_frame, not_prefix_parent_self.
Qed.

Lemma checkedCall_touched (k : nat) :
  forall (q : list nat) (fs : list SubFolderInfo) (n : SubFolderInfo),
    q <> [] -> node_at fs q = Some n -> _checked n <> Checked ->
    touched_ok q fs (checkedCall k q fs).
Proof.
  induction k as [|k IH]; intros q fs n Hq Hn Hne.
  - apply (touched_step Checked q fs n
             (modify_at (set_checked Checked) fs q, [])); try done. by left.
  - simpl.
    apply (touched_step Checked q fs n
             (match node_at (modify_at (set_checked Checked) fs q)
                      (parentAddress q) with
              | Some pn =>
                  if decide (_checked pn ≠ Checked) then
                    if negb (hasUnchecked (_subs pn))
                    then checkedCall k (parentAddress q)
                           (modify_at (set_checked Checked) fs q)
                    else if decide (_checked pn = Unchecked)
                         then partialCall k (parentAddress q)
                                (modify_at (set_checked Checked) fs q)
                         else (modify_at (set_checked Checked) fs q, [])
                  else (modify_at (set_checked Checked) fs q, [])
              | None => (modify_at (set_checked Checked) fs q, [])
              end)); try done.
    destruct (node_at _ (parentAddress q)) as [pn|] eqn:Hpn; [|by left].
    case_decide as Hpc; [|by left].
    destruct (negb _); [|case_decide as Hpu; [|by left]]; right; split.
    + eapply IH; [by eapply parent_nonempty|exact Hpn|done].
    + by apply checkedCall_frame, not_prefix_parent_self.
    + eapply partialCall_touched; [by eapply parent_nonempty|exact Hpn|].
      by rewrite Hpu.
    + by apply partialCall_frame, not_prefix_parent_self.
Qed.

Lemma above_touched (v : CheckState) (p : list nat) (fs : list SubFolderInfo) :
  touched_ok (parentAddress p) fs (above v p fs).
Proof.
  unfold above. destruct (node_at fs (parentAddress p)) as [pn|] eqn:Hpn;
    [|apply touched_ok_nil].
  pose proof (parent_nonempty _ _ _ Hpn) as Hq.
  destruct v.
  - case_decide as Hpc; [|apply touched_ok_nil].
    eapply partialCall_touched; [done|exact Hpn|by rewrite Hpc].
  - case_decide as Hpc; [|apply touched_ok_nil].
    by eapply partialCall_touched.
  - case_decide as Hpc; [|apply touched_ok_nil].
    destruct (negb _); [by eapply checkedCall_touched|].
    case_decide as Hpu; [|apply touched_ok_nil].
    eapply partialCall_touched; [done|exact Hpn|by rewrite Hpu].
Qed.

(** ** Which nodes are notified: the whole call *)

Lemma childrenTouched_cascadeTouched (v : CheckState) (p a : list nat) (n : SubFolderInfo) :
  a <> p -> (a ∈ childrenTouched v p 0 (_subs n) <-> a ∈ cascadeTouched v p n).
Proof.
  intros Hne. rewrite cascadeTouched_unfold, elem_of_app, list_elem_of_singleton.
  split; [by left|by intros [?|?]].
Qed.

Lemma setDataTree_touched (p : list nat) (v : CheckState) (fs : list SubFolderInfo)
  (n : SubFolderInfo) :
  p <> [] -> node_at fs p = Some n ->
  NoDup (setDataTree p v fs).2 /\
  (forall a, a ∈ (setDataTree p v fs).2 -> is_Some (node_at fs a)) /\
  (forall a, is_Some (node_at fs a) ->
     (a ∈ (setDataTree p v fs).2 <->
      a = p \/ _checked <$> node_at (setDataTree p v fs).1 a <> _checked <$> node_at fs a)).
Proof.
  intros Hp Hn. unfold setDataTree. rewrite Hn.
  destruct (decide (_checked n ≠ v)) as [Hne|Heq].
  2:{ simpl. split; [apply NoDup_singleton|]. split.
      - intros a ->%list_elem_of_singleton. by eexists.
      - intros a _. rewrite list_elem_of_singleton. split; [by left|by intros [?|?]]. }
  cbv zeta. set (fs1 := modify_at (set_checked v) fs p).
  destruct (above_touched v p fs1) as (He & Hnd & Hiff).
  set (up := above v p fs1) in *.
  set (kids := match v with
               | PartiallyChecked => []
               | _ => childrenTouched v p 0 (_subs n)
               end).
  set (fs' := match v with
              | PartiallyChecked => up.1
              | _ => modify_at (cascadeChildren v) up.1 p
              end).
  assert (Hr : match v with
               | PartiallyChecked => (up.1, up.2 ++ [p])
               | _ => (modify_at (cascadeChildren v) up.1 p,
                       up.2 ++ childrenTouched v p 0 (_subs n) ++ [p])
               end = (fs', up.2 ++ kids ++ [p])).
  { unfold fs', kids. by destruct v. }
  rewrite Hr. clear Hr. cbn [fst snd].
  (* the three kinds of notified addresses *)
  assert (Hup : forall a, a ∈ up.2 ->
             a <> [] /\ a `prefix_of` p /\ length a < length p).
  { intros a Ha. apply He in Ha as [Hane [x Hx]]. split; [done|].
    destruct p as [|l q _] using rev_ind; [done|].
    rewrite parentAddress_snoc in Hx. subst q. split.
    - exists (x ++ [l]). by rewrite app_assoc.
    - rewrite !length_app. simpl. lia. }
  assert (Hkids : forall a, a ∈ kids ->
             a <> p /\ a ∈ cascadeTouched v p n /\ v <> PartiallyChecked).
  { intros a Ha.
    assert (a ∈ childrenTouched v p 0 (_subs n) /\ v <> PartiallyChecked) as [Ha' Hv].
    { unfold kids in Ha. destruct v; [done|by apply elem_of_nil in Ha|done]. }
    assert (Hap : a <> p).
    { intros ->. apply childrenTouched_elem in Ha' as (j & c & _ & _ & Ha').
      apply cascadeTouched_prefix in Ha' as [s Hs]. apply (f_equal length) in Hs.
      rewrite !length_app in Hs. simpl in Hs. lia. }
    split; [done|]. split; [|done]. by apply childrenTouched_cascadeTouched. }
  assert (Hkids_below : forall a, a ∈ kids ->
             exists s, a = p ++ s /\ s <> [] /\ is_Some (node_at (_subs n) s)).
  { intros a Ha. destruct (Hkids a Ha) as (Hap & Hc & _).
    apply (cascadeTouched_below (height n)) in Hc as (s & -> & Hs); [|done].
    exists s. split; [done|]. destruct Hs as [->|Hs].
    - by rewrite app_nil_r in Hap.
    - split; [|done]. intros ->. by destruct Hs. }
  assert (Hbelow_fs : forall s, s <> [] -> node_at fs (p ++ s) = node_at (_subs n) s).
  { intros s Hs. by rewrite node_at_app, Hn. }
  assert (Hfs1_anc : forall a x, p = a ++ x -> a <> [] -> x <> [] ->
             _checked <$> node_at fs1 a = _checked <$> node_at fs a).
  { intros a x -> Ha Hx. by apply checked_modify_at_above. }
  assert (Hfs'_anc : forall a x, p = a ++ x -> a <> [] -> x <> [] ->
             _checked <$> node_at fs' a = _checked <$> node_at up.1 a).
  { intros a x Hax Ha Hx. unfold fs'. generalize up.1. intros U. rewrite Hax.
    destruct v; [|done|]; by apply checked_modify_at_above. }
  split; [|split].
  - (* no address twice *)
    apply NoDup_app. split; [done|]. split.
    + intros a Ha [Hk|Hpp]%elem_of_app.
      * apply Hup in Ha as (_ & _ & Hlen).
        apply Hkids_below in Hk as (s & -> & _). rewrite length_app in Hlen. lia.
      * apply list_elem_of_singleton in Hpp as ->. apply Hup in Ha as (_ & _ & Hlen). lia.
    + apply NoDup_app. split; [|split; [|apply NoDup_singleton]].
      * unfold kids. destruct v; [|constructor|];
          (apply NoDup_childrenTouched; intros j c _ q;
           by apply (NoDup_cascadeTouched (height c))).
      * intros a Ha ->%list_elem_of_singleton. by apply Hkids in Ha as [? _].
  - (* notified addresses are addresses of nodes *)
    intros a [Ha|[Ha|Ha]%elem_of_app]%elem_of_app.
    + apply Hup in Ha as (Hane & [x ->] & _).
      apply node_at_prefix_is_Some with (q := x); [done|by eexists].
    + apply Hkids_below in Ha as (s & -> & Hs & Hnode). by rewrite Hbelow_fs.
    + apply list_elem_of_singleton in Ha as ->. by eexists.
  - (* notified exactly when changed *)
    intros a [m Hm]. rewrite !elem_of_app, list_elem_of_singleton.
    assert (Hane : a <> []) by (intros ->; done).
    destruct (decide (a = p)) as [->|Hap]; [split; [by left|by right; right]|].
    destruct (decide (a `prefix_of` p)) as [Hpre|Hnpre].
    + (* a proper ancestor *)
      destruct (prefix_strict_split a p Hpre Hap) as (x & Hax & Hx).
      rewrite (Hfs'_anc a x Hax Hane Hx), <- (Hfs1_anc a x Hax Hane Hx).
      rewrite <- (Hiff a Hane (prefix_parentAddress _ _ Hpre Hap)).
      split; [intros [?|[Hk|?]]; [by right| |done]|intros [?|?]; [done|by left]].
      apply Hkids_below in Hk as (s & Hs & _). subst a. exfalso.
      destruct Hpre as [y Hy]. apply (f_equal length) in Hy.
      rewrite !length_app in Hy. apply (f_equal length) in Hax.
      rewrite !length_app in Hax. destruct x; [done|]. simpl in Hax. lia.
    + assert (Hnup : a ∉ up.2).
      { intros Ha. by apply Hup in Ha as (_ & ? & _). }
      destruct (decide (p `prefix_of` a)) as [[s ->]|Hnext].
      * (* a proper descendant *)
        assert (Hs : s <> []) by (intros ->; by rewrite app_nil_r in Hap).
        rewrite Hbelow_fs in Hm by done.
        destruct (decide (v = PartiallyChecked)) as [->|Hv].
        -- assert (Hsame : node_at fs' (p ++ s) = node_at fs (p ++ s)).
           { unfold fs', up. rewrite above_frame by (by apply not_prefix_parent_below).
             apply node_at_modify_at_off; [done|].
             intros [y Hy]. apply (f_equal length) in Hy. rewrite !length_app in Hy.
             destruct s; [done|]. simpl in Hy. lia. }
           rewrite Hsame. split; [intros [?|[Hk|?]]; try done|by intros [?|?]].
           by apply Hkids in Hk as (_ & _ & ?).
        -- assert (Hfs' : node_at fs' (p ++ s) = node_at (_subs (cascade v n)) s).
           { assert (Hnode : node_at fs' p = Some (cascade v n)).
             { pose proof (setDataTree_node p v fs n Hv Hp Hn Hne) as H.
               unfold setDataTree in H. rewrite Hn, decide_True in H by done.
               unfold fs', up, fs1. by destruct v. }
             by rewrite node_at_app, Hnode. }
           rewrite Hfs', Hbelow_fs, Hm by done. simpl.
           assert (Hk : p ++ s ∈ kids <-> p ++ s ∈ cascadeTouched v p n).
           { unfold kids. destruct v; [|done|]; by apply childrenTouched_cascadeTouched. }
           rewrite Hk, (cascadeTouched_iff v s p n Hne).
           split.
           ++ intros [?|[[?|(d & Hd & Hch)]|?]]; try done.
              right. congruence.
           ++ intros [?|Hch]; [done|]. right. left. right. by exists m.
      * (* a node elsewhere *)
        assert (Hsame : node_at fs' a = node_at fs a).
        { assert (H1 : node_at up.1 a = node_at fs a).
          { unfold up. rewrite above_frame.
            - by apply node_at_modify_at_apart.
            - intros Hpa. apply Hnpre. etrans; [exact Hpa|apply parentAddress_prefix]. }
          unfold fs'. destruct v; [|done|];
            by rewrite node_at_modify_at_apart. }
        rewrite Hsame. split; [|by intros [?|?]].
        intros [?|[Hk|?]]; try done.
        apply Hkids_below in Hk as (s & -> & _). exfalso. apply Hnext. by exists s.
Qed.

(** ** Claims about the notifications *)

(** C7, as stated, fails: the root of [sampleDeepWorld] is [Checked]
    already; the call with [Checked] still emits signals. *)
Lemma setData_same_state_counterexample :
  ~ (forall w',
        setData 10 (Index 0 None) Checked sampleDeepWorld = Ok w' ->
        effects w' = effects sampleDeepWorld).
Proof. intros H. specialize (H _ eq_refl). discriminate H. Qed.

(** C7, amended. A call on a materialized node returns, marks the model
    dirty and emits, for each address in [touched], [dirtyChanged] and
    one [dataChanged]: no address twice, only addresses of nodes, and a
    node is in [touched] exactly when it is the node of the call or its
    state has changed.  When the node is already in the wanted state,
    the tree is left as it is and only the node of the call is
    notified. *)
Theorem setData_notifies (fuel : nat) (idx : QModelIndex) (v : CheckState) (w : World)
  (n : SubFolderInfo) :
  tree_invariant w -> materialized idx w ->
  node_at (_folders w) (addressOf idx) = Some n ->
  length (addressOf idx) + height n < fuel ->
  exists w' touched,
    setData fuel idx v w = Ok w' /\
    _dirty w' = true /\
    effects w' = effects w ++ notifications touched /\
    NoDup touched /\
    (forall a, a ∈ touched -> is_Some (node_at (_folders w) a)) /\
    (forall a, is_Some (node_at (_folders w) a) ->
       (a ∈ touched <-> a = addressOf idx \/ checkedAt w' a <> checkedAt w a)) /\
    (_checked n = v -> _folders w' = _folders w /\ touched = [addressOf idx]).
Proof.
  intros Hinv Hmat Hn Hfuel.
  pose proof (materialized_address_nonempty _ _ Hmat) as Hp.
  destruct (setDataTree_touched (addressOf idx) v (_folders w) n Hp Hn)
    as (Hnd & Hex & Hiff).
  eexists _, _. split; [by apply (setData_refines fuel idx v w n)|].
  repeat split; try done.
  - by apply Hiff.
  - by apply Hiff.
  - unfold setDataTree. rewrite Hn. by rewrite decide_False by (by intros ?).
  - unfold setDataTree. rewrite Hn. by rewrite decide_False by (by intros ?).
Qed.

Lemma setData_notifies_witness :
  exists w',
    setData 10 (Index 0 None) Checked sampleDeepWorld = Ok w' /\
    _folders w' = _folders sampleDeepWorld /\
    effects w' = [DirtyChanged; DataChanged (Index 0 None)].
Proof.
  destruct (setData_notifies 10 (Index 0 None) Checked sampleDeepWorld sampleDeepRoot)
    as (w' & touched & Hrun & _ & Heff & _ & _ & _ & Hsame).
  - apply tree_ok_sound. vm_compute. reflexivity.
  - reflexivity.
  - reflexivity.
  - simpl. lia.
  - exists w'. destruct (Hsame eq_refl) as [Hfs ->].
    split; [exact Hrun|]. split; [exact Hfs|exact Heff].
Defined.


(** ** The state of a new child *)

Lemma blackListState_spec (path : string) (blackList : list string) (init : CheckState) :
  blackListState path blackList init
  = if bool_decide (path ∈ blackList) || bool_decide ("/" ∈ blackList) then Unchecked
    else if existsb (fun str => QString.startsWith str path) blackList
         then PartiallyChecked
         else init.
Proof.
  revert init. induction blackList as [|str rest IH]; intros init; simpl.
  - done.
  - destruct (decide (str = path)) as [->|Hsp].
    { rewrite bool_decide_eq_true_2 by done. simpl.
      by rewrite (bool_decide_eq_true_2 (path ∈ path :: rest)) by left. }
    rewrite (bool_decide_eq_false_2 (str = path)) by done. simpl.
    destruct (decide (str = "/")) as [->|Hsm].
    { rewrite bool_decide_eq_true_2 by done.
      rewrite (bool_decide_eq_true_2 ("/" ∈ "/" :: rest)) by left.
      by rewrite orb_true_r. }
    rewrite (bool_decide_eq_false_2 (str = "/")) by done.
    assert (Hin : forall x, x <> str ->
               bool_decide (x ∈ str :: rest) = bool_decide (x ∈ rest)).
    { intros x Hx. apply bool_decide_ext. rewrite elem_of_cons.
      split; [by intros [?|?]|by right]. }
    rewrite !Hin by done.
    destruct (QString.startsWith str path); rewrite IH; simpl; [|done].
    destruct (_ || _); [done|].
    by destruct (existsb (fun str0 => QString.startsWith str0 path) rest).
Qed.

Lemma splitSkipEmpty_empty (sep : ascii) : QString.splitSkipEmpty "" sep = [].
Proof. reflexivity. Qed.

Lemma isEmpty_true (s : string) : QString.isEmpty s = true <-> s = "".
Proof. by destruct s. Qed.

(** One round of the loop of [slotUpdateDirectories] that returns: the
    entry does not reduce to the empty path, the counter goes up by one
    and one child is appended to the parent. *)
Lemma addSubFolder_Ok (parentInfo : list nat) (sizes : gmap string Z)
  (pathToRemove path : string) (i i' : nat) (w w' : World) :
  addSubFolder parentInfo sizes pathToRemove path (i, w) = Ok (i', w') ->
  exists pn name checked,
    node_at (_folders w) parentInfo = Some pn /\
    i' = S i /\
    QString.remove path pathToRemove <> "" /\
    last_ (QString.splitSkipEmpty (QString.remove path pathToRemove) "/") = Ok name /\
    (if decide (_checked pn = Unchecked) then checked = Unchecked
     else exists r f,
         _pathIdx pn !! 0 = Some r /\ folderMap w !! r = Some f /\
         checked = blackListState (QString.remove path pathToRemove)
                     (selectiveSyncBlackList f) Checked) /\
    w' = store parentInfo
           (fun n =>
              set_subs
                (_subs n ++
                   [{| _name := name; _path := QString.remove path pathToRemove;
                       _pathIdx := _pathIdx pn ++ [i];
                       _size := default 0%Z (sizes !! path);
                       _subs := []; _fetched := false; _fetching := false;
                       _checked := checked; _folder := _folder pn |}]) n) w.
Proof.
  unfold addSubFolder. intros H.
  apply bind_Ok in H as (pn & Hpn & H). apply deref_Ok in Hpn.
  apply bind_Ok in H as (name & Hname & H).
  destruct (QString.isEmpty (QString.remove path pathToRemove)) eqn:Hempty.
  { apply isEmpty_true in Hempty. rewrite Hempty in Hname. done. }
  apply bind_Ok in H as (checked & Hchecked & H). injection H as <- <-.
  exists pn, name, checked. repeat split; try done.
  - intros Hnil. by rewrite Hnil in Hempty.
  - case_decide; [by injection Hchecked|].
    apply bind_Ok in Hchecked as (r & Hr & Hchecked). apply at_Ok in Hr.
    apply bind_Ok in Hchecked as (f & Hf & Hchecked). apply at_Ok in Hf.
    injection Hchecked as <-. by exists r, f.
Qed.

(** ** Claims about the state of a new child *)

(** C4, as stated, fails: the root folder is listed while the black
    list holds ["photos/2020"]; no entry of the black list is a prefix
    of ["photos"], yet the new child [photos] starts partially checked,
    because the entry starts with the path of the child. *)
Lemma initial_state_counterexample :
  ~ (forall w1 w2 c,
        sampleFetching = Ok w1 ->
        jobFinished 0 (Listing ["/dav/"; "/dav/photos"] ∅) w1 = Ok w2 ->
        node_at (_folders w2) [0; 0] = Some c ->
        _checked c = claimedInitialState Checked ["photos/2020"] (_path c)).
Proof.
  intros H.
  specialize (H _ _ _ eq_refl eq_refl eq_refl). vm_compute in H. discriminate H.
Qed.

(** C4, amended. A child created from a listing entry is the new last
    child of the parent.  Below an unchecked parent it starts
    [Unchecked].  Otherwise the black list of the folder of the root row
    decides: [Unchecked] when it holds the path of the child or ["/"];
    else [PartiallyChecked] when some entry starts with the path of the
    child (the path of the child is a prefix of the entry); else the
    default [Checked]. *)
Theorem addSubFolder_initial_state (parentInfo : list nat) (sizes : gmap string Z)
  (pathToRemove path : string) (i i' : nat) (w w' : World) (pn : SubFolderInfo) :
  node_at (_folders w) parentInfo = Some pn ->
  addSubFolder parentInfo sizes pathToRemove path (i, w) = Ok (i', w') ->
  exists c,
    node_at (_folders w') (parentInfo ++ [length (_subs pn)]) = Some c /\
    _path c = QString.remove path pathToRemove /\
    (_checked pn = Unchecked -> _checked c = Unchecked) /\
    (_checked pn <> Unchecked ->
     exists r f,
       _pathIdx pn !! 0 = Some r /\ folderMap w !! r = Some f /\
       ((_path c ∈ selectiveSyncBlackList f \/ "/" ∈ selectiveSyncBlackList f) ->
        _checked c = Unchecked) /\
       (~ (_path c ∈ selectiveSyncBlackList f \/ "/" ∈ selectiveSyncBlackList f) ->
        (exists entry, entry ∈ selectiveSyncBlackList f /\
                       QString.startsWith entry (_path c) = true) ->
        _checked c = PartiallyChecked) /\
       (~ (_path c ∈ selectiveSyncBlackList f \/ "/" ∈ selectiveSyncBlackList f) ->
        ~ (exists entry, entry ∈ selectiveSyncBlackList f /\
                         QString.startsWith entry (_path c) = true) ->
        _checked c = Checked)).
Proof.
  intros Hpn H.
  apply addSubFolder_Ok in H as (pn' & name & checked & Hpn' & _ & _ & _ & Hchecked & ->).
  assert (pn' = pn) as -> by congruence.
  assert (Hp : parentInfo <> []) by (intros ->; by rewrite node_at_nil in Hpn).
  eexists. split.
  { simpl. rewrite node_at_snoc, node_at_modify_at_same, Hpn by done. simpl.
    rewrite lookup_app_r by lia. by rewrite Nat.sub_diag. }
  simpl. split; [done|]. split.
  - intros Hu. by rewrite decide_True in Hchecked.
  - intros Hu. rewrite decide_False in Hchecked by done.
    destruct Hchecked as (r & f & Hr & Hf & ->). exists r, f.
    split; [done|]. split; [done|]. rewrite blackListState_spec.
    set (p := QString.remove path pathToRemove).
    set (bl := selectiveSyncBlackList f).
    assert (Hor : bool_decide (p ∈ bl) || bool_decide ("/" ∈ bl) = true <->
                  p ∈ bl \/ "/" ∈ bl).
    { by rewrite orb_true_iff, !bool_decide_eq_true. }
    assert (Hex : existsb (fun str => QString.startsWith str p) bl = true <->
                  exists entry, entry ∈ bl /\ QString.startsWith entry p = true).
    { rewrite existsb_exists. by setoid_rewrite list_elem_of_In. }
    destruct (bool_decide (p ∈ bl) || bool_decide ("/" ∈ bl)) eqn:E1;
      [|destruct (existsb _ bl) eqn:E2].
    + split; [done|]. split; intros Hn; exfalso; by apply Hn, Hor.
    + split; [intros Hy; apply Hor in Hy; done|]. split; [done|].
      intros _ Hn. exfalso. by apply Hn, Hex.
    + split; [intros Hy; apply Hor in Hy; done|]. split; [|done].
      intros _ Hy. apply Hex in Hy. done.
Qed.

Lemma addSubFolder_initial_state_witness :
  exists i' w' c,
    addSubFolder [0] ∅ "/dav/" "/dav/photos" (2, sampleMixedWorld) = Ok (i', w') /\
    node_at (_folders w') [0; 2] = Some c /\
    _path c = "photos" /\ _checked c = PartiallyChecked.
Proof.
  eassert (Hrun : addSubFolder [0] ∅ "/dav/" "/dav/photos" (2, sampleMixedWorld)
                  = Ok (_, _)) by reflexivity.
  destruct (addSubFolder_initial_state [0] ∅ "/dav/" "/dav/photos" 2 _ sampleMixedWorld _
              sampleMixedRoot eq_refl Hrun)
    as (c & Hc & Hpath & _ & Hstate).
  eexists _, _, c. split; [exact Hrun|]. split; [exact Hc|]. split; [exact Hpath|].
  destruct Hstate as (r & f & Hr & Hf & _ & Hpartial & _); [discriminate|].
  injection Hr as <-. injection Hf as <-. rewrite Hpath in Hpartial.
  apply Hpartial.
  - intros [Hin|Hin]; apply list_elem_of_singleton in Hin; discriminate Hin.
  - exists "photos/2020". split; [by apply list_elem_of_singleton|reflexivity].
Defined.

(** ** Claim about the entries of a listing *)

(** C6: the code at the failing input.  The remote root path is
    ["/dav/"]; for the entry ["/dav/x/dav/y"] both occurrences of the
    root path are removed, so the child gets the path ["xy"] and the
    name ["xy"] instead of ["x/dav/y"] and ["y"].  For a listing with an
    entry that reduces to the empty path the name is taken from an
    empty list before the entry is skipped: the run is undefined. *)
Theorem slotUpdateDirectories_removes_every_occurrence :
  exists w1 w2 c,
    sampleFetching = Ok w1 /\
    jobFinished 0 (Listing ["/dav/"; "/dav/x/dav/y"] ∅) w1 = Ok w2 /\
    (_subs <$> _folders w2 !! 0) = Some [c] /\
    _path c = "xy" /\ _name c = "xy" /\
    jobFinished 0 (Listing ["/dav/"; "/dav/"; "/dav/a"] ∅) w1 = Undefined.
Proof.
  eexists _, _, _. split; [reflexivity|]. split; [reflexivity|].
  split; [reflexivity|]. split; [reflexivity|]. split; reflexivity.
Qed.

(** ** Claim about a failed listing *)

Lemma delete_snoc {A : Type} (l : list A) (x : A) : delete (length l) (l ++ [x]) = l.
Proof. induction l as [|a l IH]; [done|]. simpl. by rewrite IH. Qed.

Lemma materialized_ext (idx : QModelIndex) (w w' : World) :
  _folders w' = _folders w -> folderMap w' = folderMap w ->
  materialized idx w -> materialized idx w'.
Proof.
  intros Hfs Hfm. destruct idx as [|row [pinfo|]]; intros H.
  - by apply materialized_invalid in H.
  - apply materialized_sub in H. apply materialized_sub. by rewrite Hfs.
  - apply materialized_root in H. apply materialized_root. by rewrite Hfs, Hfm.
Qed.

Lemma materialized_modify (f : SubFolderInfo -> SubFolderInfo) (idx : QModelIndex)
  (w : World) (p : list nat) :
  (forall n, _subs (f n) = _subs n) -> (forall n, _pathIdx (f n) = _pathIdx n) ->
  materialized idx w -> materialized idx (store p f w).
Proof.
  intros Hsubs Hidx. destruct idx as [|row [pinfo|]]; intros H.
  - by apply materialized_invalid in H.
  - apply materialized_sub in H as (pn & ch & Hpn & Hch). apply materialized_sub.
    destruct (node_at_modify_at_Some f _ p _ _ Hsubs Hpn) as (m & Hm & Hcases).
    assert (is_Some (_subs m !! row)) as [ch' Hch'].
    { destruct Hcases as [[_ ->]|[_ Hsame]]; [rewrite Hsubs; by eexists|].
      eapply same_fields_lookup; eauto. }
    by exists m, ch'.
  - apply materialized_root in H as (Hrow & n & Hn & Hi). apply materialized_root.
    split; [done|]. rewrite <- node_at_single in Hn.
    destruct (node_at_modify_at_Some f _ p _ _ Hsubs Hn) as (m & Hm & Hcases).
    exists m. simpl. rewrite <- node_at_single. split; [done|].
    destruct Hcases as [[_ ->]|[_ Hsame]]; [by rewrite Hidx|].
    by rewrite (same_fields_pathIdx _ _ Hsame).
Qed.

(** C8, as stated, fails: the listing of the root fails, the node stays
    marked as fetching and cannot be fetched again. *)
Lemma fetch_failure_counterexample :
  ~ (forall w1 w2,
        sampleFetching = Ok w1 ->
        jobFinished 0 (NetworkError false) w1 = Ok w2 ->
        canFetchMore (Index 0 None) w2 = Ok (true, w2)).
Proof. intros H. specialize (H _ _ eq_refl eq_refl). discriminate H. Qed.

(** C8, amended. When the listing started by [fetchMore] fails, no slot
    runs: the job is gone, the tree is as [fetchMore] left it, the node
    is not fetched and has the children it had, but it is still marked
    as fetching, so that [canFetchMore] answers [false]. *)
Theorem fetch_failure_keeps_fetching (idx : QModelIndex) (w w0 w1 : World)
  (notFound : bool) :
  canFetchMore idx w = Ok (true, w0) ->
  fetchMore idx w = Ok w1 ->
  exists w2 n0 n,
    jobFinished (length (jobs w)) (NetworkError notFound) w1 = Ok w2 /\
    _folders w2 = _folders w1 /\ jobs w2 = jobs w /\
    node_at (_folders w0) (addressOf idx) = Some n0 /\
    node_at (_folders w2) (addressOf idx) = Some n /\
    _fetched n = false /\ _fetching n = true /\ _subs n = _subs n0 /\
    canFetchMore idx w2 = Ok (false, w2).
Proof.
  unfold canFetchMore, fetchMore. intros Hcan Hfetch.
  apply bind_Ok in Hcan as ([info w0'] & Hinfo & Hcan).
  rewrite Hinfo in Hfetch. cbn -[node_at] in Hfetch.
  destruct info as [p|]; [|by injection Hcan].
  apply bind_Ok in Hcan as (n0 & Hn0 & Hcan). rewrite Hn0 in Hfetch.
  cbn -[node_at] in Hfetch.
  destruct (_fetched n0 || _fetching n0) eqn:Hflags; [by injection Hcan|].
  injection Hcan as Hw0. subst w0'.
  apply orb_false_iff in Hflags as [Hfetched Hfetching].
  apply bind_Ok in Hfetch as (f & Hf & Hfetch). injection Hfetch as <-.
  destruct (infoForIndex_materialized _ _ _ _ Hinfo) as [-> Hmat].
  destruct (infoForIndex_world _ _ _ _ Hinfo) as (_ & _ & Hjobs & _).
  apply deref_Ok in Hn0.
  set (ws := store (addressOf idx) (set_fetching true) w0) in *.
  set (job := mkLsColJob _ _ _ _).
  assert (Hjobs1 : jobs (with_jobs (jobs ws ++ [job]) ws) = jobs w ++ [job]).
  { simpl. by rewrite Hjobs. }
  assert (Hrun : jobFinished (length (jobs w)) (NetworkError notFound)
                   (with_jobs (jobs ws ++ [job]) ws)
                 = Ok (with_jobs (jobs w) ws)).
  { unfold jobFinished. rewrite Hjobs1.
    assert (Hat : at_ (jobs w ++ [job]) (length (jobs w)) = Ok job).
    { apply at_Ok. rewrite lookup_app_r by lia. by rewrite Nat.sub_diag. }
    rewrite Hat. cbn -[node_at]. f_equal. unfold with_jobs. simpl. f_equal.
    apply delete_snoc. }
  assert (Hmat2 : materialized idx (with_jobs (jobs w) ws)).
  { apply (materialized_ext idx ws); [done..|].
    by apply materialized_modify. }
  exists (with_jobs (jobs w) ws), n0, (set_fetching true n0).
  split; [exact Hrun|]. split; [done|]. split; [done|]. split; [done|].
  assert (Hn : node_at (_folders (with_jobs (jobs w) ws)) (addressOf idx)
               = Some (set_fetching true n0)).
  { simpl. by rewrite node_at_modify_at_same, Hn0. }
  split; [exact Hn|]. split; [done|]. split; [done|]. split; [done|].
  rewrite Hmat2. cbn -[node_at]. rewrite (proj2 (deref_Ok _ _ _) Hn).
  cbn -[node_at]. by rewrite orb_true_r.
Qed.

Lemma fetch_failure_keeps_fetching_witness :
  exists w1 w2,
    sampleFetching = Ok w1 /\
    jobFinished 0 (NetworkError true) w1 = Ok w2 /\
    canFetchMore (Index 0 None) w2 = Ok (false, w2).
Proof.
  destruct (fetch_failure_keeps_fetching (Index 0 None) sampleStart
              (mkWorld [initRoot 0 sampleFolder newSubFolderInfo] false [sampleFolder] [] [])
              (mkWorld [set_fetching true (initRoot 0 sampleFolder newSubFolderInfo)] false
                 [sampleFolder]
                 [mkLsColJob "///" ["resourcetype"; "quota-used-bytes"]
                    [(directoryListingSubfolders, slotUpdateDirectoriesSlot)]
                    (Index 0 None)] [])
              true eq_refl eq_refl)
    as (w2 & n0 & n & Hrun & _ & _ & _ & _ & _ & _ & _ & Hcan).
  eexists _, w2. split; [reflexivity|]. split; [exact Hrun|exact Hcan].
Defined.


(** * The apply operation: [slotApplySelectiveSync] *)

Lemma applyEffects_None (w : World) (i : nat) :
  _folders w !! i = None -> applyEffects w i = [].
Proof. unfold applyEffects. by intros ->. Qed.

Lemma flat_map_nil {A B : Type} (f : A -> list B) (l : list A) :
  (forall a, a ∈ l -> f a = []) -> flat_map f l = [].
Proof.
  induction l as [|a l IH]; intros H; [done|]. simpl.
  rewrite (H a) by left. apply IH. intros b Hb. apply H. by right.
Qed.

Lemma applyFolder_None (w : World) (i : nat) (folder : Folder) :
  _folders w !! i = None -> applyFolder w i folder = folder.
Proof. unfold applyFolder. by intros ->. Qed.

(** The loop over the rows [k .. k+m-1], started in a world [w1] that
    differs from the world [w] at the start of the call in the folders
    of the rows below [k] and in the effects only. *)
Lemma applyRows_seq (w : World) (m k : nat) (w1 : World) :
  _folders w1 = _folders w ->
  (forall i, k <= i -> folderMap w1 !! i = folderMap w !! i) ->
  length (folderMap w1) = length (folderMap w) ->
  k + m <= length (folderMap w) ->
  exists w2,
    applyRows (seq k m) w1 = Ok w2 /\
    _folders w2 = _folders w /\ _dirty w2 = _dirty w1 /\ jobs w2 = jobs w1 /\
    length (folderMap w2) = length (folderMap w) /\
    (forall i, i < k \/ k + m <= i -> folderMap w2 !! i = folderMap w1 !! i) /\
    (forall i folder, k <= i < k + m -> folderMap w !! i = Some folder ->
       folderMap w2 !! i = Some (applyFolder w i folder)) /\
    effects w2 = effects w1 ++ flat_map (applyEffects w) (seq k m).
Proof.
  revert k w1. induction m as [|m IH]; intros k w1 Hfs Hfm Hlen Hk.
  { exists w1. simpl. rewrite app_nil_r. repeat split; try done. intros; lia. }
  simpl seq. cbn [applyRows]. case_decide as Hbreak.
  - exists w1. rewrite Hfs in Hbreak.
    assert (Hnone : forall i, k <= i -> _folders w !! i = None).
    { intros i Hi. apply lookup_ge_None. lia. }
    split; [done|]. split; [done|]. split; [done|]. split; [done|]. split; [done|].
    split; [done|]. split.
    + intros i folder Hi Hfolder. rewrite applyFolder_None by (apply Hnone; lia).
      rewrite Hfm by lia. done.
    + change (k :: seq (S k) m) with (seq k (S m)).
      rewrite flat_map_nil; [by rewrite app_nil_r|].
      intros i Hi. apply elem_of_seq in Hi. apply applyEffects_None, Hnone. lia.
  - rewrite Hfs in Hbreak.
    destruct (_folders w !! k) as [root|] eqn:Hroot;
      [|apply lookup_ge_None in Hroot; lia].
    assert (Hat : at_ (_folders w1) k = Ok root) by (apply at_Ok; by rewrite Hfs).
    rewrite Hat. cbn [mbind result_bind].
    destruct (folderMap w !! k) as [folder|] eqn:Hfolder;
      [|apply lookup_ge_None in Hfolder; lia].
    destruct (_fetched root) eqn:Hfetched; cbn [negb].
    + assert (Hatf : at_ (folderMap w1) k = Ok folder).
      { apply at_Ok. rewrite Hfm by lia. done. }
      rewrite Hatf. cbn [mbind result_bind].
      set (bl := createBlackList (Some root) (selectiveSyncBlackList folder)).
      set (es := if decide (changedPaths (selectiveSyncBlackList folder) bl = ∅) then []
                 else (if isBusy folder then [TerminateSync k] else [])
                        ++ (AvoidReadFromDbOnNextSync k <$> elements
                              (changedPaths (selectiveSyncBlackList folder) bl))
                        ++ [ScheduleSync (alias folder)]).
      set (wm := with_folderMap
                   (<[k := setSelectiveSyncBlackList bl folder]> (folderMap w1)) w1).
      assert (Hes : applyEffects w k = es).
      { unfold applyEffects. by rewrite Hroot, Hfolder, Hfetched. }
      assert (Hw : (if decide (changedPaths (selectiveSyncBlackList folder) bl = ∅) then wm
                    else emit ((if isBusy folder then [TerminateSync k] else [])
                                 ++ (AvoidReadFromDbOnNextSync k <$> elements
                                       (changedPaths (selectiveSyncBlackList folder) bl))
                                 ++ [ScheduleSync (alias folder)]) wm)
                   = emit es wm).
      { unfold es. case_decide; [|done]. unfold emit. destruct wm. simpl.
        by rewrite app_nil_r. }
      rewrite Hw.
      destruct (IH (S k) (emit es wm)) as (w2 & Hrun & H1 & H2 & H3 & H4 & H5 & H6 & H7).
      * done.
      * intros i Hi. simpl. rewrite list_lookup_insert_ne by lia. apply Hfm. lia.
      * simpl. by rewrite length_insert.
      * lia.
      * exists w2. split; [exact Hrun|]. split; [done|]. split; [done|]. split; [done|].
        split; [done|]. split; [|split].
        -- intros i Hi. rewrite H5 by lia. simpl.
           rewrite list_lookup_insert_ne by lia. done.
        -- intros i f Hi Hf. destruct (decide (i = k)) as [->|Hne].
           ++ rewrite H5 by lia. simpl.
              rewrite list_lookup_insert_eq by lia.
              unfold applyFolder. rewrite Hroot, Hfetched.
              assert (f = folder) as -> by congruence. done.
           ++ apply H6; [lia|done].
        -- rewrite H7. simpl. rewrite Hes. by rewrite <- app_assoc.
    + destruct (IH (S k) w1) as (w2 & Hrun & H1 & H2 & H3 & H4 & H5 & H6 & H7).
      * done.
      * intros i Hi. apply Hfm. lia.
      * done.
      * lia.
      * exists w2. split; [exact Hrun|]. split; [done|]. split; [done|]. split; [done|].
        split; [done|]. split; [|split].
        -- intros i Hi. apply H5. lia.
        -- intros i f Hi Hf. destruct (decide (i = k)) as [->|Hne].
           ++ rewrite H5 by lia. rewrite Hfm by lia.
              unfold applyFolder. rewrite Hroot, Hfetched. done.
           ++ apply H6; [lia|done].
        -- rewrite H7. simpl.
           assert (Hes : applyEffects w k = []).
           { unfold applyEffects. by rewrite Hroot, Hfolder, Hfetched. }
           by rewrite Hes.
Qed.

(** What is sent out for a row whose root was fetched: every message
    depends on the set of changed paths. *)
Lemma applyEffects_fetched (w : World) (i : nat) (root : SubFolderInfo) (folder : Folder) :
  _folders w !! i = Some root -> folderMap w !! i = Some folder ->
  _fetched root = true ->
  let changes :=
    changedPaths (selectiveSyncBlackList folder)
      (createBlackList (Some root) (selectiveSyncBlackList folder)) in
  (forall a, ScheduleSync a ∈ applyEffects w i <-> a = alias folder /\ changes <> ∅) /\
  (forall j, TerminateSync j ∈ applyEffects w i <->
             j = i /\ isBusy folder = true /\ changes <> ∅) /\
  (forall j p, AvoidReadFromDbOnNextSync j p ∈ applyEffects w i <-> j = i /\ p ∈ changes).
Proof.
  intros Hroot Hfolder Hfetched changes. unfold applyEffects.
  rewrite Hroot, Hfolder, Hfetched. fold changes.
  assert (Hbusy : forall e, e ∈ (if isBusy folder then [TerminateSync i] else [])
                            <-> e = TerminateSync i /\ isBusy folder = true).
  { intros e. destruct (isBusy folder).
    - rewrite list_elem_of_singleton. split; [by intros ->|by intros [-> _]].
    - split; [by intros ?%not_elem_of_nil|by intros [_ ?]]. }
  case_decide as Hch.
  - split; [|split]; intros; (split; [by intros ?%not_elem_of_nil|]).
    + by intros [_ ?].
    + by intros (_ & _ & ?).
    + intros [_ Hp]. rewrite Hch in Hp. by apply not_elem_of_empty in Hp.
  - split; [|split]; intros; rewrite !elem_of_app, Hbusy, list_elem_of_fmap,
      list_elem_of_singleton.
    + split.
      * intros [[? _]|[(p & ? & _)|?]]; [done|done|]. split; [congruence|done].
      * intros [-> _]. right. by right.
    + split.
      * intros [[? ?]|[(p & ? & _)|?]]; [|done|done]. split; [congruence|done].
      * intros (-> & ? & _). by left.
    + split.
      * intros [[? _]|[(q & Hq & Hin)|?]]; [done| |done].
        injection Hq as -> ->. split; [done|]. by apply elem_of_elements in Hin.
      * intros [-> Hp]. right. left. exists p. split; [done|]. by apply elem_of_elements.
Qed.

(** ** Claim about the apply operation *)

(** C5, as stated, fails: the root folder is expanded and listed, no
    check box is touched, and the apply operation runs; the model is
    not dirty, the operation returns at once and the tree is still
    there. *)
Lemma apply_discards_counterexample :
  ~ (forall ops w w',
        run_all ops sampleStart = Ok w ->
        slotApplySelectiveSync w = Ok w' ->
        _folders w' = []).
Proof.
  intros H.
  specialize (H [OpFetchMore (Index 0 None);
                 OpJobFinished 0 (Listing ["/dav/"; "/dav/photos"] ∅)]
                _ _ eq_refl eq_refl).
  discriminate H.
Qed.

(** C5, amended. When the model is not dirty the apply operation does
    nothing.  When it is dirty: the black list is projected and
    overwritten for the rows whose root is fetched, and only for them;
    for such a row a busy folder is terminated, every path of the
    symmetric difference of the old and the new black list is marked in
    the journal and the folder is scheduled, if and only if the
    symmetric difference is not empty; afterwards the whole tree is
    discarded. *)
Theorem slotApplySelectiveSync_dirty (w : World) :
  (_dirty w = false -> slotApplySelectiveSync w = Ok w) /\
  (_dirty w = true ->
   exists w',
     slotApplySelectiveSync w = Ok w' /\
     _folders w' = [] /\ _dirty w' = false /\
     length (folderMap w') = length (folderMap w) /\
     (forall i folder, folderMap w !! i = Some folder ->
        folderMap w' !! i = Some (applyFolder w i folder)) /\
     effects w'
     = effects w ++ flat_map (applyEffects w) (seq 0 (length (folderMap w)))
         ++ [ModelReset] /\
     (forall i folder, folderMap w !! i = Some folder ->
        match _folders w !! i with
        | Some root =>
            if _fetched root then
              let blackList :=
                createBlackList (Some root) (selectiveSyncBlackList folder) in
              let changes := changedPaths (selectiveSyncBlackList folder) blackList in
              applyFolder w i folder = setSelectiveSyncBlackList blackList folder /\
              (forall a, ScheduleSync a ∈ applyEffects w i
                         <-> a = alias folder /\ changes <> ∅) /\
              (forall j, TerminateSync j ∈ applyEffects w i
                         <-> j = i /\ isBusy folder = true /\ changes <> ∅) /\
              (forall j p, AvoidReadFromDbOnNextSync j p ∈ applyEffects w i
                           <-> j = i /\ p ∈ changes)
            else applyFolder w i folder = folder /\ applyEffects w i = []
        | None => applyFolder w i folder = folder /\ applyEffects w i = []
        end)).
Proof.
  unfold slotApplySelectiveSync. split; [by intros ->|]. intros ->. cbn [negb].
  destruct (applyRows_seq w (length (folderMap w)) 0 w)
    as (w2 & Hrun & Hfs & Hdirty & Hjobs & Hlen & _ & Hfm & Hes); [done..|].
  rewrite Hrun. cbn [mbind result_bind]. eexists. split; [done|].
  split; [done|]. split; [done|]. split; [done|]. split; [|split].
  - intros i folder Hfolder. simpl. apply Hfm; [|done].
    apply lookup_lt_Some in Hfolder. lia.
  - simpl. rewrite Hes. by rewrite <- app_assoc.
  - intros i folder Hfolder. destruct (_folders w !! i) as [root|] eqn:Hroot.
    + destruct (_fetched root) eqn:Hfetched.
      * split; [unfold applyFolder; by rewrite Hroot, Hfetched|].
        by apply applyEffects_fetched.
      * split; [unfold applyFolder; by rewrite Hroot, Hfetched|].
        unfold applyEffects. by rewrite Hroot, Hfolder, Hfetched.
    + split; [by apply applyFolder_None|by apply applyEffects_None].
Qed.

Lemma slotApplySelectiveSync_dirty_witness :
  exists w',
    slotApplySelectiveSync (with_dirty true sampleMixedWorld) = Ok w' /\
    _folders w' = [] /\
    (selectiveSyncBlackList <$> folderMap w') = [["b"]] /\
    effects w' = [TerminateSync 0; AvoidReadFromDbOnNextSync 0 "b";
                  AvoidReadFromDbOnNextSync 0 "photos/2020"; ScheduleSync "home";
                  ModelReset].
Proof.
  destruct (proj2 (slotApplySelectiveSync_dirty (with_dirty true sampleMixedWorld)) eq_refl)
    as (w' & Hrun & Hfs & _ & _ & _ & _ & _).
  exists w'. split; [exact Hrun|]. split; [exact Hfs|].
  assert (Hw' : Ok w' = slotApplySelectiveSync (with_dirty true sampleMixedWorld))
    by (symmetry; exact Hrun).
  vm_compute in Hw'. injection Hw' as ->. split; reflexivity.
Defined.


(** * The model as a state machine: the address invariant *)

(** ** Assignment through a pointer, for any function *)

Lemma node_at_modify_at_below (f : SubFolderInfo -> SubFolderInfo)
  (fs : list SubFolderInfo) (q r : list nat) :
  q <> [] -> r <> [] ->
  node_at (modify_at f fs q) (q ++ r)
  = node_at fs q ≫= fun n => node_at (_subs (f n)) r.
Proof.
  intros Hq Hr. rewrite node_at_app, node_at_modify_at_same by done.
  by destruct (node_at fs q).
Qed.

Lemma node_at_modify_at_above (f : SubFolderInfo -> SubFolderInfo)
  (fs : list SubFolderInfo) (a r : list nat) :
  a <> [] -> r <> [] ->
  node_at (modify_at f fs (a ++ r)) a
  = (fun n => set_subs (modify_at f (_subs n) r) n) <$> node_at fs a.
Proof. intros Ha Hr. by rewrite modify_at_app, node_at_modify_at_same. Qed.

(** Away from the subtree of [q] a node keeps its fields and the number
    of its children. *)
Lemma node_at_modify_at_outside (f : SubFolderInfo -> SubFolderInfo)
  (fs : list SubFolderInfo) (q a : list nat) (m0 : SubFolderInfo) :
  ~ q `prefix_of` a -> node_at fs a = Some m0 ->
  exists m, node_at (modify_at f fs q) a = Some m /\ same_fields m0 m.
Proof.
  intros Hq Hm0. destruct (decide (a `prefix_of` q)) as [[r ->]|Ha].
  - assert (a <> []) by (intros ->; done).
    assert (r <> []).
    { intros ->. apply Hq. by rewrite app_nil_r. }
    rewrite node_at_modify_at_above, Hm0 by done. eexists. split; [done|].
    apply same_fields_set_subs, length_modify_at.
  - exists m0. rewrite node_at_modify_at_apart by done. split; [done|].
    apply same_fields_refl.
Qed.

Lemma node_at_modify_at_outside_inv (f : SubFolderInfo -> SubFolderInfo)
  (fs : list SubFolderInfo) (q a : list nat) (m : SubFolderInfo) :
  ~ q `prefix_of` a -> node_at (modify_at f fs q) a = Some m ->
  exists m0, node_at fs a = Some m0 /\ same_fields m0 m.
Proof.
  intros Hq Hm. destruct (decide (a `prefix_of` q)) as [[r ->]|Ha].
  - assert (a <> []) by (intros ->; done).
    assert (r <> []).
    { intros ->. apply Hq. by rewrite app_nil_r. }
    rewrite node_at_modify_at_above in Hm by done.
    destruct (node_at fs a) as [m0|]; [|done]. injection Hm as <-.
    exists m0. split; [done|]. apply same_fields_set_subs, length_modify_at.
  - exists m. rewrite node_at_modify_at_apart in Hm by done. split; [done|].
    apply same_fields_refl.
Qed.

Lemma node_at_no_children (fs : list SubFolderInfo) (q r : list nat) (n : SubFolderInfo) :
  node_at fs q = Some n -> _subs n = [] -> r <> [] -> node_at fs (q ++ r) = None.
Proof.
  intros Hn Hsubs Hr. assert (q <> []) by (intros ->; done).
  rewrite node_at_app, Hn by done. simpl. rewrite Hsubs. by destruct r.
Qed.

(** ** Jobs *)

Lemma omap_sublist {A B : Type} (f : A -> option B) (l1 l2 : list A) :
  l1 `sublist_of` l2 -> omap f l1 `sublist_of` omap f l2.
Proof.
  induction 1 as [|x l1 l2 _ IH|x l1 l2 _ IH]; simpl.
  - constructor.
  - destruct (f x); [by constructor|done].
  - destruct (f x); [by constructor|done].
Qed.

Lemma jobAddress_Some (job : LsColJob) (p : list nat) :
  jobAddress job = Some p -> addressOf (job_parentIndex job) = p.
Proof. unfold jobAddress. destruct (job_parentIndex job); [done|]. by intros [= <-]. Qed.

Lemma jobAddress_invalidate (l : list LsColJob) : omap jobAddress (invalidate <$> l) = [].
Proof. induction l as [|job l IH]; [done|]. simpl. exact IH. Qed.

(** The other jobs list other nodes. *)
Lemma jobAddress_delete (l : list LsColJob) (k : nat) (job job' : LsColJob) (p : list nat) :
  NoDup (omap jobAddress l) -> l !! k = Some job -> jobAddress job = Some p ->
  job' ∈ delete k l -> jobAddress job' <> Some p.
Proof.
  intros Hnd Hk Hp Hin Hp'.
  rewrite <- (take_drop_middle l k job Hk) in Hnd.
  rewrite omap_app in Hnd. simpl in Hnd. rewrite Hp in Hnd.
  apply NoDup_app in Hnd as (_ & Hdisj & Htail). apply NoDup_cons in Htail as [Hnot _].
  rewrite delete_take_drop in Hin. apply elem_of_app in Hin as [Hin|Hin].
  - apply (Hdisj p); [|left]. apply list_elem_of_omap. by exists job'.
  - apply Hnot. apply list_elem_of_omap. by exists job'.
Qed.

(** ** The invariant depends on the tree, the folders and the jobs *)

Lemma job_ok_ext (w w' : World) (job : LsColJob) :
  _folders w' = _folders w -> folderMap w' = folderMap w ->
  job_ok w job -> job_ok w' job.
Proof.
  intros Hfs Hfm [Hconn Hjob]. split; [done|]. intros p Hp.
  destruct (Hjob p Hp) as [Hmat Hnode]. split.
  - by apply (materialized_ext _ w).
  - by rewrite Hfs.
Qed.

Lemma model_invariant_ext (w w' : World) :
  _folders w' = _folders w -> folderMap w' = folderMap w -> jobs w' = jobs w ->
  model_invariant w -> model_invariant w'.
Proof.
  intros Hfs Hfm Hjobs (Htree & Hunf & Hjob & Hnd).
  split; [|split; [|split]].
  - unfold tree_invariant. by rewrite Hfs, Hfm.
  - by rewrite Hfs.
  - rewrite Hjobs. eapply Forall_impl; [exact Hjob|]. intros job. by apply job_ok_ext.
  - by rewrite Hjobs.
Qed.

Lemma model_invariant_newModel (fm : list Folder) : model_invariant (newModel fm).
Proof.
  split; [|split; [|split]]; simpl.
  - split; simpl; [lia|]. intros [|i [|j p]] n Hn; done.
  - intros [|i [|j p]] n Hn; done.
  - constructor.
  - constructor.
Qed.

(** ** Steps that keep the invariant *)

(** A store that keeps the children, the address and the fetched flag,
    and does not clear the fetching flag. *)
Lemma model_invariant_store (f : SubFolderInfo -> SubFolderInfo) (q : list nat)
  (w : World) :
  (forall n, _subs (f n) = _subs n) -> (forall n, _pathIdx (f n) = _pathIdx n) ->
  (forall n, _fetched (f n) = _fetched n) ->
  (forall n, _fetching n = true -> _fetching (f n) = true) ->
  model_invariant w -> model_invariant (store q f w).
Proof.
  intros Hsubs Hidx Hfetched Hfetching ([Hlen Hinv] & Hunf & Hjob & Hnd).
  split; [|split; [|split]]; simpl.
  - split; simpl; [by rewrite length_modify_at|by apply address_invariant_modify_at].
  - intros a m Hm Hf.
    apply (node_at_modify_at_inv _ _ _ _ _ Hsubs) in Hm
      as (m0 & Hm0 & [[_ ->]|[_ Hsame]]).
    + rewrite Hsubs. apply (Hunf a m0 Hm0). by rewrite <- Hfetched.
    + apply (same_fields_subs_nil m0); [done|]. apply (Hunf a m0 Hm0).
      destruct (same_fields_fetched _ _ Hsame) as [<- _]. done.
  - eapply Forall_impl; [exact Hjob|]. intros job [Hconn Hok]. split; [done|].
    intros p Hp. destruct (Hok p Hp) as (Hmat & n & Hn & Hf & Hg). split.
    + by apply materialized_modify.
    + destruct (node_at_modify_at_Some f _ q p n Hsubs Hn)
        as (m & Hm & [[_ ->]|[_ Hsame]]).
      * exists (f n). split; [done|]. split; [by rewrite Hfetched|by apply Hfetching].
      * exists m. split; [done|].
        destruct (same_fields_fetched _ _ Hsame) as [-> ->]. done.
  - done.
Qed.

Lemma model_invariant_emit (w : World) (es : list Effect) :
  model_invariant w -> model_invariant (emit es (with_dirty true w)).
Proof. by apply model_invariant_ext. Qed.

Lemma initRoot_fetched (row : nat) (f : Folder) (n : SubFolderInfo) :
  _fetched (initRoot row f n) = _fetched n /\ _fetching (initRoot row f n) = _fetching n.
Proof. done. Qed.

(** Looking up an index may create root nodes; they have no children
    and no job. *)
Lemma model_invariant_infoForIndex (idx : QModelIndex) (w : World)
  (r : option (list nat)) (w' : World) :
  model_invariant w -> infoForIndex idx w = Ok (r, w') -> model_invariant w'.
Proof.
  intros (Htree & Hunf & Hjob & Hnd) H.
  destruct (infoForIndex_world _ _ _ _ H) as (_ & Hfm & Hjobs & _).
  destruct (infoForIndex_nodes _ _ _ _ H) as (Hnew & Hold & _).
  split; [|split; [|split]].
  - by eapply tree_invariant_infoForIndex.
  - intros a m Hm Hf. destruct (Hnew a m Hm) as [Hm0|[[_ ->]|Hinit]].
    + by apply (Hunf a m).
    + done.
    + destruct Hinit as (row & m0 & f & -> & Hm0 & Hidx & ->). rewrite initRoot_subs.
      destruct Hm0 as [Hm0| ->]; [|done].
      destruct Htree as [_ Hinv]. destruct (Hinv _ _ Hm0) as [Hp|(_ & _ & ?)]; [|done].
      rewrite Hidx in Hp. done.
  - rewrite Hjobs. eapply Forall_impl; [exact Hjob|]. intros job [Hconn Hok].
    split; [done|]. intros p Hp. destruct (Hok p Hp) as (Hmat & n & Hn & Hf & Hg). split.
    + by eapply materialized_infoForIndex.
    + destruct (Hold p n Hn) as [Hn'|(row & f & _ & _ & Hn')].
      * by exists n.
      * exists (initRoot row f n). done.
  - by rewrite Hjobs.
Qed.

Lemma model_invariant_setData (fuel : nat) (idx : QModelIndex) (v : CheckState)
  (w w' : World) :
  model_invariant w -> setData fuel idx v w = Ok w' -> model_invariant w'.
Proof.
  apply (setData_preserves model_invariant).
  - intros ? ? ? ? ? _. by apply model_invariant_store.
  - intros ? ? ? ? ? ?. by eapply model_invariant_infoForIndex.
  - intros ? ? ?. by apply model_invariant_emit.
Qed.

Lemma model_invariant_rowCount (parent : QModelIndex) (w : World) (k : nat) (w' : World) :
  model_invariant w -> rowCount parent w = Ok (k, w') -> model_invariant w'.
Proof.
  intros Hinv H. destruct parent as [|row ptr]; [simpl in H; by injection H as _ <-|].
  unfold rowCount in H. apply bind_Ok in H as ([info w0] & Hinfo & H).
  pose proof (model_invariant_infoForIndex _ _ _ _ Hinv Hinfo) as Hinv0.
  destruct info as [p|]; [|by injection H as _ <-].
  apply bind_Ok in H as (n & _ & H). by injection H as _ <-.
Qed.

Lemma model_invariant_canFetchMore (parent : QModelIndex) (w : World) (b : bool)
  (w' : World) :
  model_invariant w -> canFetchMore parent w = Ok (b, w') -> model_invariant w'.
Proof.
  intros Hinv H. unfold canFetchMore in H.
  apply bind_Ok in H as ([info w0] & Hinfo & H).
  pose proof (model_invariant_infoForIndex _ _ _ _ Hinv Hinfo) as Hinv0.
  destruct info as [p|]; [|by injection H as _ <-].
  apply bind_Ok in H as (n & _ & H).
  destruct (_fetched n || _fetching n); by injection H as _ <-.
Qed.

(** [fetchMore] starts a job for a node that has none. *)
Lemma model_invariant_fetchMore (parent : QModelIndex) (w w' : World) :
  model_invariant w -> fetchMore parent w = Ok w' -> model_invariant w'.
Proof.
  intros Hinv H. unfold fetchMore in H.
  apply bind_Ok in H as ([info w0] & Hinfo & H).
  pose proof (model_invariant_infoForIndex _ _ _ _ Hinv Hinfo) as Hinv0.
  destruct info as [p|]; [|by injection H as <-].
  destruct (infoForIndex_materialized _ _ _ _ Hinfo) as [-> Hmat].
  apply bind_Ok in H as (n & Hn & H). apply deref_Ok in Hn.
  destruct (_fetched n || _fetching n) eqn:Hflags; [by injection H as <-|].
  apply orb_false_iff in Hflags as [Hfetched Hfetching].
  apply bind_Ok in H as (f & _ & H). injection H as <-.
  set (ws := store (addressOf parent) (set_fetching true) w0).
  assert (Hws : model_invariant ws) by (by apply model_invariant_store).
  destruct Hws as (Htree & Hunf & Hjob & Hnd).
  assert (Haddr : jobAddress
                    {| job_path := remotePath f +:+ "/" +:+ _path n;
                       job_properties := ["resourcetype"; "quota-used-bytes"];
                       job_connections :=
                         [(directoryListingSubfolders, slotUpdateDirectoriesSlot)];
                       job_parentIndex := parent |} = Some (addressOf parent)).
  { unfold jobAddress. simpl. destruct parent; [|done].
    by apply materialized_invalid in Hmat. }
  split; [|split; [|split]]; [done|done| |].
  - simpl jobs. apply Forall_app. split.
    + eapply Forall_impl; [exact Hjob|]. intros job. by apply job_ok_ext.
    + apply Forall_singleton. split; [done|]. intros p Hp.
      rewrite Haddr in Hp. injection Hp as <-. split.
      * apply (materialized_ext _ ws); [done..|]. by apply materialized_modify.
      * exists (set_fetching true n). split; [|done]. simpl.
        by rewrite node_at_modify_at_same, Hn.
  - simpl jobs. rewrite omap_app. simpl. rewrite Haddr.
    apply NoDup_app. split; [done|]. split; [|apply NoDup_singleton].
    intros p Hp Hin. apply list_elem_of_singleton in Hin as ->.
    apply list_elem_of_omap in Hp as (job & Hjobin & Hjaddr).
    destruct Hinv0 as (_ & _ & Hjob0 & _).
    rewrite Forall_forall in Hjob0. destruct (Hjob0 job Hjobin) as [_ Hok].
    destruct (Hok _ Hjaddr) as (_ & n' & Hn' & _ & Hg). congruence.
Qed.

(** ** The listing slot *)

(** The loop of [slotUpdateDirectories] appends one child for every
    entry; the counter and the number of children grow together. *)
Lemma addSubFolder_loop (p : list nat) (sizes : gmap string Z) (pathToRemove : string)
  (list : list string) :
  forall (i : nat) (w : World) (i' : nat) (w' : World) (n : SubFolderInfo),
    node_at (_folders w) p = Some n ->
    for_each list (addSubFolder p sizes pathToRemove) (i, w) = Ok (i', w') ->
    exists kids,
      w' = store p (fun m => set_subs (_subs m ++ kids) m) w /\
      forall j c, kids !! j = Some c ->
        _pathIdx c = _pathIdx n ++ [i + j] /\ _subs c = [] /\ _fetched c = false.
Proof.
  induction list as [|path list IH]; intros i w i' w' n Hn H; simpl in H.
  - injection H as <- <-. exists []. split.
    + unfold store. destruct w as [fs d fm js es]. unfold with_folders. simpl. f_equal.
      rewrite <- (modify_at_id fs p) at 1. apply modify_at_ext.
      intros m _. rewrite app_nil_r. by rewrite set_subs_id.
    + intros j c Hc. done.
  - apply bind_Ok in H as ([i1 w1] & Hstep & H).
    apply addSubFolder_Ok in Hstep
      as (pn & name & checked & Hpn & -> & _ & _ & _ & ->).
    assert (pn = n) as -> by congruence.
    set (new := mkSubFolderInfo _ _ _ _ _ _ _ _ _) in *.
    set (w1 := store p (fun m => set_subs (_subs m ++ [new]) m) w) in *.
    assert (Hn1 : node_at (_folders w1) p = Some (set_subs (_subs n ++ [new]) n)).
    { simpl. by rewrite node_at_modify_at_same, Hn. }
    destruct (IH _ _ _ _ _ Hn1 H) as (kids & -> & Hkids).
    exists (new :: kids). split.
    + unfold store, w1, store, with_folders. simpl. f_equal.
      rewrite modify_at_compose. apply modify_at_ext. intros m _.
      unfold compose. rewrite subs_set_subs, set_subs_set_subs.
      by rewrite <- app_assoc.
    + intros [|j] c Hc.
      * injection Hc as <-. by rewrite Nat.add_0_r.
      * destruct (Hkids j c Hc) as (Hidx & Hsubs & Hf).
        split; [|done]. rewrite Hidx. simpl. do 2 f_equal. lia.
Qed.

Lemma materialized_pathIdx (idx : QModelIndex) (w : World) (n : SubFolderInfo) :
  tree_invariant w -> materialized idx w ->
  node_at (_folders w) (addressOf idx) = Some n -> _pathIdx n = addressOf idx.
Proof.
  intros [_ Hinv] Hmat Hn. destruct (Hinv _ _ Hn) as [?|(Hlen & Hnil & _)]; [done|].
  destruct idx as [|row [pinfo|]].
  - by apply materialized_invalid in Hmat.
  - apply materialized_sub_nonempty in Hmat. simpl in Hlen. rewrite length_app in Hlen.
    destruct pinfo; [done|]. simpl in Hlen. lia.
  - apply materialized_root in Hmat as (_ & m & Hm & Hne). simpl addressOf in Hn.
    rewrite node_at_single in Hn. congruence.
Qed.

Section append.
Variable q : list nat.
Variable n : SubFolderInfo.
Variable kids : list SubFolderInfo.
Variable fs : list SubFolderInfo.
Hypothesis Hn : node_at fs q = Some n.
Hypothesis Hempty : _subs n = [].
Hypothesis Hkids : forall j c, kids !! j = Some c ->
  _pathIdx c = q ++ [j] /\ _subs c = [] /\ _fetched c = false.

Lemma listed_nodes (a : list nat) (m : SubFolderInfo) :
  node_at (modify_at (listed kids) fs q) a = Some m ->
  (~ q `prefix_of` a /\ exists m0, node_at fs a = Some m0 /\ same_fields m0 m) \/
  (a = q /\ m = listed kids n) \/
  (exists j, a = q ++ [j] /\ kids !! j = Some m).
Proof.
  intros Hm. assert (Hq : q <> []) by (intros Hq; by rewrite Hq in Hn).
  destruct (decide (q `prefix_of` a)) as [[r ->]|Hpre].
  - right. destruct r as [|j r].
    + left. rewrite app_nil_r in *. rewrite node_at_modify_at_same, Hn in Hm.
      by injection Hm as <-.
    + right. rewrite node_at_modify_at_below, Hn in Hm by done.
      cbn -[node_at] in Hm. rewrite Hempty in Hm. simpl app in Hm.
      destruct r as [|j' r].
      * exists j. by rewrite node_at_single in Hm.
      * rewrite node_at_cons_cons in Hm.
        destruct (kids !! j) as [c|] eqn:Hc; [|done]. cbn -[node_at] in Hm.
        destruct (Hkids j c Hc) as (_ & Hsubs & _). rewrite Hsubs in Hm. done.
  - left. split; [done|]. by eapply node_at_modify_at_outside_inv.
Qed.

Lemma listed_old (a : list nat) (m0 : SubFolderInfo) :
  node_at fs a = Some m0 -> a <> q ->
  exists m, node_at (modify_at (listed kids) fs q) a = Some m /\ same_fields m0 m.
Proof.
  intros Hm0 Ha. apply node_at_modify_at_outside; [|done]. intros [r ->].
  destruct r as [|j r]; [by rewrite app_nil_r in Ha|].
  by rewrite (node_at_no_children fs q (j :: r) n) in Hm0.
Qed.

Lemma listed_materialized (idx : QModelIndex) (w : World) :
  _folders w = fs -> addressOf idx <> q ->
  materialized idx w -> materialized idx (store q (listed kids) w).
Proof.
  intros Hfs Ha Hmat. destruct idx as [|row [pinfo|]].
  - by apply materialized_invalid in Hmat.
  - apply materialized_sub in Hmat as (pn & c & Hpn & Hc). rewrite Hfs in Hpn.
    apply materialized_sub. simpl. rewrite Hfs.
    assert (Hpq : pinfo <> q).
    { intros ->. assert (pn = n) as -> by congruence. by rewrite Hempty in Hc. }
    destruct (listed_old pinfo pn Hpn Hpq) as (m & Hm & Hsame).
    destruct (same_fields_lookup pn m row Hsame) as [c' Hc']; [by eexists|].
    by exists m, c'.
  - apply materialized_root in Hmat as (Hrow & m0 & Hm0 & Hne). rewrite Hfs in Hm0.
    apply materialized_root. split; [done|]. simpl. rewrite Hfs.
    rewrite <- node_at_single in Hm0.
    destruct (listed_old [row] m0 Hm0 Ha) as (m & Hm & Hsame).
    exists m. rewrite <- node_at_single. split; [done|].
    by rewrite (same_fields_pathIdx _ _ Hsame).
Qed.

Lemma model_invariant_listed (w : World) :
  _folders w = fs -> _pathIdx n = q ->
  (forall job, job ∈ jobs w -> jobAddress job <> Some q) ->
  model_invariant w -> model_invariant (store q (listed kids) w).
Proof.
  intros Hfs Hidx Hother ([Hlen Hinv] & Hunf & Hjob & Hnd). rewrite Hfs in *.
  split; [|split; [|split]]; simpl; rewrite ?Hfs.
  - split; simpl; rewrite ?Hfs; [by rewrite length_modify_at|].
    intros a m Hm.
    destruct (listed_nodes a m Hm)
      as [(_ & m0 & Hm0 & Hsame)|[[-> ->]|(j & -> & Hj)]].
    + rewrite (same_fields_pathIdx _ _ Hsame).
      destruct (Hinv a m0 Hm0) as [?|(? & ? & ?)]; [by left|right].
      split; [done|]. split; [done|]. by apply (same_fields_subs_nil m0).
    + by left.
    + left. by destruct (Hkids j m Hj) as (? & _).
  - intros a m Hm Hf.
    destruct (listed_nodes a m Hm)
      as [(_ & m0 & Hm0 & Hsame)|[[-> ->]|(j & -> & Hj)]].
    + apply (same_fields_subs_nil m0); [done|]. apply (Hunf a m0 Hm0).
      destruct (same_fields_fetched _ _ Hsame) as [<- _]. done.
    + done.
    + by destruct (Hkids j m Hj) as (_ & ? & _).
  - rewrite Forall_forall in Hjob. apply Forall_forall. intros job Hin.
    destruct (Hjob job Hin) as [Hconn Hok]. split; [done|]. intros p Hp.
    destruct (Hok p Hp) as (Hmat & m0 & Hm0 & Hf & Hg).
    assert (Hpq : p <> q) by (intros ->; by apply (Hother job Hin)).
    split.
    + apply listed_materialized; [done| |done].
      by rewrite (jobAddress_Some _ _ Hp).
    + rewrite Hfs in Hm0. destruct (listed_old p m0 Hm0 Hpq) as (m & Hm & Hsame).
      exists m. simpl. rewrite Hfs. split; [done|].
      destruct (same_fields_fetched _ _ Hsame) as [-> ->]. done.
  - done.
Qed.
End append.

(** [slotUpdateDirectories] for a job that is no longer among the
    outstanding jobs, and whose node is listed by no other job. *)
Lemma model_invariant_slotUpdateDirectories (job : LsColJob) (sizes : gmap string Z)
  (list_ : list string) (w w' : World) :
  model_invariant w -> job_ok w job ->
  (forall job' p, job' ∈ jobs w -> jobAddress job = Some p -> jobAddress job' <> Some p) ->
  slotUpdateDirectories job sizes list_ w = Ok w' -> model_invariant w'.
Proof.
  intros Hinv [_ Hok] Hother H. unfold slotUpdateDirectories in H.
  destruct (job_parentIndex job) as [|row ptr] eqn:Hidx; [by injection H as <-|].
  set (idx := Index row ptr) in *.
  assert (Haddr : jobAddress job = Some (addressOf idx)).
  { unfold jobAddress. by rewrite Hidx. }
  destruct (Hok _ Haddr) as (Hmat & n & Hn & Hfetched & Hfetching).
  rewrite Hmat in H. cbn -[node_at addressOf] in H.
  destruct list_ as [|self list]; [done|].
  apply bind_Ok in H as (n' & Hn' & H). apply deref_Ok in Hn'. simpl _folders in Hn'.
  assert (n' = n) as -> by congruence.
  apply bind_Ok in H as (f & _ & H).
  apply bind_Ok in H as ([i' w4] & Hloop & H). injection H as <-.
  set (w2 := emit [BeginInsertRows idx 0 (length list)] w) in *.
  set (w3 := store (addressOf idx) (set_fetched_fetching true false) w2) in *.
  assert (Hn3 : node_at (_folders w3) (addressOf idx)
                = Some (set_fetched_fetching true false n)).
  { unfold w3, w2. cbn -[node_at modify_at addressOf].
    by rewrite node_at_modify_at_same, Hn. }
  destruct (addSubFolder_loop _ _ _ _ _ _ _ _ _ Hn3 Hloop) as (kids & -> & Hkids).
  destruct Hinv as (Htree & Hunf & Hjob & Hnd).
  pose proof (materialized_pathIdx idx w n Htree Hmat Hn) as Hpath.
  apply (model_invariant_ext (store (addressOf idx) (listed kids) w)); [|done..|].
  - simpl. rewrite modify_at_compose. apply modify_at_ext. intros m _.
    unfold compose, listed. done.
  - apply (model_invariant_listed (addressOf idx) n kids (_folders w)).
    + exact Hn.
    + exact (Hunf _ _ Hn Hfetched).
    + intros j c Hc. destruct (Hkids j c Hc) as (Hc1 & Hc2 & Hc3).
      split; [|done]. rewrite Hc1. simpl. by rewrite Hpath.
    + reflexivity.
    + exact Hpath.
    + intros job' Hin. by apply (Hother job' _ Hin).
    + exact (conj Htree (conj Hunf (conj Hjob Hnd))).
Qed.

Lemma model_invariant_jobFinished (k : nat) (r : Reply) (w w' : World) :
  model_invariant w -> jobFinished k r w = Ok w' -> model_invariant w'.
Proof.
  intros (Htree & Hunf & Hjob & Hnd) H. unfold jobFinished in H.
  apply bind_Ok in H as (job & Hk & H). apply at_Ok in Hk.
  set (wd := with_jobs (delete k (jobs w)) w) in *.
  assert (Hwd : model_invariant wd).
  { split; [done|]. split; [done|]. split; simpl.
    - apply Forall_delete. eapply Forall_impl; [exact Hjob|].
      intros job'. by apply job_ok_ext.
    - eapply sublist_NoDup; [exact Hnd|]. apply omap_sublist, sublist_delete. }
  assert (Hjk : job_ok w job).
  { rewrite Forall_forall in Hjob. apply Hjob. by eapply list_elem_of_lookup_2. }
  destruct Hjk as [Hconn Hok]. rewrite Hconn in H.
  destruct r as [list_ sizes|notFound]; cbn in H.
  - apply bind_Ok in H as (w1 & Hslot & H). injection H as <-.
    apply (model_invariant_slotUpdateDirectories job sizes list_ wd); [done| |..|done].
    + apply (job_ok_ext w); [done..|]. by split.
    + intros job' p Hin Hp. simpl in Hin. by eapply jobAddress_delete.
  - by injection H as <-.
Qed.

(** ** Reset and apply *)

Lemma model_invariant_setAccount (w : World) :
  Forall (fun job =>
            job_connections job
            = [(directoryListingSubfolders, slotUpdateDirectoriesSlot)]) (jobs w) ->
  model_invariant (setAccount w).
Proof.
  intros Hconn. split; [|split; [|split]]; simpl.
  - split; simpl; [lia|]. intros [|i [|j p]] n Hn; done.
  - intros [|i [|j p]] n Hn; done.
  - apply Forall_fmap. eapply Forall_impl; [exact Hconn|].
    intros job Hjob. split; [done|]. intros p Hp. done.
  - rewrite jobAddress_invalidate. constructor.
Qed.

Lemma model_invariant_connections (w : World) :
  model_invariant w ->
  Forall (fun job =>
            job_connections job
            = [(directoryListingSubfolders, slotUpdateDirectoriesSlot)]) (jobs w).
Proof.
  intros (_ & _ & Hjob & _). eapply Forall_impl; [exact Hjob|]. by intros job [? _].
Qed.

Lemma model_invariant_slotApplySelectiveSync (w w' : World) :
  model_invariant w -> slotApplySelectiveSync w = Ok w' -> model_invariant w'.
Proof.
  intros Hinv H. unfold slotApplySelectiveSync in H.
  destruct (_dirty w); cbn [negb] in H; [|by injection H as <-].
  destruct (applyRows_seq w (length (folderMap w)) 0 w)
    as (w2 & Hrun & _ & _ & Hjobs & _); [done..|].
  rewrite Hrun in H. injection H as <-. apply model_invariant_setAccount.
  rewrite Hjobs. by apply model_invariant_connections.
Qed.

(** ** Every operation keeps the invariant *)

Lemma model_invariant_run (op : Operation) (w w' : World) :
  model_invariant w -> run op w = Ok w' -> model_invariant w'.
Proof.
  intros Hinv H. destruct op; simpl in H.
  - apply bind_Ok in H as ([k w1] & Hrun & H). injection H as <-.
    by eapply model_invariant_rowCount.
  - apply bind_Ok in H as ([b w1] & Hrun & H). injection H as <-.
    by eapply model_invariant_canFetchMore.
  - by eapply model_invariant_fetchMore.
  - by eapply model_invariant_setData.
  - by eapply model_invariant_jobFinished.
  - injection H as <-. by apply model_invariant_setAccount, model_invariant_connections.
  - injection H as <-. by apply model_invariant_setAccount, model_invariant_connections.
  - by eapply model_invariant_slotApplySelectiveSync.
Qed.

Lemma model_invariant_run_all (ops : list Operation) (w w' : World) :
  model_invariant w -> run_all ops w = Ok w' -> model_invariant w'.
Proof.
  unfold run_all. apply for_each_preserves. intros op s s' _. apply model_invariant_run.
Qed.

(** ** Runs that keep track of dangling pointers *)

Lemma run_tracked_run (op : Operation) (w w' : World) (dangling dangling' : list bool) :
  run_tracked op (w, dangling) = Ok (w', dangling') ->
  run op w = Ok w' /\ length dangling' = length (jobs w').
Proof.
  unfold run_tracked. intros H.
  assert (Hgen : forall flags : World -> list bool,
             (w1 ← run op w; Ok (w1, resize (length (jobs w1)) false (flags w1)))
             = Ok (w', dangling') ->
             run op w = Ok w' /\ length dangling' = length (jobs w')).
  { intros flags Hb. apply bind_Ok in Hb as (w1 & Hrun & Hb).
    injection Hb as <- <-. split; [exact Hrun|apply length_resize]. }
  destruct op as [par|par|par|fuel idx checked|k r| | |];
    try exact (Hgen (fun w1 => markDangling w w1 dangling) H).
  destruct (default false (dangling !! k) && dereferencesPointer k r w); [done|].
  exact (Hgen (fun w1 => delete k (markDangling w w1 dangling)) H).
Qed.

Lemma run_tracked_all_run_all (ops : list Operation) (w w' : World)
  (dangling dangling' : list bool) :
  run_tracked_all ops (w, dangling) = Ok (w', dangling') ->
  length dangling = length (jobs w) ->
  run_all ops w = Ok w' /\ length dangling' = length (jobs w').
Proof.
  unfold run_tracked_all, run_all.
  revert w dangling. induction ops as [|op ops IH]; intros w dangling H Hlen.
  - injection H as <- <-. by split.
  - cbn [for_each] in H. apply bind_Ok in H as ([w1 d1] & Hstep & H).
    apply run_tracked_run in Hstep as [Hrun Hlen1].
    cbn [for_each]. rewrite Hrun. cbn [mbind result_bind]. by apply (IH w1 d1).
Qed.

(** A run on two folders in which the pointer of a job dangles when its
    listing arrives: the first child of the first root is expanded, then
    the second root is looked at for the first time, which resizes
    [_folders].  Without that look the listing is taken in. *)
Lemma dangling_pointer_run :
  run_tracked_all
    [OpFetchMore (Index 0 None);
     OpJobFinished 0 (Listing ["/dav/"; "/dav/docs"] ∅);
     OpFetchMore (Index 0 (Some [0]));
     OpRowCount (Index 1 None);
     OpJobFinished 0 (Listing ["/dav/docs/"; "/dav/docs/old"] ∅)]
    (sampleTwoFolders, []) = Undefined /\
  (exists s,
     run_tracked_all
       [OpFetchMore (Index 0 None);
        OpJobFinished 0 (Listing ["/dav/"; "/dav/docs"] ∅);
        OpFetchMore (Index 0 (Some [0]));
        OpJobFinished 0 (Listing ["/dav/docs/"; "/dav/docs/old"] ∅)]
       (sampleTwoFolders, []) = Ok s) /\
  (exists s,
     run_tracked_all
       [OpRowCount (Index 1 None);
        OpFetchMore (Index 0 None);
        OpJobFinished 0 (Listing ["/dav/"; "/dav/docs"] ∅);
        OpFetchMore (Index 0 (Some [0]));
        OpRowCount (Index 1 None);
        OpJobFinished 0 (Listing ["/dav/docs/"; "/dav/docs/old"] ∅)]
       (sampleTwoFolders, []) = Ok s).
Proof.
  split; [by vm_compute|].
  split; eexists; vm_compute; reflexivity.
Qed.

(** ** Claim about the address invariant *)

(** C9: in every state that the model reaches from its construction by
    a sequence of operations (calls of the view, finished listing jobs,
    resets and the apply operation) in which no dangling pointer is
    dereferenced, the address invariant holds: the [_pathIdx] of a
    materialized root is its row alone, the [_pathIdx] of every node
    with children is its address, the [_pathIdx] of a child is the
    [_pathIdx] of its parent extended by the position of the child
    among the children of the parent, so that its last element is that
    position, and [parent] finds the parent of every materialized
    child.  The counter of [slotUpdateDirectories] and the number of
    children grow together: the counter is also advanced for an entry
    that is skipped, but the name of such an entry is taken from an
    empty list of segments first, so no run with a result skips an
    entry. *)
Theorem address_invariant_reachable (fm : list Folder) (ops : list Operation)
  (w : World) (dangling : list bool) :
  run_tracked_all ops (newModel fm, []) = Ok (w, dangling) ->
  tree_invariant w /\
  (forall row n, materialized (Index row None) w -> _folders w !! row = Some n ->
     _pathIdx n = [row]) /\
  (forall p pn i c, node_at (_folders w) p = Some pn -> _subs pn !! i = Some c ->
     _pathIdx pn = p /\ _pathIdx c = _pathIdx pn ++ [i] /\
     list.last (_pathIdx c) = Some i) /\
  (forall row pinfo, materialized (Index row (Some pinfo)) w ->
     parent (Index row (Some pinfo)) w = Ok (indexOfAddress pinfo)).
Proof.
  intros Htracked.
  apply run_tracked_all_run_all in Htracked as [Hrun _]; [|done].
  pose proof (model_invariant_run_all ops _ _ (model_invariant_newModel fm) Hrun)
    as (Htree & _).
  split; [done|]. split; [|split].
  - intros row n Hmat Hn. apply (materialized_pathIdx (Index row None) w); [done..|].
    simpl addressOf. by rewrite node_at_single.
  - intros p pn i c Hpn Hc. destruct Htree as [_ Hinv].
    assert (Hp : p <> []) by (intros ->; done).
    assert (Hnode : node_at (_folders w) (p ++ [i]) = Some c).
    { rewrite node_at_snoc by done. by rewrite Hpn. }
    assert (Hpidx : _pathIdx pn = p).
    { destruct (Hinv _ _ Hpn) as [?|(_ & _ & Hnil)]; [done|]. by rewrite Hnil in Hc. }
    assert (Hcidx : _pathIdx c = p ++ [i]).
    { destruct (Hinv _ _ Hnode) as [?|(Hlen & _)]; [done|].
      rewrite length_app in Hlen. destruct p; [done|]. simpl in Hlen. lia. }
    split; [done|]. split; [by rewrite Hcidx, Hpidx|].
    rewrite Hcidx. apply last_snoc.
  - intros row pinfo Hmat. by apply parent_sub.
Qed.

Lemma address_invariant_reachable_witness :
  exists w dangling root c,
    run_tracked_all
      [OpFetchMore (Index 0 None);
       OpJobFinished 0
         (Listing ["/dav/"; "/dav/photos/2020"; "/dav/photos/2021"] ∅);
       OpSetData 5 (Index 1 (Some [0])) Unchecked;
       OpFetchMore (Index 1 (Some [0]))]
      (newModel [sampleFolder], []) = Ok (w, dangling) /\
    _folders w !! 0 = Some root /\ _subs root !! 1 = Some c /\
    _pathIdx root = [0] /\ _pathIdx c = [0; 1] /\
    parent (Index 1 (Some [0])) w = Ok (Index 0 None).
Proof.
  eassert (Hrun : run_tracked_all
                    [OpFetchMore (Index 0 None);
                     OpJobFinished 0
                       (Listing ["/dav/"; "/dav/photos/2020"; "/dav/photos/2021"] ∅);
                     OpSetData 5 (Index 1 (Some [0])) Unchecked;
                     OpFetchMore (Index 1 (Some [0]))]
                    (newModel [sampleFolder], []) = Ok (_, _))
    by (vm_compute; reflexivity).
  destruct (address_invariant_reachable _ _ _ _ Hrun) as (_ & _ & Hchildren & Hparent).
  eexists _, _, _, _. split; [exact Hrun|]. split; [reflexivity|]. split; [reflexivity|].
  edestruct (Hchildren [0] _ 1 _ eq_refl eq_refl) as (Hroot & Hc & _).
  split; [exact Hroot|]. split; [rewrite Hc, Hroot; reflexivity|].
  apply (Hparent 1 [0]). reflexivity.
Defined.


(** * Navigation and what the view reads *)

(** ** [index] and [parent] *)

(** X1. Below a materialized node, [index] gives for every row of an
    existing child an index that is materialized and whose [parent] is
    the node again; a top-level index has no parent. *)
Theorem index_parent_round_trip (row : nat) (p : QModelIndex) (w : World)
  (n : SubFolderInfo) :
  tree_invariant w -> materialized p w ->
  node_at (_folders w) (addressOf p) = Some n -> row < length (_subs n) ->
  index row p w = Ok (Index row (Some (addressOf p))) /\
  materialized (Index row (Some (addressOf p))) w /\
  parent (Index row (Some (addressOf p))) w = Ok p /\
  index row InvalidIndex w = Ok (Index row None) /\
  parent (Index row None) w = Ok InvalidIndex.
Proof.
  intros Hinv Hmat Hn Hrow.
  destruct (child_resolve p w n row Hmat Hn Hrow) as [Hchild Hmat'].
  split; [|split; [done|split; [|split]]].
  - destruct p; [by apply materialized_invalid in Hmat|exact Hchild].
  - destruct (parent_sub row (addressOf p) w Hinv Hmat') as (Hparent & _ & _).
    by rewrite (materialized_indexOfAddress p w Hmat) in Hparent.
  - reflexivity.
  - apply parent_root.
Qed.

Lemma index_parent_round_trip_witness :
  index 0 (Index 0 None) sampleDeepWorld = Ok (Index 0 (Some [0])) /\
  parent (Index 0 (Some [0])) sampleDeepWorld = Ok (Index 0 None).
Proof.
  destruct (index_parent_round_trip 0 (Index 0 None) sampleDeepWorld sampleDeepRoot)
    as (Hindex & _ & Hparent & _).
  - apply tree_ok_sound. vm_compute. reflexivity.
  - reflexivity.
  - reflexivity.
  - simpl. lia.
  - split; [exact Hindex|exact Hparent].
Defined.

(** X2. Below a root folder [index] does not look at the row: for a
    row past the last child it still hands out an index, and the node
    of that index cannot be read.  Below a sub folder the same row
    gives the invalid index. *)
Theorem index_root_row_unchecked (prow row : nat) (w : World) (n : SubFolderInfo) :
  materialized (Index prow None) w -> _folders w !! prow = Some n ->
  length (_subs n) <= row ->
  index row (Index prow None) w = Ok (Index row (Some [prow])) /\
  infoForIndex (Index row (Some [prow])) w = Undefined /\
  rowCount (Index row (Some [prow])) w = Undefined /\
  (forall k c, _subs n !! k = Some c -> length (_subs c) <= row ->
               index row (Index k (Some [prow])) w = Ok InvalidIndex).
Proof.
  intros Hmat Hn Hrow.
  apply materialized_root in Hmat as (Hprow & n0 & Hn0 & _).
  assert (n0 = n) as -> by congruence.
  assert (Hinfo : infoForIndex (Index row (Some [prow])) w = Undefined).
  { unfold infoForIndex, deref. rewrite node_at_single, Hn. cbn.
    unfold at_. by rewrite (lookup_ge_None_2 _ _ Hrow). }
  split; [|split; [done|split]].
  - unfold index. simpl classify. rewrite decide_True by done.
    rewrite decide_False by (apply lookup_lt_Some in Hn; lia). done.
  - unfold rowCount. by rewrite Hinfo.
  - intros k c Hc Hlen. unfold index. simpl classify. cbv iota.
    unfold deref. rewrite node_at_single, Hn. cbn.
    rewrite decide_False by (apply lookup_lt_Some in Hc; lia).
    unfold at_. rewrite Hc. cbn. by rewrite decide_True by done.
Qed.

Lemma index_root_row_unchecked_witness :
  index 7 (Index 0 None) sampleDeepWorld = Ok (Index 7 (Some [0])) /\
  infoForIndex (Index 7 (Some [0])) sampleDeepWorld = Undefined /\
  index 7 (Index 0 (Some [0])) sampleDeepWorld = Ok InvalidIndex.
Proof.
  destruct (index_root_row_unchecked 0 7 sampleDeepWorld sampleDeepRoot)
    as (Hindex & Hinfo & _ & Hsub).
  - reflexivity.
  - reflexivity.
  - simpl. lia.
  - split; [exact Hindex|]. split; [exact Hinfo|].
    apply (Hsub 0 sampleDeepChild); [reflexivity|simpl; lia].
Defined.

(** ** The lazy creation of the root nodes *)

(** X3. The first look at the row of a configured folder makes room in
    [_folders] up to that row and fills in the root; the slots created
    on the way stay blank, every other root is left alone, and a second
    look changes nothing. *)
Theorem infoForIndex_root_lazy (row : nat) (w : World) (f : Folder) :
  folderMap w !! row = Some f ->
  let old := default newSubFolderInfo (_folders w !! row) in
  let root := if decide (_pathIdx old = []) then initRoot row f old else old in
  exists w',
    infoForIndex (Index row None) w = Ok (Some [row], w') /\
    (forall r, _folders w' !! r =
               if decide (r = row) then Some root
               else if decide (r < length (_folders w)) then _folders w !! r
                    else if decide (r < row) then Some newSubFolderInfo else None) /\
    _pathIdx root <> [] /\
    folderMap w' = folderMap w /\ _dirty w' = _dirty w /\ jobs w' = jobs w /\
    effects w' = effects w /\
    infoForIndex (Index row None) w' = Ok (Some [row], w').
Proof.
  intros Hf old root.
  pose proof (lookup_lt_Some _ _ _ Hf) as Hrow.
  set (fs := if decide (length (_folders w) <= row)
             then resize (S row) newSubFolderInfo (_folders w) else _folders w).
  assert (Hlen : row < length fs).
  { unfold fs. case_decide; [rewrite length_resize|]; lia. }
  assert (Hold : fs !! row = Some old).
  { unfold fs, old. case_decide as Hle.
    - rewrite lookup_resize_new by lia. by rewrite (lookup_ge_None_2 _ _ Hle).
    - destruct (lookup_lt_is_Some_2 (_folders w) row) as [m Hm]; [lia|].
      by rewrite Hm. }
  assert (Hfs : forall r, r <> row ->
            fs !! r = if decide (r < length (_folders w)) then _folders w !! r
                      else if decide (r < row) then Some newSubFolderInfo else None).
  { intros r Hr. unfold fs. case_decide as Hle.
    - destruct (decide (r < length (_folders w))) as [Hlt|Hge].
      + by rewrite lookup_resize by lia.
      + case_decide.
        * by rewrite lookup_resize_new by lia.
        * by rewrite lookup_resize_old by lia.
    - destruct (decide (r < length (_folders w))) as [Hlt|Hge]; [done|].
      rewrite lookup_ge_None_2 by lia. by rewrite decide_False by lia. }
  assert (Hroot : _pathIdx root <> []).
  { unfold root. case_decide as Hidx; [|done]. simpl. rewrite Hidx. done. }
  set (fs' := match _pathIdx old with
              | [] => <[row := initRoot row f old]> fs
              | _ :: _ => fs
              end).
  assert (Hfs' : forall r, fs' !! r = if decide (r = row) then Some root else fs !! r).
  { intros r. unfold fs', root. destruct (decide (_pathIdx old = [])) as [Hidx|Hidx].
    - rewrite Hidx. case_decide as Hr.
      + subst r. by rewrite list_lookup_insert_eq.
      + by rewrite list_lookup_insert_ne.
    - destruct (_pathIdx old); [done|]. case_decide as Hr; [by subst r|done]. }
  assert (Hrun : infoForIndex (Index row None) w = Ok (Some [row], with_folders fs' w)).
  { unfold infoForIndex. rewrite decide_False by lia. fold fs.
    rewrite (proj2 (at_Ok _ _ _) Hold), (proj2 (at_Ok _ _ _) Hf). done. }
  exists (with_folders fs' w). split; [exact Hrun|]. split.
  { intros r. simpl. rewrite Hfs'. case_decide; [done|]. by apply Hfs. }
  split; [done|]. split; [done|]. split; [done|]. split; [done|]. split; [done|].
  assert (Hnew : fs' !! row = Some root) by (by rewrite Hfs', decide_True).
  unfold infoForIndex. simpl folderMap. rewrite decide_False by lia. simpl _folders.
  rewrite decide_False by (apply lookup_lt_Some in Hnew; lia).
  rewrite (proj2 (at_Ok _ _ _) Hnew), (proj2 (at_Ok _ _ _) Hf).
  cbn [mbind result_bind]. destruct (_pathIdx root) eqn:Hidx; [done|].
  by destruct w.
Qed.

Lemma infoForIndex_root_lazy_witness :
  exists w',
    infoForIndex (Index 0 None) sampleStart = Ok (Some [0], w') /\
    _folders w' !! 0 = Some (initRoot 0 sampleFolder newSubFolderInfo) /\
    infoForIndex (Index 0 None) w' = Ok (Some [0], w').
Proof.
  destruct (infoForIndex_root_lazy 0 sampleStart sampleFolder eq_refl)
    as (w' & Hrun & Hlookup & _ & _ & _ & _ & _ & Hagain).
  exists w'. split; [exact Hrun|]. split; [exact (Hlookup 0)|exact Hagain].
Defined.

(** ** [hasChildren], [rowCount] and [canFetchMore] agree *)

(** X4. When [hasChildren] answers [false], the node has no rows and
    nothing can be fetched; whenever there are rows or something can be
    fetched, [hasChildren] answers [true]. *)
Theorem hasChildren_consistent (parent : QModelIndex) (w : World) (b : bool)
  (w1 : World) :
  hasChildren parent w = Ok (b, w1) ->
  (b = false ->
   rowCount parent w = Ok (0, w1) /\ canFetchMore parent w = Ok (false, w1)) /\
  (forall k w2, rowCount parent w = Ok (k, w2) -> 0 < k -> b = true) /\
  (forall w2, canFetchMore parent w = Ok (true, w2) -> b = true).
Proof.
  intros H. destruct parent as [|row ptr].
  { injection H as <- <-. split; [done|]. split; by intros. }
  unfold hasChildren in H. unfold rowCount, canFetchMore.
  apply bind_Ok in H as ([info w0] & Hinfo & H). rewrite Hinfo.
  cbn [mbind result_bind]. destruct info as [p|].
  - apply bind_Ok in H as (n & Hn & H). rewrite Hn. cbn [mbind result_bind].
    destruct (_fetched n); cbn [negb orb] in *.
    + case_bool_decide as Hsubs.
      * injection H as <- <-. rewrite Hsubs. split; [done|].
        split; [intros k w2 [= <- _] ?; simpl in *; lia|by intros w2 [=]].
      * injection H as <- <-. split; [done|]. split; by intros.
    + injection H as <- <-. split; [done|]. split; by intros.
  - injection H as <- <-. split; [done|].
    split; [intros k w2 [= <- _] ?; lia|by intros w2 [=]].
Qed.

Lemma hasChildren_consistent_witness :
  exists w,
    run_all [OpFetchMore (Index 0 None); OpJobFinished 0 (Listing ["/dav/"] ∅)]
      (newModel [sampleFolder]) = Ok w /\
    hasChildren (Index 0 None) w = Ok (false, w) /\
    rowCount (Index 0 None) w = Ok (0, w) /\
    canFetchMore (Index 0 None) w = Ok (false, w).
Proof.
  eassert (Hrun : run_all [OpFetchMore (Index 0 None);
                           OpJobFinished 0 (Listing ["/dav/"] ∅)]
                    (newModel [sampleFolder]) = Ok _) by (vm_compute; reflexivity).
  eexists. split; [exact Hrun|]. split; [reflexivity|].
  match goal with
  | |- rowCount _ ?w = _ /\ _ =>
      exact (proj1 (hasChildren_consistent (Index 0 None) w false w eq_refl) eq_refl)
  end.
Defined.

(** ** [flags] and [data] *)

(** X5. For a valid index (an index with a row that is not negative),
    the rows that [flags] lets the user check are the rows for which
    [data] reports a check state: the rows of sub folders.  Root
    folders and the add button are not checkable and report no
    state. *)
Theorem flags_checkable_iff_check_state (views : list FolderView)
  (progresses : nat -> ProgressInfo) (row : nat) (ptr : option (list nat))
  (w : World) (v : QVariant) :
  data views progresses (Index row ptr) CheckStateRole w = Ok v ->
  (Z.land (flags (Index row ptr) w) ItemIsUserCheckable <> 0%Z
   <-> exists c, v = VCheckState c) /\
  (Z.land (flags (Index row ptr) w) ItemIsEnabled <> 0%Z).
Proof.
  intros H. unfold flags. destruct ptr as [p|]; simpl in *.
  - apply bind_Ok in H as (pinfo & _ & H). apply bind_Ok in H as (x & _ & H).
    injection H as <-. split; [|done]. split; [by eexists|done].
  - case_decide.
    + apply bind_Ok in H as (f & _ & H). apply bind_Ok in H as (fv & _ & H).
      injection H as <-. split; [|done]. split; [done|by intros [c ?]].
    + injection H as <-. split; [|done]. split; [done|by intros [c ?]].
Qed.

Lemma flags_checkable_iff_check_state_witness :
  data [] (fun _ => mkProgressInfo true "" 0 0 "") (Index 0 (Some [0])) CheckStateRole
    sampleMixedWorld = Ok (VCheckState Checked) /\
  Z.land (flags (Index 0 (Some [0])) sampleMixedWorld) ItemIsUserCheckable <> 0%Z.
Proof.
  split; [reflexivity|].
  apply (proj1 (flags_checkable_iff_check_state [] (fun _ => mkProgressInfo true "" 0 0 "")
                  0 (Some [0]) sampleMixedWorld (VCheckState Checked) eq_refl)).
  by exists Checked.
Defined.

(** X6. The status icon of a folder row hides part of the status of the
    folder.  For two folders at the same row that are both paused, or
    both not paused, [data] makes the same call for the icon, and so
    returns the same icon, whenever both are paused, or both have a
    status among [Problem] and [Success], or both have a status among
    [SyncPrepare], [Undefined] and [SyncRunning]: a problem is shown as
    a success, and the prepare phase and the undefined state are shown
    as a running sync. *)
Theorem data_status_icon (views views' : list FolderView)
  (progresses : nat -> ProgressInfo) (row : nat) (w : World) (fv fv' : FolderView) :
  views !! row = Some fv -> views' !! row = Some fv' ->
  syncPaused fv = syncPaused fv' ->
  syncPaused fv = true
  \/ (syncResultStatus fv ∈ [Problem; Success]
      /\ syncResultStatus fv' ∈ [Problem; Success])
  \/ (syncResultStatus fv ∈ [SyncPrepare; StatusUndefined; SyncRunning]
      /\ syncResultStatus fv' ∈ [SyncPrepare; StatusUndefined; SyncRunning]) ->
  data views progresses (Index row None) FolderStatusIconRole w
  = data views' progresses (Index row None) FolderStatusIconRole w.
Proof.
  intros Hfv Hfv' Hpaused Hstatus. simpl. case_decide as Hrow; [|done].
  destruct (at_ (folderMap w) row) as [f| |]; [|done..]. cbn [mbind result_bind].
  unfold at_. rewrite Hfv, Hfv'. cbn [mbind result_bind].
  rewrite <- Hpaused. destruct (syncPaused fv); [done|].
  destruct Hstatus as [?|[[H1 H2]|[H1 H2]]]; [done| |].
  - rewrite !elem_of_cons, elem_of_nil in H1, H2.
    destruct H1 as [->|[->|[]]], H2 as [->|[->|[]]]; reflexivity.
  - rewrite !elem_of_cons, elem_of_nil in H1, H2.
    destruct H1 as [->|[->|[->|[]]]], H2 as [->|[->|[->|[]]]]; reflexivity.
Qed.

Lemma data_status_icon_witness :
  data [mkFolderView "/home/me/cloud" false Problem]
    (fun _ => mkProgressInfo true "" 0 0 "")
    (Index 0 None) FolderStatusIconRole sampleMixedWorld
  = data [mkFolderView "/home/me/cloud" false Success]
      (fun _ => mkProgressInfo true "" 0 0 "")
      (Index 0 None) FolderStatusIconRole sampleMixedWorld /\
  data [mkFolderView "/home/me/cloud" false Success]
    (fun _ => mkProgressInfo true "" 0 0 "")
    (Index 0 None) FolderStatusIconRole sampleMixedWorld
  = Ok (VIcon (SyncStateIcon Success)).
Proof.
  split; [|reflexivity].
  apply (data_status_icon [mkFolderView "/home/me/cloud" false Problem]
           [mkFolderView "/home/me/cloud" false Success] _ 0 sampleMixedWorld
           (mkFolderView "/home/me/cloud" false Problem)
           (mkFolderView "/home/me/cloud" false Success)
           eq_refl eq_refl eq_refl).
  right. left. split; repeat constructor.
Defined.

(** ** [setData] and [data] *)

Lemma setDataTree_state (p : list nat) (v : CheckState) (fs : list SubFolderInfo)
  (n : SubFolderInfo) :
  p <> [] -> node_at fs p = Some n ->
  _checked <$> node_at (setDataTree p v fs).1 p = Some v.
Proof.
  intros Hp Hn. destruct (decide (_checked n = v)) as [Hsame|Hne].
  { unfold setDataTree. rewrite Hn, decide_False by (by intros ?).
    simpl. rewrite Hn. simpl. by rewrite Hsame. }
  destruct (decide (v = PartiallyChecked)) as [->|Hv].
  - unfold setDataTree. rewrite Hn, decide_True by done. cbv zeta. cbn [fst].
    rewrite above_frame by (by apply not_prefix_parent_self).
    by rewrite node_at_modify_at_same, Hn.
  - rewrite (setDataTree_node p v fs n) by done. simpl. by rewrite cascade_checked.
Qed.

(** X7. What [setData] writes for a sub folder, [data] reads back:
    after a call with the state [v] on a materialized sub folder the
    check state reported for the same index is [v], whatever the call
    did to the nodes above and below. *)
Theorem setData_data_round_trip (views : list FolderView)
  (progresses : nat -> ProgressInfo) (fuel row : nat) (pinfo : list nat)
  (v : CheckState) (w : World) (n : SubFolderInfo) :
  tree_invariant w -> materialized (Index row (Some pinfo)) w ->
  node_at (_folders w) (pinfo ++ [row]) = Some n ->
  length (pinfo ++ [row]) + height n < fuel ->
  exists w',
    setData fuel (Index row (Some pinfo)) v w = Ok w' /\
    data views progresses (Index row (Some pinfo)) CheckStateRole w'
    = Ok (VCheckState v).
Proof.
  intros Hinv Hmat Hn Hfuel.
  pose proof (materialized_sub_nonempty _ _ _ Hmat) as Hne.
  eexists. split; [by apply (setData_refines fuel (Index row (Some pinfo)) v w n)|].
  simpl addressOf.
  assert (Hp : pinfo ++ [row] <> []) by (by destruct pinfo).
  pose proof (setDataTree_state (pinfo ++ [row]) v (_folders w) n Hp Hn) as Hstate.
  rewrite node_at_snoc in Hstate by done.
  unfold data. rewrite bool_decide_eq_false_2 by done. simpl classify. cbv iota.
  unfold deref. rewrite updated_folders.
  destruct (node_at (setDataTree (pinfo ++ [row]) v (_folders w)).1 pinfo) as [pn|];
    [|done].
  cbn -[setDataTree] in Hstate |- *. unfold at_.
  destruct (_subs pn !! row) as [x|]; [|done].
  cbn in Hstate |- *. by injection Hstate as ->.
Qed.

Lemma setData_data_round_trip_witness :
  exists w',
    setData 10 (Index 1 (Some [0])) PartiallyChecked sampleMixedWorld = Ok w' /\
    data [] (fun _ => mkProgressInfo true "" 0 0 "") (Index 1 (Some [0])) CheckStateRole w'
    = Ok (VCheckState PartiallyChecked).
Proof.
  apply (setData_data_round_trip [] (fun _ => mkProgressInfo true "" 0 0 "") 10 1 [0]
           PartiallyChecked sampleMixedWorld (sampleNode "b" "b" [0; 1] [] false Unchecked)).
  - apply tree_ok_sound. vm_compute. reflexivity.
  - reflexivity.
  - reflexivity.
  - simpl. lia.
Defined.

(** ** The row of the add button *)

(** X25. Every top-level row from the number of configured folders on
    is the add button: the top level has one row more than there are
    folders; such a row has no node, no rows and no children, nothing
    can be fetched for it and [fetchMore] does nothing; it is enabled
    but neither selectable nor checkable; no index is made below it;
    and [data] answers [true] for the add-button role and nothing for
    every other role. *)
Theorem add_button_row (views : list FolderView) (progresses : nat -> ProgressInfo)
  (row : nat) (w : World) :
  length (folderMap w) <= row ->
  rowCount InvalidIndex w = Ok (length (folderMap w) + 1, w) /\
  infoForIndex (Index row None) w = Ok (None, w) /\
  rowCount (Index row None) w = Ok (0, w) /\
  hasChildren (Index row None) w = Ok (false, w) /\
  canFetchMore (Index row None) w = Ok (false, w) /\
  fetchMore (Index row None) w = Ok w /\
  flags (Index row None) w = ItemIsEnabled /\
  (forall r, index r (Index row None) w = Ok InvalidIndex) /\
  (forall role, data views progresses (Index row None) role w
                = Ok (if bool_decide (role = AddButtonRole) then VBool true else VInvalid)).
Proof.
  intros Hrow.
  assert (Hinfo : infoForIndex (Index row None) w = Ok (None, w)).
  { unfold infoForIndex. by rewrite decide_True. }
  assert (Hclass : classify (Index row None) w = AddButton).
  { simpl. by rewrite decide_False by lia. }
  split; [done|]. split; [done|].
  split; [unfold rowCount; by rewrite Hinfo|].
  split; [unfold hasChildren; by rewrite Hinfo|].
  split; [unfold canFetchMore; by rewrite Hinfo|].
  split; [unfold fetchMore; by rewrite Hinfo|].
  split; [unfold flags; by rewrite Hclass|].
  split; [intros r; unfold index; by rewrite Hclass|].
  intros role. unfold data. rewrite Hclass.
  case_bool_decide as Hedit; [by subst role|]. by case_bool_decide.
Qed.

Lemma add_button_row_witness :
  rowCount InvalidIndex sampleMixedWorld = Ok (2, sampleMixedWorld) /\
  flags (Index 1 None) sampleMixedWorld = ItemIsEnabled /\
  data [] (fun _ => mkProgressInfo true "" 0 0 "") (Index 1 None) AddButtonRole
    sampleMixedWorld = Ok (VBool true).
Proof.
  destruct (add_button_row [] (fun _ => mkProgressInfo true "" 0 0 "") 1 sampleMixedWorld
              ltac:(simpl; lia))
    as (Hrows & _ & _ & _ & _ & _ & Hflags & _ & Hdata).
  split; [exact Hrows|]. split; [exact Hflags|exact (Hdata AddButtonRole)].
Defined.


(** * Listing jobs, resets and the dirty flag *)

Lemma infoForIndex_None (idx : QModelIndex) (w w0 : World) :
  infoForIndex idx w = Ok (None, w0) -> w0 = w.
Proof.
  destruct idx as [|row [p|]]; intros H.
  - by injection H as <-.
  - simpl in H. apply bind_Ok in H as (pn & _ & H). apply bind_Ok in H as (c & _ & H).
    done.
  - apply infoForIndex_root_forest in H as [[_ ->]|(f & fs1 & ? & _)]; done.
Qed.

(** ** [fetchMore] *)

(** X8. A second [fetchMore] for the same index does nothing: the
    first call marks the node as fetching, so no second job is
    started. *)
Theorem fetchMore_idempotent (idx : QModelIndex) (w w1 : World) :
  fetchMore idx w = Ok w1 -> fetchMore idx w1 = Ok w1.
Proof.
  intros H. unfold fetchMore in H.
  apply bind_Ok in H as ([info w0] & Hinfo & H).
  destruct info as [p|].
  - destruct (infoForIndex_materialized _ _ _ _ Hinfo) as [-> Hmat].
    apply bind_Ok in H as (n & Hn & H). apply deref_Ok in Hn.
    destruct (_fetched n || _fetching n) eqn:Hflags.
    + injection H as <-. unfold fetchMore. rewrite Hmat. cbn -[node_at addressOf].
      rewrite (proj2 (deref_Ok _ _ _) Hn). cbn -[node_at addressOf]. by rewrite Hflags.
    + apply bind_Ok in H as (f & _ & H). injection H as <-.
      set (ws := store (addressOf idx) (set_fetching true) w0).
      set (job := mkLsColJob _ _ _ _).
      assert (Hmat1 : materialized idx (with_jobs (jobs w0 ++ [job]) ws)).
      { apply (materialized_ext _ ws); [done..|]. by apply materialized_modify. }
      assert (Hn1 : node_at (_folders (with_jobs (jobs w0 ++ [job]) ws)) (addressOf idx)
                    = Some (set_fetching true n)).
      { simpl. by rewrite node_at_modify_at_same, Hn. }
      unfold fetchMore. rewrite Hmat1. cbn -[node_at addressOf].
      rewrite (proj2 (deref_Ok _ _ _) Hn1). cbn -[node_at addressOf].
      by rewrite orb_true_r.
  - injection H as <-. apply infoForIndex_None in Hinfo as Hw. subst w0.
    unfold fetchMore. by rewrite Hinfo.
Qed.

Lemma fetchMore_idempotent_witness :
  exists w1,
    fetchMore (Index 0 None) sampleStart = Ok w1 /\ length (jobs w1) = 1 /\
    fetchMore (Index 0 None) w1 = Ok w1.
Proof.
  eassert (Hrun : fetchMore (Index 0 None) sampleStart = Ok _)
    by (vm_compute; reflexivity).
  eexists. split; [exact Hrun|]. split; [reflexivity|].
  exact (fetchMore_idempotent _ _ _ Hrun).
Defined.

(** ** Replies that arrive after a reset *)

(** X9. After [setAccount] or [resetFolders] the reply of every job
    that was still running is dropped: the job is taken from the list,
    the new tree stays empty and nothing is sent out. *)
Theorem late_reply_dropped (k : nat) (r : Reply) (w : World) :
  k < length (jobs w) ->
  jobFinished k r (resetFolders w)
  = Ok (with_jobs (delete k (jobs (resetFolders w))) (resetFolders w)) /\
  jobFinished k r (setAccount w)
  = Ok (with_jobs (delete k (jobs (setAccount w))) (setAccount w)).
Proof.
  intros Hk. assert (forall w0, w0 = setAccount w ->
    jobFinished k r w0 = Ok (with_jobs (delete k (jobs w0)) w0)) as H; [|by split; apply H].
  intros w0 ->. unfold jobFinished.
  destruct (lookup_lt_is_Some_2 (jobs w) k Hk) as [job Hjob].
  assert (Hat : at_ (jobs (setAccount w)) k = Ok (invalidate job)).
  { apply at_Ok. simpl. by rewrite list_lookup_fmap, Hjob. }
  rewrite Hat. cbn [mbind result_bind]. apply for_each_id.
  intros [sig slot] _. destruct slot, r; done.
Qed.

Lemma late_reply_dropped_witness :
  exists w1 w2,
    sampleFetching = Ok w1 /\
    jobFinished 0 (Listing ["/dav/"; "/dav/photos"] ∅) (resetFolders w1) = Ok w2 /\
    _folders w2 = [] /\ jobs w2 = [].
Proof.
  eassert (Hrun : sampleFetching = Ok _) by (vm_compute; reflexivity).
  eexists _, _. split; [exact Hrun|]. split.
  - match goal with
    | |- jobFinished _ _ (resetFolders ?w1) = _ =>
        apply (proj1 (late_reply_dropped 0 (Listing ["/dav/"; "/dav/photos"] ∅) w1
                        ltac:(simpl; lia)))
    end.
  - split; reflexivity.
Defined.

(** ** What every reachable state satisfies *)

Lemma NoDup_omap_lookup {A B : Type} (f : A -> option B) (l : list A)
  (j k : nat) (a a' : A) (b : B) :
  NoDup (omap f l) -> l !! j = Some a -> l !! k = Some a' ->
  f a = Some b -> f a' = Some b -> j = k.
Proof.
  revert j k. induction l as [|x l IH]; intros j k Hnd Hj Hk Ha Ha'; [done|].
  assert (Hin : forall i y, l !! i = Some y -> f y = Some b -> b ∈ omap f l).
  { intros i y Hi Hy. apply list_elem_of_omap. exists y. split; [|done].
    by eapply list_elem_of_lookup_2. }
  destruct j as [|j], k as [|k]; simpl in Hj, Hk.
  - done.
  - injection Hj as ->. simpl in Hnd. rewrite Ha in Hnd.
    apply NoDup_cons in Hnd as [Hnot _]. destruct Hnot. by eapply Hin.
  - injection Hk as ->. simpl in Hnd. rewrite Ha' in Hnd.
    apply NoDup_cons in Hnd as [Hnot _]. destruct Hnot. by eapply Hin.
  - f_equal. apply IH; try done. simpl in Hnd.
    destruct (f x); [by apply NoDup_cons in Hnd as [_ ?]|done].
Qed.

(** X10. In every state that the model reaches from its construction
    by a run in which no dangling pointer is dereferenced: a node that
    was not listed has no children; every outstanding job has its flag;
    no two outstanding jobs with an intact pointer list the same node;
    and the node of every outstanding job with an intact pointer and a
    valid index is marked as fetching and not fetched. *)
Theorem reachable_jobs (fm : list Folder) (ops : list Operation) (w : World)
  (dangling : list bool) :
  run_tracked_all ops (newModel fm, []) = Ok (w, dangling) ->
  (forall p n, node_at (_folders w) p = Some n -> _fetched n = false -> _subs n = []) /\
  length dangling = length (jobs w) /\
  (forall j k job job' p,
     intactJob (w, dangling) j job -> intactJob (w, dangling) k job' ->
     jobAddress job = Some p -> jobAddress job' = Some p -> j = k) /\
  (forall k job p, intactJob (w, dangling) k job -> jobAddress job = Some p ->
     exists n, node_at (_folders w) p = Some n /\
               _fetched n = false /\ _fetching n = true).
Proof.
  intros Htracked.
  apply run_tracked_all_run_all in Htracked as [Hrun Hlen]; [|done].
  pose proof (model_invariant_run_all ops _ _ (model_invariant_newModel fm) Hrun)
    as (_ & Hunf & Hjob & Hnd).
  split; [exact Hunf|]. split; [exact Hlen|]. split.
  - intros j k job job' p [Hj _] [Hk _] Hp Hp'.
    exact (NoDup_omap_lookup jobAddress (jobs w) j k job job' p Hnd Hj Hk Hp Hp').
  - intros k job p [Hk _] Hp. rewrite Forall_forall in Hjob.
    destruct (Hjob job (list_elem_of_lookup_2 _ _ _ Hk)) as [_ Hok].
    by destruct (Hok p Hp) as [_ ?].
Qed.

Lemma reachable_jobs_witness :
  exists w dangling job,
    run_tracked_all [OpFetchMore (Index 0 None); OpFetchMore (Index 0 None)]
      (newModel [sampleFolder], []) = Ok (w, dangling) /\
    intactJob (w, dangling) 0 job /\ length (jobs w) = 1 /\
    exists n, node_at (_folders w) [0] = Some n /\
              _fetched n = false /\ _fetching n = true.
Proof.
  eassert (Hrun : run_tracked_all
                    [OpFetchMore (Index 0 None); OpFetchMore (Index 0 None)]
                    (newModel [sampleFolder], []) = Ok (_, _))
    by (vm_compute; reflexivity).
  eexists _, _, _. split; [exact Hrun|].
  split; [split; reflexivity|]. split; [reflexivity|].
  exact (proj2 (proj2 (proj2 (reachable_jobs _ _ _ _ Hrun))) 0 _ [0]
           (conj eq_refl eq_refl) eq_refl).
Defined.

(** ** [setData] on an index without a node *)

(** X11. For the invalid index and for the row of the add button there
    is no node: [setData] leaves the tree alone, yet it marks the model
    dirty and announces a change of that index. *)
Theorem setData_without_node (fuel : nat) (idx : QModelIndex) (v : CheckState)
  (w : World) :
  idx = InvalidIndex \/ (exists row, idx = Index row None /\ length (folderMap w) <= row) ->
  setData (S fuel) idx v w
  = Ok (emit [DirtyChanged; DataChanged idx] (with_dirty true w)).
Proof.
  intros Hidx. rewrite setData_unfold. unfold setData_body.
  assert (Hinfo : infoForIndex idx w = Ok (None, w)).
  { destruct Hidx as [->|(row & -> & Hrow)]; [done|].
    unfold infoForIndex. by rewrite decide_True. }
  by rewrite Hinfo.
Qed.

Lemma setData_without_node_witness :
  setData 1 (Index 1 None) Unchecked sampleStart
  = Ok (emit [DirtyChanged; DataChanged (Index 1 None)] (with_dirty true sampleStart)).
Proof.
  apply setData_without_node. right. exists 1. split; [reflexivity|simpl; lia].
Defined.

(** ** The set of changed paths *)

(** X12. The set of changed paths is empty exactly when the old and
    the new black list hold the same paths, in whatever order and
    however often; and it does not depend on which list is the old
    one. *)
Theorem changedPaths_empty_iff (oldBlackList blackList : list string) :
  (changedPaths oldBlackList blackList = ∅
   <-> forall p, p ∈ oldBlackList <-> p ∈ blackList) /\
  changedPaths oldBlackList blackList = changedPaths blackList oldBlackList /\
  (forall p, p ∈ changedPaths oldBlackList blackList
             <-> (p ∈ oldBlackList /\ p ∉ blackList) \/ (p ∈ blackList /\ p ∉ oldBlackList)).
Proof.
  unfold changedPaths.
  set (A := list_to_set oldBlackList : gset string).
  set (B := list_to_set blackList : gset string).
  assert (Hmem : forall p, p ∈ A ∖ B ∪ B ∖ A
                           <-> (p ∈ oldBlackList /\ p ∉ blackList)
                               \/ (p ∈ blackList /\ p ∉ oldBlackList)).
  { intros p. unfold A, B.
    rewrite elem_of_union, !elem_of_difference, !elem_of_list_to_set. done. }
  split; [|split; [apply (comm_L (∪))|exact Hmem]]. split.
  - intros H p. pose proof (Hmem p) as Hp. rewrite H in Hp.
    destruct (decide (p ∈ oldBlackList)), (decide (p ∈ blackList)); try tauto.
    + exfalso. apply (not_elem_of_empty (C := gset string) p). apply Hp. by left.
    + exfalso. apply (not_elem_of_empty (C := gset string) p). apply Hp. by right.
  - intros H. apply set_eq. intros p. rewrite Hmem. split.
    + intros [[H1 H2]|[H1 H2]]; exfalso; apply H2; by apply H.
    + by intros ?%not_elem_of_empty.
Qed.

(** ** The children made from a listing *)

(** The child that the loop of [slotUpdateDirectories] makes from an
    entry of the listing, below the node [n] of a folder with the root
    path [pathToRemove]; the address and the check state are stated
    apart. *)
Lemma addSubFolder_loop_entries (p : list nat) (sizes : gmap string Z)
  (pathToRemove : string) (list : list string) :
  forall (i : nat) (w : World) (i' : nat) (w' : World) (n : SubFolderInfo),
    node_at (_folders w) p = Some n ->
    for_each list (addSubFolder p sizes pathToRemove) (i, w) = Ok (i', w') ->
    exists kids,
      w' = store p (fun m => set_subs (_subs m ++ kids) m) w /\
      i' = i + length list /\
      Forall2 (fun entry c =>
                 _path c = QString.remove entry pathToRemove /\ _path c <> "" /\
                 last_ (QString.splitSkipEmpty (_path c) "/") = Ok (_name c) /\
                 _size c = default 0%Z (sizes !! entry) /\
                 _folder c = _folder n /\
                 _subs c = [] /\ _fetched c = false /\ _fetching c = false)
        list kids /\
      forall j c, kids !! j = Some c -> _pathIdx c = _pathIdx n ++ [i + j].
Proof.
  induction list as [|path list IH]; intros i w i' w' n Hn H; simpl in H.
  - injection H as <- <-. exists []. split; [|split; [simpl; lia|split; [constructor|done]]].
    unfold store. destruct w as [fs d fm js es]. unfold with_folders. simpl. f_equal.
    rewrite <- (modify_at_id fs p) at 1. apply modify_at_ext.
    intros m _. rewrite app_nil_r. by rewrite set_subs_id.
  - apply bind_Ok in H as ([i1 w1] & Hstep & H).
    apply addSubFolder_Ok in Hstep
      as (pn & name & checked & Hpn & -> & Hne & Hname & _ & ->).
    assert (pn = n) as -> by congruence.
    set (new := mkSubFolderInfo _ _ _ _ _ _ _ _ _) in *.
    set (w1 := store p (fun m => set_subs (_subs m ++ [new]) m) w) in *.
    assert (Hn1 : node_at (_folders w1) p = Some (set_subs (_subs n ++ [new]) n)).
    { simpl. by rewrite node_at_modify_at_same, Hn. }
    destruct (IH _ _ _ _ _ Hn1 H) as (kids & -> & -> & Hkids & Hidx).
    exists (new :: kids). split; [|split; [simpl; lia|split]].
    + unfold store, w1, store, with_folders. simpl. f_equal.
      rewrite modify_at_compose. apply modify_at_ext. intros m _.
      unfold compose. rewrite subs_set_subs, set_subs_set_subs.
      by rewrite <- app_assoc.
    + constructor; [by repeat split|exact Hkids].
    + intros [|j] c Hc.
      * injection Hc as <-. simpl. by rewrite Nat.add_0_r.
      * rewrite (Hidx j c Hc). simpl. do 2 f_equal. lia.
Qed.

(** X13. A listing that gives a result has a first entry, which is
    dropped; every other entry becomes one child, in the order of the
    listing: the path is the entry without the root path, the name is
    its last segment, the size is the one the job recorded for the entry
    or zero, and the child is neither fetched nor fetching.  The node
    is marked as fetched.  The rows announced to the view run from 0 to
    the number of the new children, one more than the rows that were
    inserted. *)
Theorem slotUpdateDirectories_children (job : LsColJob) (sizes : gmap string Z)
  (list_ : list string) (w w' : World) (n : SubFolderInfo) :
  materialized (job_parentIndex job) w ->
  node_at (_folders w) (addressOf (job_parentIndex job)) = Some n ->
  slotUpdateDirectories job sizes list_ w = Ok w' ->
  exists self list f kids,
    list_ = self :: list /\ folderOf n w = Ok f /\
    _folders w'
    = modify_at (listed kids) (_folders w) (addressOf (job_parentIndex job)) /\
    Forall2 (fun entry c =>
               _path c
               = QString.remove entry
                   (if QString.endsWithChar (remoteUrlPath f) "/"
                    then remoteUrlPath f else remoteUrlPath f +:+ "/") /\
               _path c <> "" /\
               last_ (QString.splitSkipEmpty (_path c) "/") = Ok (_name c) /\
               _size c = default 0%Z (sizes !! entry) /\
               _folder c = _folder n /\
               _subs c = [] /\ _fetched c = false /\ _fetching c = false)
      list kids /\
    (forall j c, kids !! j = Some c -> _pathIdx c = _pathIdx n ++ [j]) /\
    effects w'
    = effects w ++ [BeginInsertRows (job_parentIndex job) 0 (length kids); EndInsertRows] /\
    _dirty w' = _dirty w /\ folderMap w' = folderMap w /\ jobs w' = jobs w.
Proof.
  intros Hmat Hn H. unfold slotUpdateDirectories in H.
  destruct (job_parentIndex job) as [|row ptr] eqn:Hidx;
    [by apply materialized_invalid in Hmat|].
  set (idx := Index row ptr) in *.
  rewrite Hmat in H. cbn -[node_at addressOf] in H.
  destruct list_ as [|self list]; [done|].
  apply bind_Ok in H as (n' & Hn' & H). apply deref_Ok in Hn'. simpl _folders in Hn'.
  assert (n' = n) as -> by congruence.
  apply bind_Ok in H as (f & Hf & H).
  apply bind_Ok in H as ([i' w4] & Hloop & H). injection H as <-.
  set (w2 := emit [BeginInsertRows idx 0 (length list)] w) in *.
  set (w3 := store (addressOf idx) (set_fetched_fetching true false) w2) in *.
  assert (Hn3 : node_at (_folders w3) (addressOf idx)
                = Some (set_fetched_fetching true false n)).
  { unfold w3, w2. cbn -[node_at modify_at addressOf].
    by rewrite node_at_modify_at_same, Hn. }
  destruct (addSubFolder_loop_entries _ _ _ _ _ _ _ _ _ Hn3 Hloop)
    as (kids & -> & _ & Hkids & Hpath).
  exists self, list, f, kids. split; [done|]. split; [exact Hf|]. split.
  { simpl. rewrite modify_at_compose. apply modify_at_ext. intros m _.
    unfold compose, listed. done. }
  split; [exact Hkids|]. split; [exact Hpath|]. split; [|done].
  simpl. rewrite <- app_assoc. simpl. by rewrite (Forall2_length _ _ _ Hkids).
Qed.

Lemma slotUpdateDirectories_children_witness :
  exists w1 w' kids,
    sampleFetching = Ok w1 /\
    slotUpdateDirectories
      (mkLsColJob "///" [] [(directoryListingSubfolders, slotUpdateDirectoriesSlot)]
         (Index 0 None))
      (<["/dav/a/b" := 7%Z]> ∅) ["/dav/"; "/dav/a/b"; "/dav/c"] w1 = Ok w' /\
    (_subs <$> _folders w' !! 0) = Some kids /\
    (_name <$> kids) = ["b"; "c"] /\ (_size <$> kids) = [7%Z; 0%Z] /\
    effects w' = [BeginInsertRows (Index 0 None) 0 (length kids); EndInsertRows].
Proof.
  eassert (Hrun : sampleFetching = Ok _) by (vm_compute; reflexivity).
  match type of Hrun with
  | _ = Ok ?w1 =>
      eassert (Hslot : slotUpdateDirectories
                         (mkLsColJob "///" []
                            [(directoryListingSubfolders, slotUpdateDirectoriesSlot)]
                            (Index 0 None))
                         (<["/dav/a/b" := 7%Z]> ∅) ["/dav/"; "/dav/a/b"; "/dav/c"] w1
                       = Ok _)
        by (vm_compute; reflexivity)
  end.
  eexists _, _, _. split; [exact Hrun|]. split; [exact Hslot|].
  match type of Hslot with
  | slotUpdateDirectories ?job ?sizes ?l ?w1 = Ok ?w' =>
      destruct (slotUpdateDirectories_children job sizes l w1 w'
                  (set_fetching true (initRoot 0 sampleFolder newSubFolderInfo))
                  eq_refl eq_refl Hslot)
        as (self & list & f & kids & _ & _ & Hfs & _ & _ & Heff & _)
  end.
  split; [reflexivity|]. split; [reflexivity|]. split; [reflexivity|].
  rewrite Heff. apply (f_equal (fun fs => _subs <$> fs !! 0)) in Hfs.
  vm_compute in Hfs. injection Hfs as <-. reflexivity.
Defined.

(** ** Only [setData] makes the model dirty *)

Lemma slotUpdateDirectories_frame (job : LsColJob) (sizes : gmap string Z)
  (list_ : list string) (w w' : World) :
  slotUpdateDirectories job sizes list_ w = Ok w' ->
  _dirty w' = _dirty w /\ folderMap w' = folderMap w.
Proof.
  intros H. unfold slotUpdateDirectories in H.
  destruct (job_parentIndex job) as [|row ptr]; [by injection H as <-|].
  apply bind_Ok in H as ([info w0] & Hinfo & H).
  destruct (infoForIndex_world _ _ _ _ Hinfo) as (Hd & Hfm & _ & _).
  destruct list_ as [|self list]; [done|]. destruct info as [pp|]; [|done].
  apply bind_Ok in H as (n & Hn & H). apply deref_Ok in Hn.
  apply bind_Ok in H as (f & _ & H).
  apply bind_Ok in H as ([i' w4] & Hloop & H). injection H as <-.
  assert (Hn3 : node_at
                  (_folders
                     (store pp (set_fetched_fetching true false)
                        (emit [BeginInsertRows (Index row ptr) 0 (length list)] w0))) pp
                = Some (set_fetched_fetching true false n)).
  { simpl in Hn. simpl. by rewrite node_at_modify_at_same, Hn. }
  destruct (addSubFolder_loop _ _ _ _ _ _ _ _ _ Hn3 Hloop) as (kids & -> & _).
  by rewrite <- Hd, <- Hfm.
Qed.

Lemma jobFinished_frame (k : nat) (r : Reply) (w w' : World) :
  jobFinished k r w = Ok w' -> _dirty w' = _dirty w /\ folderMap w' = folderMap w.
Proof.
  intros H. unfold jobFinished in H. apply bind_Ok in H as (job & _ & H).
  revert H. apply (for_each_preserves
                     (fun s => _dirty s = _dirty w /\ folderMap s = folderMap w)); [|done].
  intros [sig slot] s s' _ [Hd Hfm] Hs. destruct slot, r as [list_ sizes|notFound].
  - apply slotUpdateDirectories_frame in Hs as [-> ->]. done.
  - by injection Hs as <-.
Qed.

Lemma browsing_frame (fm : list Folder) (ops : list Operation) (w : World) :
  Forall (fun op => forall fuel idx checked, op <> OpSetData fuel idx checked) ops ->
  run_all ops (newModel fm) = Ok w ->
  _dirty w = false /\ folderMap w = fm.
Proof.
  intros Hops Hrun.
  revert Hrun. unfold run_all.
  apply (for_each_preserves (fun s => _dirty s = false /\ folderMap s = fm)); [|done].
  intros op s s' Hin [Hd Hfm] Hs. rewrite Forall_forall in Hops.
  specialize (Hops op Hin).
  destruct op as [par|par|par|fuel idx checked|k r| | |]; simpl in Hs.
  - apply bind_Ok in Hs as ([k s1] & Hs & Hs1). injection Hs1 as <-.
    destruct par as [|row ptr]; [by injection Hs as _ <-|].
    unfold rowCount in Hs. apply bind_Ok in Hs as ([info s0] & Hinfo & Hs).
    destruct (infoForIndex_world _ _ _ _ Hinfo) as (Hd0 & Hfm0 & _ & _).
    assert (s1 = s0) as ->.
    { destruct info as [p|]; [|by injection Hs as _ <-].
      apply bind_Ok in Hs as (n & _ & Hs). by injection Hs as _ <-. }
    by rewrite Hd0, Hfm0.
  - apply bind_Ok in Hs as ([b s1] & Hs & Hs1). injection Hs1 as <-.
    unfold canFetchMore in Hs. apply bind_Ok in Hs as ([info s0] & Hinfo & Hs).
    destruct (infoForIndex_world _ _ _ _ Hinfo) as (Hd0 & Hfm0 & _ & _).
    assert (s1 = s0) as ->.
    { destruct info as [p|]; [|by injection Hs as _ <-].
      apply bind_Ok in Hs as (n & _ & Hs).
      destruct (_fetched n || _fetching n); by injection Hs as _ <-. }
    by rewrite Hd0, Hfm0.
  - unfold fetchMore in Hs. apply bind_Ok in Hs as ([info s0] & Hinfo & Hs).
    destruct (infoForIndex_world _ _ _ _ Hinfo) as (Hd0 & Hfm0 & _ & _).
    destruct info as [p|]; [|injection Hs as <-; by rewrite Hd0, Hfm0].
    apply bind_Ok in Hs as (n & _ & Hs).
    destruct (_fetched n || _fetching n); [injection Hs as <-; by rewrite Hd0, Hfm0|].
    apply bind_Ok in Hs as (f & _ & Hs). injection Hs as <-. simpl.
    by rewrite Hd0, Hfm0.
  - by destruct (Hops fuel idx checked).
  - apply jobFinished_frame in Hs as [-> ->]. done.
  - by injection Hs as <-.
  - by injection Hs as <-.
  - unfold slotApplySelectiveSync in Hs. rewrite Hd in Hs. by injection Hs as <-.
Qed.

(** X14. Looking at the tree does not touch the black lists: along a
    run without a call of [setData], and in which no dangling pointer
    is dereferenced, the model never gets dirty and the folders stay as
    configured, so that the apply operation finds nothing to do. *)
Theorem browsing_keeps_blacklists (fm : list Folder) (ops : list Operation)
  (w : World) (dangling : list bool) :
  Forall (fun op => forall fuel idx checked, op <> OpSetData fuel idx checked) ops ->
  run_tracked_all ops (newModel fm, []) = Ok (w, dangling) ->
  _dirty w = false /\ folderMap w = fm /\ slotApplySelectiveSync w = Ok w.
Proof.
  intros Hops Htracked.
  apply run_tracked_all_run_all in Htracked as [Hrun _]; [|done].
  destruct (browsing_frame fm ops w Hops Hrun) as [Hd Hfm].
  split; [done|]. split; [done|].
  unfold slotApplySelectiveSync. by rewrite Hd.
Qed.

Lemma browsing_keeps_blacklists_witness :
  exists w dangling,
    run_tracked_all [OpFetchMore (Index 0 None);
                     OpJobFinished 0 (Listing ["/dav/"; "/dav/photos"] ∅);
                     OpApplySelectiveSync]
      (newModel [sampleFolder], []) = Ok (w, dangling) /\
    folderMap w = [sampleFolder] /\ slotApplySelectiveSync w = Ok w.
Proof.
  eassert (Hrun : run_tracked_all
                    [OpFetchMore (Index 0 None);
                     OpJobFinished 0 (Listing ["/dav/"; "/dav/photos"] ∅);
                     OpApplySelectiveSync]
                    (newModel [sampleFolder], []) = Ok (_, _))
    by (vm_compute; reflexivity).
  eexists _, _. split; [exact Hrun|].
  refine (proj2 (browsing_keeps_blacklists _ _ _ _ _ Hrun)).
  repeat constructor; discriminate.
Defined.


(** * The projection to the black list, over the whole tree *)

Lemma createBlackList_unfold (root : SubFolderInfo) (old : list string) :
  createBlackList (Some root) old
  = match _checked root with
    | Unchecked => [_path root]
    | Checked => []
    | PartiallyChecked =>
        if _fetched root
        then List.concat (List.map (fun c => createBlackList (Some c) old) (_subs root))
        else List.filter (fun it => QString.startsWith it (_path root)) old
    end.
Proof.
  destruct root as [name path pathIdx size subs fetched fetching checked folder]; simpl.
  destruct checked; [done| |done]. destruct fetched.
  - by rewrite createBlackList_loop_concat.
  - by rewrite createBlackList_fold_filter.
Qed.

Lemma elem_of_concat_map {A B : Type} (f : A -> list B) (l : list A) (b : B) :
  b ∈ List.concat (List.map f l) <-> exists a, a ∈ l /\ b ∈ f a.
Proof.
  induction l as [|x l IH]; simpl.
  - split; [by intros ?%not_elem_of_nil|by intros (a & ?%not_elem_of_nil & _)].
  - rewrite elem_of_app, IH. split.
    + intros [Hb|(a & Ha & Hb)]; [exists x; split; [left|done]|exists a; split; [by right|done]].
    + intros (a & Ha & Hb). apply elem_of_cons in Ha as [->|Ha]; [by left|right; by exists a].
Qed.

(** X15. The projection invents nothing: every entry of the new black
    list is an entry of the old one or the path of an unchecked node of
    the tree. *)
Theorem createBlackList_sound (old : list string) (e : string) :
  forall root : SubFolderInfo,
    e ∈ createBlackList (Some root) old ->
    e ∈ old \/
    (_checked root = Unchecked /\ _path root = e) \/
    (exists s d, node_at (_subs root) s = Some d /\
                 _checked d = Unchecked /\ _path d = e).
Proof.
  intros root. remember (height root) as h eqn:Hh. revert root Hh.
  induction h as [h IH] using lt_wf_ind. intros root -> He.
  rewrite createBlackList_unfold in He. destruct (_checked root) eqn:Hc.
  - apply list_elem_of_singleton in He as ->. right. by left.
  - destruct (_fetched root).
    + apply elem_of_concat_map in He as (c & Hin & He).
      pose proof (height_child root c Hin) as Hlt.
      apply list_elem_of_lookup in Hin as [i Hi].
      destruct (IH (height c) Hlt c eq_refl He) as [?|[[Hcu Hcp]|(s & d & Hd & Hdu & Hdp)]].
      * by left.
      * right. right. exists [i], c. by rewrite node_at_single.
      * right. right. exists (i :: s), d. split; [|done].
        destruct s as [|j s]; [done|]. rewrite node_at_cons_cons, Hi. exact Hd.
    + left. apply list_elem_of_In in He. apply List.filter_In in He as [He _].
      by apply list_elem_of_In.
  - by apply not_elem_of_nil in He.
Qed.

Lemma createBlackList_sound_witness :
  "docs/old" ∈ ["x"] \/
  (_checked sampleDocsFetched = Unchecked /\ _path sampleDocsFetched = "docs/old") \/
  (exists s d, node_at (_subs sampleDocsFetched) s = Some d /\
               _checked d = Unchecked /\ _path d = "docs/old").
Proof.
  apply (createBlackList_sound ["x"] "docs/old" sampleDocsFetched).
  vm_compute. left.
Defined.

(** X16. An exclusion survives the apply operation and the next
    listing: the path of an unchecked node below partially checked,
    fetched ancestors is in the projected black list, and a child with
    that path that is listed again below a parent that is not unchecked
    starts unchecked. *)
Theorem unchecked_survives_apply (old : list string) (init : CheckState)
  (s : list nat) :
  forall (root d : SubFolderInfo),
    node_at (_subs root) s = Some d -> _checked d = Unchecked ->
    _checked root = PartiallyChecked -> _fetched root = true ->
    (forall s' x a, s = s' ++ x -> s' <> [] -> x <> [] ->
                    node_at (_subs root) s' = Some a ->
                    _checked a = PartiallyChecked /\ _fetched a = true) ->
    _path d ∈ createBlackList (Some root) old /\
    blackListState (_path d) (createBlackList (Some root) old) init = Unchecked.
Proof.
  assert (Hin : forall (root d : SubFolderInfo),
             node_at (_subs root) s = Some d -> _checked d = Unchecked ->
             _checked root = PartiallyChecked -> _fetched root = true ->
             (forall s' x a, s = s' ++ x -> s' <> [] -> x <> [] ->
                             node_at (_subs root) s' = Some a ->
                             _checked a = PartiallyChecked /\ _fetched a = true) ->
             _path d ∈ createBlackList (Some root) old).
  { induction s as [|i s IH]; intros root d Hd Hdu Hrc Hrf Hchain; [done|].
    rewrite createBlackList_unfold, Hrc, Hrf. apply elem_of_concat_map.
    destruct s as [|j s].
    - rewrite node_at_single in Hd. exists d. split; [by eapply list_elem_of_lookup_2|].
      rewrite createBlackList_unfold, Hdu. by left.
    - rewrite node_at_cons_cons in Hd. destruct (_subs root !! i) as [c|] eqn:Hc; [|done].
      cbn -[node_at] in Hd. exists c. split; [by eapply list_elem_of_lookup_2|].
      destruct (Hchain [i] (j :: s) c) as [Hcc Hcf]; [done..|by rewrite node_at_single|].
      apply (IH c d Hd Hdu Hcc Hcf). intros s' x a Hs' Hne Hx Ha.
      apply (Hchain (i :: s') x a); [by rewrite Hs'|done|done|].
      destruct s' as [|k s']; [done|]. by rewrite node_at_cons_cons, Hc. }
  intros root d Hd Hdu Hrc Hrf Hchain.
  pose proof (Hin root d Hd Hdu Hrc Hrf Hchain) as Hmem. split; [exact Hmem|].
  rewrite blackListState_spec. by rewrite bool_decide_eq_true_2.
Qed.

Lemma unchecked_survives_apply_witness :
  "docs/old" ∈ createBlackList (Some sampleDocsFetched) ["x"] /\
  blackListState "docs/old" (createBlackList (Some sampleDocsFetched) ["x"]) Checked
  = Unchecked.
Proof.
  apply (unchecked_survives_apply ["x"] Checked [0] sampleDocsFetched
           (sampleLeaf "old" "docs/old" [0; 0; 0] Unchecked)); try reflexivity.
  intros s' x a Hs Hs' Hx. apply (f_equal length) in Hs.
  rewrite length_app in Hs. destruct s', x; simpl in Hs; try done; lia.
Defined.

(** ** A checked root at apply time *)

(** X24. When the model is dirty and the root of a folder is fetched
    and checked, the apply operation empties the black list of that
    folder, whatever the old black list held and whatever the states of
    the nodes below the root are. *)
Theorem apply_checked_root_clears (w : World) (i : nat) (root : SubFolderInfo)
  (folder : Folder) :
  _dirty w = true ->
  _folders w !! i = Some root -> folderMap w !! i = Some folder ->
  _fetched root = true -> _checked root = Checked ->
  exists w',
    slotApplySelectiveSync w = Ok w' /\
    folderMap w' !! i = Some (setSelectiveSyncBlackList [] folder) /\
    (selectiveSyncBlackList folder <> [] -> ScheduleSync (alias folder) ∈ effects w').
Proof.
  intros Hd Hroot Hfolder Hf Hc. unfold slotApplySelectiveSync. rewrite Hd. cbn [negb].
  destruct (applyRows_seq w (length (folderMap w)) 0 w)
    as (w2 & Hrun & _ & _ & _ & _ & _ & Hfm & Hes); [done..|].
  rewrite Hrun. cbn [mbind result_bind]. eexists. split; [done|].
  pose proof (lookup_lt_Some _ _ _ Hfolder) as Hi.
  assert (Hbl : createBlackList (Some root) (selectiveSyncBlackList folder) = []).
  { by rewrite createBlackList_unfold, Hc. }
  split.
  - simpl. rewrite (Hfm i folder) by (done || lia).
    unfold applyFolder. by rewrite Hroot, Hf, Hbl.
  - intros Hne. simpl. rewrite Hes. apply elem_of_app. left. apply elem_of_app. right.
    apply list_elem_of_In, List.in_flat_map. exists i.
    split; [apply List.in_seq; lia|]. apply list_elem_of_In.
    unfold applyEffects. rewrite Hroot, Hfolder, Hf, Hbl.
    assert (Hch : changedPaths (selectiveSyncBlackList folder) [] <> ∅).
    { destruct (selectiveSyncBlackList folder) as [|p l]; [done|].
      intros Hempty. apply (not_elem_of_empty (C := gset string) p). rewrite <- Hempty.
      unfold changedPaths. apply elem_of_union. left. apply elem_of_difference.
      split; [|apply not_elem_of_empty]. apply elem_of_list_to_set. by left. }
    rewrite decide_False by done. rewrite !elem_of_app. right. right. by left.
Qed.

Lemma apply_checked_root_clears_witness :
  exists w',
    slotApplySelectiveSync (with_dirty true sampleDeepWorld) = Ok w' /\
    (selectiveSyncBlackList <$> folderMap w' !! 0) = Some [] /\
    ScheduleSync "home" ∈ effects w'.
Proof.
  destruct (apply_checked_root_clears (with_dirty true sampleDeepWorld) 0 sampleDeepRoot
              sampleFolder eq_refl eq_refl eq_refl eq_refl eq_refl)
    as (w' & Hrun & Hfm & Hsched).
  exists w'. split; [exact Hrun|]. split; [by rewrite Hfm|].
  apply Hsched. discriminate.
Defined.


(** * The account: URLs, settings and SSL errors *)

(** ** Joining paths *)

Lemma concatUrlPath_path (url : QUrl) (rel : string) (items : list (string * string)) :
  path (concatUrlPath url rel items) = joinedPath (path url) rel.
Proof.
  unfold joinedPath, concatUrlPath. cbv zeta. simpl.
  by destruct (decide (0 < length items)).
Qed.

Lemma joinedPath_empty (base : string) : joinedPath base "" = base.
Proof. reflexivity. Qed.

Lemma joinedPath_junction (base rel : string) :
  rel <> "" ->
  joinedPath base rel = withoutTrailingSlash base +:+ "/" +:+ withoutLeadingSlash rel.
Proof.
  intros Hrel. unfold joinedPath, concatUrlPath. cbv zeta. simpl path.
  assert (QString.isEmpty rel = false) as -> by (by destruct rel).
  simpl. by apply junction_cases.
Qed.

Lemma append_nonempty_r (s t : string) : t <> "" -> s +:+ t <> "".
Proof. intros Ht. destruct s; [done|]. by rewrite append_cons. Qed.

Lemma endsWithChar_append (s t : string) (c : ascii) :
  t <> "" -> QString.endsWithChar (s +:+ t) c = QString.endsWithChar t c.
Proof.
  intros Ht. induction s as [|d s IH]; [done|]. rewrite append_cons.
  pose proof (append_nonempty_r s t Ht) as Hne.
  simpl. destruct (s +:+ t); [done|]. exact IH.
Qed.

Lemma chop1_append (s t : string) :
  t <> "" -> QString.chop1 (s +:+ t) = s +:+ QString.chop1 t.
Proof.
  intros Ht. induction s as [|d s IH]; [done|]. rewrite !append_cons.
  pose proof (append_nonempty_r s t Ht) as Hne.
  simpl. destruct (s +:+ t); [done|]. by rewrite IH.
Qed.

Lemma withoutTrailingSlash_append (s t : string) :
  t <> "" -> withoutTrailingSlash (s +:+ t) = s +:+ withoutTrailingSlash t.
Proof.
  intros Ht. unfold withoutTrailingSlash. rewrite endsWithChar_append by done.
  destruct (QString.endsWithChar t "/"); [by apply chop1_append|done].
Qed.

Lemma withoutLeadingSlash_append (s t : string) :
  s <> "" -> withoutLeadingSlash (s +:+ t) = withoutLeadingSlash s +:+ t.
Proof.
  intros Hs. destruct s as [|c s]; [done|]. rewrite append_cons. simpl.
  destruct (Ascii.eqb c "/"); [done|]. by rewrite append_cons.
Qed.

Lemma withoutTrailingSlash_cons (c : ascii) (s : string) :
  s <> "" -> withoutTrailingSlash (String c s) = String c (withoutTrailingSlash s).
Proof.
  intros Hs. change (String c s) with (String c "" +:+ s).
  by rewrite withoutTrailingSlash_append.
Qed.

(** Taking off a leading and a trailing slash can be done in either
    order. *)
Lemma without_slashes_comm (a : string) :
  withoutLeadingSlash (withoutTrailingSlash a)
  = withoutTrailingSlash (withoutLeadingSlash a).
Proof.
  destruct a as [|c a]; [done|]. destruct a as [|d a].
  { unfold withoutTrailingSlash, withoutLeadingSlash. simpl.
    destruct (Ascii.eqb c "/"); done. }
  rewrite (withoutTrailingSlash_cons c (String d a)) by done.
  cbn [withoutLeadingSlash].
  destruct (Ascii.eqb c "/"); [done|].
  by rewrite (withoutTrailingSlash_cons c (String d a)).
Qed.

Lemma joinedPath_assoc (x a b : string) :
  joinedPath (joinedPath x a) b = joinedPath x (joinedPath a b).
Proof.
  destruct (decide (b = "")) as [->|Hb]; [by rewrite !joinedPath_empty|].
  destruct (decide (a = "")) as [->|Ha].
  { rewrite joinedPath_empty, !(joinedPath_junction _ b) by done.
    rewrite joinedPath_junction by (by apply append_nonempty_r).
    change (withoutTrailingSlash "" +:+ "/" +:+ withoutLeadingSlash b)
      with (String "/" (withoutLeadingSlash b)).
    done. }
  rewrite (joinedPath_junction a b) by done.
  rewrite (joinedPath_junction x a) by done.
  rewrite joinedPath_junction by done.
  rewrite joinedPath_junction by (by apply append_nonempty_r).
  destruct (decide (a = "/")) as [->|Ha1].
  { simpl. replace (withoutTrailingSlash x +:+ "/" +:+ "")
      with (withoutTrailingSlash x +:+ "/") by (by rewrite append_empty_r).
    rewrite withoutTrailingSlash_append by done. simpl.
    by rewrite append_empty_r. }
  assert (Hl : withoutLeadingSlash a <> "").
  { destruct a as [|c [|d a]]; [done| |].
    - simpl. destruct (Ascii.eqb_spec c "/") as [->|?]; done.
    - simpl. destruct (Ascii.eqb c "/"); done. }
  assert (Ht : withoutTrailingSlash a <> "").
  { destruct a as [|c [|d a]]; [done| |].
    - unfold withoutTrailingSlash. simpl.
      destruct (Ascii.eqb_spec c "/") as [->|?]; done.
    - by rewrite withoutTrailingSlash_cons. }
  rewrite withoutTrailingSlash_append by (by apply append_nonempty_r).
  rewrite withoutTrailingSlash_append by done.
  rewrite withoutLeadingSlash_append by done.
  rewrite without_slashes_comm. by rewrite !append_assoc.
Qed.

(** X17. Joining is associative, so the URL of a WebDAV request is the
    URL of the account joined with the joined DAV path and relative
    path; scheme, host and port are those of the account. *)
Theorem davRequestUrl_joined {Variant Certificate : Type} (items : list (string * string))
  (a : @Account Variant Certificate) (relPath : string) :
  path (davRequestUrl items a relPath)
  = joinedPath (path (_url a)) (joinedPath (_davPath a) relPath) /\
  scheme (davRequestUrl items a relPath) = scheme (_url a) /\
  host (davRequestUrl items a relPath) = host (_url a) /\
  port (davRequestUrl items a relPath) = port (_url a) /\
  (forall x y z, joinedPath (joinedPath x y) z = joinedPath x (joinedPath y z)).
Proof.
  unfold davRequestUrl, davUrl. rewrite !concatUrlPath_path.
  destruct (concatUrlPath_fields (concatUrlPath (_url a) (_davPath a) items) relPath items)
    as (Hs & Hh & Hp).
  destruct (concatUrlPath_fields (_url a) (_davPath a) items) as (Hs' & Hh' & Hp').
  split; [apply joinedPath_assoc|]. split; [congruence|]. split; [congruence|].
  split; [congruence|]. apply joinedPath_assoc.
Qed.

(** X18. A leading slash of the relative path makes no difference: a
    request for ["/" ++ rel] goes to the same URL as a request for
    [rel], for every [rel] that is not empty and has no leading slash
    itself.  For the empty path it does: [""] keeps the path of the
    account, ["/"] gives a path that ends with a slash. *)
Theorem requestUrl_leading_slash {Variant Certificate : Type}
  (items : list (string * string)) (a : @Account Variant Certificate) (rel : string) :
  rel <> "" -> QString.startsWithChar rel "/" = false ->
  requestUrl items a (String "/" rel) = requestUrl items a rel /\
  davRequestUrl items a (String "/" rel) = davRequestUrl items a rel /\
  path (requestUrl items a "") = path (_url a) /\
  QString.endsWithChar (path (requestUrl items a "/")) "/" = true.
Proof.
  intros Hrel Hstart.
  assert (H : forall url, concatUrlPath url (String "/" rel) items
                          = concatUrlPath url rel items).
  { intros url. unfold concatUrlPath. cbv zeta.
    assert (QString.isEmpty rel = false) as -> by (by destruct rel).
    rewrite Hstart. simpl QString.isEmpty. simpl QString.startsWithChar. simpl negb.
    rewrite !andb_true_r, andb_false_r. cbv iota.
    destruct (QString.endsWithChar (path url) "/") eqn:He; simpl negb; cbv iota.
    - assert (QString.chop1 (path url) +:+ String "/" rel = path url +:+ rel) as ->; [|done].
      rewrite (endsWithChar_chop1 _ _ He) at 2. by rewrite append_assoc.
    - assert (path url +:+ String "/" rel = (path url +:+ "/") +:+ rel) as ->; [|done].
      by rewrite append_assoc. }
  split; [apply H|]. split; [apply H|]. split.
  - unfold requestUrl. by rewrite concatUrlPath_path.
  - unfold requestUrl. rewrite concatUrlPath_path.
    rewrite joinedPath_junction by done.
    change ("/" +:+ withoutLeadingSlash "/") with "/".
    by rewrite endsWithChar_append.
Qed.

Lemma requestUrl_leading_slash_witness :
  requestUrl [] sampleAccount "/status.php" = requestUrl [] sampleAccount "status.php".
Proof.
  exact (proj1 (requestUrl_leading_slash [] sampleAccount "status.php"
                  ltac:(discriminate) eq_refl)).
Defined.

(** ** [changed] *)

(** X19. With the protocol ignored, [changed] reports a change exactly
    when host, port or path of the two URLs differ or the credentials
    say so; the scheme and the query play no part.  Without another
    account nothing has changed, and an account without credentials
    cannot be compared. *)
Theorem changed_ignoring_protocol {Variant Certificate : Type}
  (credentialsChanged : Credentials -> option Credentials -> bool)
  (this other : @Account Variant Certificate) (c : Credentials) :
  _credentials this = Some c ->
  (exists b,
      changed credentialsChanged this (Some other) true = Ok b /\
      (b = true <->
       host (_url this) <> host (_url other) \/ port (_url this) <> port (_url other) \/
       path (_url this) <> path (_url other) \/
       credentialsChanged c (_credentials other) = true)) /\
  (forall flag, changed credentialsChanged this None flag = Ok false) /\
  (forall flag, changed credentialsChanged
                  (mkAccount (_url this) (_davPath this) None (_settingsMap this)
                     (_treatSslErrorsAsFailure this) (_approvedCerts this))
                  (Some other) flag = Undefined).
Proof.
  intros Hc. split; [|split; [done|done]].
  eexists. unfold changed. rewrite Hc. split; [done|].
  unfold isEqualExceptProtocol. rewrite !orb_true_iff, !bool_decide_eq_true.
  tauto.
Qed.

Lemma changed_ignoring_protocol_witness :
  changed (fun _ _ => false) sampleAccount
    (Some (setUrl (mkQUrl "http" "example.org" 443%Z "/cloud/" []) sampleAccount))
    true = Ok false.
Proof.
  destruct (proj1 (changed_ignoring_protocol (fun _ _ => false) sampleAccount
                     (setUrl (mkQUrl "http" "example.org" 443%Z "/cloud/" []) sampleAccount)
                     sampleCredentials eq_refl))
    as (b & Hrun & Hb).
  rewrite Hrun. f_equal. destruct b; [|done].
  destruct (proj1 Hb eq_refl) as [H|[H|[H|H]]]; [by destruct H..|discriminate H].
Defined.

(** X20. With the protocol not ignored the comparison of the URLs is
    the wrong way round: [changed] reports a change exactly when the
    two URLs are equal or the credentials say so.  Two accounts with
    different URLs and the same credentials count as unchanged, an
    account compared with a copy of itself as changed. *)
Theorem changed_with_protocol {Variant Certificate : Type}
  (credentialsChanged : Credentials -> option Credentials -> bool)
  (this other : @Account Variant Certificate) (c : Credentials) :
  _credentials this = Some c ->
  (exists b,
      changed credentialsChanged this (Some other) false = Ok b /\
      (b = true <->
       _url this = _url other \/ credentialsChanged c (_credentials other) = true)) /\
  changed credentialsChanged this (Some this) false = Ok true.
Proof.
  intros Hc. unfold changed. rewrite Hc. split.
  - eexists. split; [done|]. by rewrite orb_true_iff, bool_decide_eq_true.
  - by rewrite bool_decide_eq_true_2.
Qed.

Lemma changed_with_protocol_witness :
  changed (fun _ _ => false) sampleAccount (Some sampleAccount) false = Ok true.
Proof.
  exact (proj2 (changed_with_protocol (fun _ _ => false) sampleAccount sampleAccount
                  sampleCredentials eq_refl)).
Defined.

(** ** Settings of the credentials *)

Lemma append_inj_l (p a b : string) : p +:+ a = p +:+ b -> a = b.
Proof.
  induction p as [|c p IH]; [done|]. rewrite !append_cons. intros [= H]. by apply IH.
Qed.

Lemma length_append (a b : string) :
  String.length (a +:+ b) = String.length a + String.length b.
Proof. induction a as [|c a IH]; [done|]. rewrite append_cons. simpl. by rewrite IH. Qed.

Lemma prefixed_key_ne (p key : string) : p +:+ "_" +:+ key <> key.
Proof.
  intros H. apply (f_equal String.length) in H. rewrite !length_append in H.
  simpl in H. lia.
Qed.

(** X21. A setting that was stored is read back: with credentials in
    place, [credentialSetting] after [setCredentialSetting] gives the
    string of the stored value; when that string is empty, the value
    kept under the plain key is given instead. *)
Theorem credentialSetting_round_trip {Variant Certificate : Type}
  (toString : Variant -> string) (a : @Account Variant Certificate)
  (c : Credentials) (key : string) (value : Variant) :
  _credentials a = Some c ->
  (toString value <> "" ->
   credentialSetting toString (setCredentialSetting key value a) key
   = Some (toString value)) /\
  (toString value = "" ->
   credentialSetting toString (setCredentialSetting key value a) key
   = Some (default "" (toString <$> _settingsMap a !! key))).
Proof.
  intros Hc. destruct a as [u dp cr sm t ac]. simpl in Hc. subst cr.
  unfold credentialSetting, setCredentialSetting. simpl.
  rewrite lookup_insert_eq. simpl. split; intros Hv.
  - by destruct (toString value).
  - rewrite Hv. simpl. by rewrite lookup_insert_ne by apply prefixed_key_ne.
Qed.

Lemma credentialSetting_round_trip_witness :
  credentialSetting id (setCredentialSetting "user" "me" sampleAccount) "user" = Some "me".
Proof.
  exact (proj1 (credentialSetting_round_trip id sampleAccount sampleCredentials
                  "user" "me" eq_refl) ltac:(discriminate)).
Defined.

(** X22. A setting is kept apart from the others: storing a value for
    [key] leaves what is read for every other key as it was, except for
    the key that is spelled like the prefixed [key].  Without
    credentials nothing is stored and nothing is read. *)
Theorem setCredentialSetting_frame {Variant Certificate : Type}
  (toString : Variant -> string) (a : @Account Variant Certificate)
  (key key' : string) (value : Variant) :
  (forall c, _credentials a = Some c ->
     key' <> key -> key' <> authType c +:+ "_" +:+ key ->
     credentialSetting toString (setCredentialSetting key value a) key'
     = credentialSetting toString a key') /\
  (_credentials a = None ->
   setCredentialSetting key value a = a /\ credentialSetting toString a key' = None).
Proof.
  split.
  - intros c Hc Hkey Hpre. destruct a as [u dp cr sm t ac]. simpl in Hc. subst cr.
    unfold credentialSetting, setCredentialSetting. simpl.
    rewrite lookup_insert_ne by (intros H; by apply append_inj_l, append_inj_l in H).
    by rewrite lookup_insert_ne by done.
  - intros Hc. unfold credentialSetting, setCredentialSetting. by rewrite Hc.
Qed.

Lemma setCredentialSetting_frame_witness :
  credentialSetting id (setCredentialSetting "user" "me" sampleAccount) "token"
  = credentialSetting id sampleAccount "token".
Proof.
  apply (proj1 (setCredentialSetting_frame id sampleAccount "user" "token" "me")
           sampleCredentials eq_refl); discriminate.
Defined.

(** ** SSL errors *)

Section ssl.
Context {Variant Certificate SslError SslConfiguration : Type}.

Lemma handleAllErrors_refused
  (replies : list (option (@SslErrorHandler Variant Certificate SslError SslConfiguration)
                   * list SslError * SslConfiguration))
  (a : @Account Variant Certificate) :
  _treatSslErrorsAsFailure a = true -> handleAllErrors replies a = (a, []).
Proof.
  intros Ha. induction replies as [|[[handler errors] conf] rest IH]; [done|].
  simpl. unfold slotHandleErrors. rewrite Ha. by rewrite IH.
Qed.

Lemma handleAllErrors_app
  (l1 l2 : list (option (@SslErrorHandler Variant Certificate SslError SslConfiguration)
                 * list SslError * SslConfiguration))
  (a : @Account Variant Certificate) :
  handleAllErrors (l1 ++ l2) a
  = ((handleAllErrors l2 (handleAllErrors l1 a).1).1,
     (handleAllErrors l1 a).2 ++ (handleAllErrors l2 (handleAllErrors l1 a).1).2).
Proof.
  revert a. induction l1 as [|[[handler errors] conf] l1 IH]; intros a.
  - simpl. by destruct (handleAllErrors l2 a).
  - simpl. destruct (slotHandleErrors handler errors conf a) as [a1 acts1].
    rewrite IH. destruct (handleAllErrors l1 a1) as [a2 acts2]. simpl.
    destruct (handleAllErrors l2 a2) as [a3 acts3]. simpl. by rewrite app_assoc.
Qed.

Lemma slotHandleErrors_monotone
  (handler : option (@SslErrorHandler Variant Certificate SslError SslConfiguration))
  (errors : list SslError) (conf : SslConfiguration) (a : @Account Variant Certificate) :
  _approvedCerts a `prefix_of` _approvedCerts (slotHandleErrors handler errors conf a).1 /\
  (_treatSslErrorsAsFailure a = true ->
   _treatSslErrorsAsFailure (slotHandleErrors handler errors conf a).1 = true) /\
  (handler = None -> slotHandleErrors handler errors conf a = (a, [])).
Proof.
  unfold slotHandleErrors. destruct (_treatSslErrorsAsFailure a) eqn:Ha.
  { simpl. by rewrite Ha. }
  destruct handler as [h|]; [|done].
  destruct (h errors conf a) as [[|] certs]; simpl.
  - split; [by apply prefix_app_r|done].
  - done.
Qed.
End ssl.

(** X23. A refusal is final and approvals are only added: once the
    handler has refused the errors of a reply, no later reply is let
    through, no handler is asked, and the account stays as it is;
    along every run the approved certificates of before stay in front
    of the list.  Without a handler a reply changes nothing. *)
Theorem ssl_refusal_is_final {Variant Certificate SslError SslConfiguration : Type}
  (replies rest : list (option (@SslErrorHandler Variant Certificate SslError
                                   SslConfiguration)
                        * list SslError * SslConfiguration))
  (a : @Account Variant Certificate) :
  (_treatSslErrorsAsFailure (handleAllErrors replies a).1 = true ->
   handleAllErrors (replies ++ rest) a = handleAllErrors replies a) /\
  _approvedCerts a `prefix_of` _approvedCerts (handleAllErrors replies a).1 /\
  (forall (errors : list SslError) (conf : SslConfiguration),
     slotHandleErrors None errors conf a = (a, [])).
Proof.
  split; [|split].
  3: { intros errors conf. unfold slotHandleErrors.
       by destruct (_treatSslErrorsAsFailure a). }
  - intros Hrefused. rewrite handleAllErrors_app.
    rewrite (handleAllErrors_refused rest _ Hrefused). simpl.
    rewrite app_nil_r. by destruct (handleAllErrors replies a).
  - revert a. induction replies as [|[[handler errors] conf] l IH]; intros a; [done|].
    simpl. pose proof (slotHandleErrors_monotone handler errors conf a) as (Hpre & _).
    destruct (slotHandleErrors handler errors conf a) as [a1 acts1]. simpl in Hpre.
    specialize (IH a1). destruct (handleAllErrors l a1) as [a2 acts2]. simpl in *.
    by etrans.
Qed.

Lemma ssl_refusal_is_final_witness :
  handleAllErrors
    ([(Some (fun _ _ _ => (false, [])), ["expired"], "conf")]
       ++ [(Some (fun _ _ _ => (true, ["cert"])), ["expired"], "conf")])
    sampleAccount
  = handleAllErrors [(Some (fun _ _ _ => (false, [])), ["expired"], "conf")] sampleAccount.
Proof.
  exact (proj1 (ssl_refusal_is_final
                  [(Some (fun _ _ _ => (false, [])), ["expired"], "conf")]
                  [(Some (fun _ _ _ => (true, ["cert"])), ["expired"], "conf")]
                  sampleAccount) eq_refl).
Defined.
